(** * Expiry-date normaliser of [update_product_expiry]

    A shallow embedding of [Command._calculate_new_expiry] from
    [store/management/commands/update_product_expiry.py] together with the
    fragments of the Python runtime it relies on ([str] methods, [int()],
    the [0Nd] format specification and the [re] patterns of [EXP_PATTERNS]).

    Alphabet.  A Python [str] is a sequence of code points.  Here a string is
    a [list ascii] and each [ascii] stands for ONE code point in the range
    U+0000..U+00FF.  On that range [\d] is exactly [0-9], [[A-Za-z]] under
    [re.IGNORECASE] is exactly the 52 ASCII letters and the white space of
    [str.strip()] is the set given by [is_space] below.

    Integers.  A Python [int] is a [Z].  Writing one in decimal raises
    [ValueError] when it has more than [sys.int_info.default_max_str_digits]
    = 4300 digits; [format_0d] has that path, and through it the function
    and the command that calls it. *)

From Stdlib Require Import ZArith List Ascii String Bool Lia.
From Stdlib Require Import Permutation.
Import ListNotations.

Open Scope Z_scope.

(* ================================================================== *)
(** * Python runtime fragments *)

Module Py.

Definition str := list ascii.

(** A string literal of the source. *)
Definition lit (s : string) : str := list_ascii_of_string s.

Definition ord (c : ascii) : Z := Z.of_N (N_of_ascii c).
Definition chr (n : Z) : ascii := ascii_of_N (Z.to_N n).

Definition between (lo hi : Z) (c : ascii) : bool :=
  (lo <=? ord c) && (ord c <=? hi).

Definition is_digit (c : ascii) : bool := between 48 57 c.
Definition is_upper (c : ascii) : bool := between 65 90 c.
Definition is_lower (c : ascii) : bool := between 97 122 c.

(** White space of [str.strip()] below U+0100: TAB..CR, FS..US, SPACE, NEL
    and NBSP. *)
Definition is_space (c : ascii) : bool :=
  between 9 13 c || between 28 32 c || (ord c =? 133) || (ord c =? 160).

(** White space that [int()] skips around a number: it turns NEL and NBSP
    into spaces and then skips TAB..CR and SPACE, but not FS..US. *)
Definition is_int_space (c : ascii) : bool :=
  between 9 13 c || (ord c =? 32) || (ord c =? 133) || (ord c =? 160).

Fixpoint str_eqb (s t : str) : bool :=
  match s, t with
  | [], [] => true
  | c :: s', d :: t' => Ascii.eqb c d && str_eqb s' t'
  | _, _ => false
  end.

(** [s.lower()] and [s.upper()].  The program applies them only to text
    captured by [[A-Za-z]+], where they are the ASCII case maps. *)
Definition lower_char (c : ascii) : ascii :=
  if is_upper c then chr (ord c + 32) else c.
Definition upper_char (c : ascii) : ascii :=
  if is_lower c then chr (ord c - 32) else c.
Definition lower (s : str) : str := map lower_char s.
Definition upper (s : str) : str := map upper_char s.

(** Dropping the characters of a class at the left end, at the right end
    and at both ends. *)
Fixpoint lstrip_of (sp : ascii -> bool) (s : str) : str :=
  match s with
  | c :: s' => if sp c then lstrip_of sp s' else s
  | [] => []
  end.
Definition rstrip_of (sp : ascii -> bool) (s : str) : str :=
  rev (lstrip_of sp (rev s)).
Definition strip_of (sp : ascii -> bool) (s : str) : str :=
  rstrip_of sp (lstrip_of sp s).

(** [s.strip()] *)
Definition strip (s : str) : str := strip_of is_space s.

(** Exceptions that the operations used by the program can raise. *)
Inductive exn := TypeError | ValueError | IndexError.

Inductive result (A : Type) : Type :=
| Ok (a : A)
| Raise (e : exn).
Arguments Ok {A} a.
Arguments Raise {A} e.

Definition exn_eqb (e1 e2 : exn) : bool :=
  match e1, e2 with
  | TypeError, TypeError | ValueError, ValueError | IndexError, IndexError => true
  | _, _ => false
  end.

(** [except (E1, E2, ...)]: does the clause handle [e]? *)
Definition handles (clause : list exn) (e : exn) : bool :=
  existsb (exn_eqb e) clause.

(** ** [int(x)] for a [str] or [None] argument, base 10 *)

Definition digit_value (c : ascii) : Z := ord c - 48.

(** Digits with single underscores between them; [prev] tells whether the
    previous character was a digit. *)
Fixpoint int_digits (acc : Z) (prev : bool) (s : str) : option Z :=
  match s with
  | [] => if prev then Some acc else None
  | c :: s' =>
      if is_digit c then int_digits (10 * acc + digit_value c) true s'
      else if Ascii.eqb c "_" && prev then int_digits acc false s'
      else None
  end.

Definition int_str (s : str) : result Z :=
  let t := strip_of is_int_space s in
  let '(negative, body) :=
    match t with
    | "-"%char :: r => (true, r)
    | "+"%char :: r => (false, r)
    | _ => (false, t)
    end in
  match int_digits 0 false body with
  | Some n => Ok (if negative then - n else n)
  | None => Raise ValueError
  end.

Definition int (x : option str) : result Z :=
  match x with
  | None => Raise TypeError
  | Some s => int_str s
  end.

(** ** [f"{n:0{width}d}"] *)

Definition digit_char (d : Z) : ascii := chr (48 + d).

(** Decimal digits of [n >= 0], most significant first. *)
Fixpoint dec_digits (fuel : nat) (n : Z) : str :=
  match fuel with
  | O => []
  | S fuel' =>
      if n <? 10 then [digit_char n]
      else dec_digits fuel' (n / 10) ++ [digit_char (n mod 10)]
  end.

Definition str_of_nonneg (n : Z) : str :=
  dec_digits (S (Z.to_nat (Z.log2 n))) n.

Definition zfill (width : nat) (s : str) : str :=
  repeat "0"%char (width - List.length s) ++ s.

(** What the format specification [0{width}d] writes for [n]: the sign
    counts towards the width, and the zeros go after it. *)
Definition zero_padded (width : nat) (n : Z) : str :=
  if n <? 0 then "-"%char :: zfill (width - 1) (str_of_nonneg (- n))
  else zfill width (str_of_nonneg n).

(** [sys.int_info.default_max_str_digits] *)
Definition int_max_str_digits : Z := 4300.

(** [f"{n:0{width}d}"].  Converting an integer to decimal raises
    [ValueError] when it has more than [int_max_str_digits] digits, the sign
    not counted. *)
Definition format_0d (width : nat) (n : Z) : result str :=
  if int_max_str_digits <? Z.of_nat (List.length (str_of_nonneg (Z.abs n)))
  then Raise ValueError
  else Ok (zero_padded width n).

(** ** [dict.get] on a dictionary kept in insertion order *)

Definition dict_get {V : Type} (d : list (str * V)) (k : str) : option V :=
  option_map snd (find (fun kv => str_eqb (fst kv) k) d).

(** [s[0]] *)
Definition index0 (s : str) : result ascii :=
  match s with
  | c :: _ => Ok c
  | [] => Raise IndexError
  end.

End Py.

(* ================================================================== *)
(** * The fragment of [re] used by [EXP_PATTERNS] *)

Module Re.
Import Py.

Inductive charset :=
| Alpha    (* [A-Za-z] *)
| Digit.   (* \d *)

Inductive node :=
| Bol                                                   (* ^ *)
| Eol                                                   (* $ *)
| Lit (c : ascii)                                       (* a literal character *)
| Group (name : string) (cs : charset) (lo : nat) (hi : option nat).
    (* (?P<name>cs{lo,hi}), greedy; [hi = None] is unbounded *)

Record regex := { nodes : list node; ignorecase : bool }.

Definition in_set (ic : bool) (cs : charset) (c : ascii) : bool :=
  match cs with
  | Alpha => let c' := if ic then lower_char c else c in is_upper c' || is_lower c'
  | Digit => is_digit c
  end.

(** Length of the longest prefix of [s] made of characters satisfying [ok]. *)
Fixpoint run (ok : ascii -> bool) (s : str) : nat :=
  match s with
  | c :: s' => if ok c then S (run ok s') else O
  | [] => O
  end.

(** Greedy repetition: try [k], then [k - 1], ... down to [lo]. *)
Fixpoint backtrack {A : Type} (try : nat -> option A) (lo k : nat) : option A :=
  if (k <? lo)%nat then None
  else match try k with
       | Some r => Some r
       | None => match k with
                 | O => None
                 | S k' => backtrack try lo k'
                 end
       end.

(** [$] matches at the end of the string and just before a final newline. *)
Definition at_end (s : str) : bool :=
  match s with
  | [] => true
  | [c] => Ascii.eqb c (chr 10)
  | _ => false
  end.

Definition groupdict := list (string * str).

Fixpoint rmatch (ic : bool) (r : list node) (pos : nat) (s : str)
    (gd : groupdict) : option groupdict :=
  match r with
  | [] => Some gd
  | Bol :: r' => if (pos =? 0)%nat then rmatch ic r' pos s gd else None
  | Eol :: r' => if at_end s then rmatch ic r' pos s gd else None
  | Lit c :: r' =>
      match s with
      | c' :: s' => if Ascii.eqb c c' then rmatch ic r' (S pos) s' gd else None
      | [] => None
      end
  | Group name cs lo hi :: r' =>
      let n := run (in_set ic cs) s in
      let n := match hi with Some h => Nat.min n h | None => n end in
      backtrack
        (fun k => rmatch ic r' (pos + k) (skipn k s) ((name, firstn k s) :: gd))
        lo n
  end.

(** [regex.match(s)]: a match anchored at position 0; the result is the
    match's [groupdict()]. *)
Definition match_ (re : regex) (s : str) : option groupdict :=
  rmatch (ignorecase re) (nodes re) 0 s [].

(** [match.groupdict().get(name)] *)
Definition get (gd : groupdict) (name : string) : option str :=
  option_map snd (find (fun kv => String.eqb (fst kv) name) gd).

End Re.

(* ================================================================== *)
(** * The command: [MONTH_MAP], [EXP_PATTERNS], [_calculate_new_expiry] *)

Module Command.
Import Py Re.

(** Month name mappings (abbreviations and full names). *)
Definition MONTH_MAP : list (str * Z) :=
  [ (lit "jan", 1); (lit "january", 1);
    (lit "feb", 2); (lit "february", 2);
    (lit "mar", 3); (lit "march", 3);
    (lit "apr", 4); (lit "april", 4);
    (lit "may", 5);
    (lit "jun", 6); (lit "june", 6);
    (lit "jul", 7); (lit "july", 7);
    (lit "aug", 8); (lit "august", 8);
    (lit "sep", 9); (lit "sept", 9); (lit "september", 9);
    (lit "oct", 10); (lit "october", 10);
    (lit "nov", 11); (lit "november", 11);
    (lit "dec", 12); (lit "december", 12) ].

(** The ['month_type'] entry of a pattern: ['text'] or ['numeric']. *)
Inductive month_kind := text | numeric.

(** One entry of [EXP_PATTERNS]. *)
Record pattern := {
  regex : Re.regex;
  year_length : Z;
  separator : str;
  month_first : bool;
  month_type : month_kind
}.

(** [^(?P<month_text>[A-Za-z]+)SEP(?P<year>\d{w})$] with [re.IGNORECASE] *)
Definition re_text (sep : ascii) (w : nat) : Re.regex :=
  {| nodes := [Bol; Group "month_text" Alpha 1 None; Lit sep;
               Group "year" Digit w (Some w); Eol];
     ignorecase := true |}.

(** [^(?P<month>\d{1,2})SEP(?P<year>\d{w})$] *)
Definition re_month_year (sep : ascii) (w : nat) : Re.regex :=
  {| nodes := [Bol; Group "month" Digit 1 (Some 2%nat); Lit sep;
               Group "year" Digit w (Some w); Eol];
     ignorecase := false |}.

(** [^(?P<year>\d{4})SEP(?P<month>\d{1,2})$] *)
Definition re_year_month (sep : ascii) : Re.regex :=
  {| nodes := [Bol; Group "year" Digit 4 (Some 4%nat); Lit sep;
               Group "month" Digit 1 (Some 2%nat); Eol];
     ignorecase := false |}.

(** [^(?P<month>\d{2})(?P<year>\d{w})$] *)
Definition re_packed (w : nat) : Re.regex :=
  {| nodes := [Bol; Group "month" Digit 2 (Some 2%nat);
               Group "year" Digit w (Some w); Eol];
     ignorecase := false |}.

Definition EXP_PATTERNS : list pattern :=
  [ (* Text month with dash and 2-digit year (Aug-29, August-29) *)
    {| regex := re_text "-" 2; year_length := 2; separator := lit "-";
       month_first := true; month_type := text |};
    (* Text month with dash and 4-digit year (Aug-2029, August-2029) *)
    {| regex := re_text "-" 4; year_length := 4; separator := lit "-";
       month_first := true; month_type := text |};
    (* Text month with slash and 2-digit year (Aug/29, August/29) *)
    {| regex := re_text "/" 2; year_length := 2; separator := lit "/";
       month_first := true; month_type := text |};
    (* Text month with slash and 4-digit year (Aug/2029, August/2029) *)
    {| regex := re_text "/" 4; year_length := 4; separator := lit "/";
       month_first := true; month_type := text |};
    (* MM/YY or M/YY *)
    {| regex := re_month_year "/" 2; year_length := 2; separator := lit "/";
       month_first := true; month_type := numeric |};
    (* MM-YY or M-YY *)
    {| regex := re_month_year "-" 2; year_length := 2; separator := lit "-";
       month_first := true; month_type := numeric |};
    (* MM/YYYY or M/YYYY *)
    {| regex := re_month_year "/" 4; year_length := 4; separator := lit "/";
       month_first := true; month_type := numeric |};
    (* MM-YYYY or M-YYYY *)
    {| regex := re_month_year "-" 4; year_length := 4; separator := lit "-";
       month_first := true; month_type := numeric |};
    (* YYYY/MM, year first *)
    {| regex := re_year_month "/"; year_length := 4; separator := lit "/";
       month_first := false; month_type := numeric |};
    (* YYYY-MM, year first *)
    {| regex := re_year_month "-"; year_length := 4; separator := lit "-";
       month_first := false; month_type := numeric |};
    (* MMyy, no separator *)
    {| regex := re_packed 2; year_length := 2; separator := lit "";
       month_first := true; month_type := numeric |};
    (* MMYYYY, no separator *)
    {| regex := re_packed 4; year_length := 4; separator := lit "";
       month_first := true; month_type := numeric |} ].

(** How one iteration of the [for pattern in self.EXP_PATTERNS] loop ends. *)
Inductive outcome :=
| Continue
| Return (s : str).

(** Lines 357-392: the year is parsed, shifted and the string rebuilt. *)
Definition finish (pattern : pattern) (month : Z)
    (original_month_text : option str) (year_str : option str)
    (years_to_add : Z) : result outcome :=
  match int year_str with
  | Raise e => if handles [TypeError; ValueError] e then Ok Continue else Raise e
  | Ok year =>
      let new_year := year + years_to_add in
      let year_length := year_length pattern in
      let separator := separator pattern in
      let month_first := month_first pattern in
      let formatted_year : result str :=
        if year_length =? 2 then format_0d 2 (new_year mod 100)
        else format_0d 4 new_year in
      match formatted_year with
      | Raise e => Raise e
      | Ok formatted_year =>
          let formatted_month : result str :=
            match month_type pattern with
            | text =>
                match original_month_text with
                | None => Raise TypeError
                | Some t =>
                    match index0 t with
                    | Raise e => Raise e
                    | Ok c => Ok (upper [c] ++ lower (skipn 1 t))
                    end
                end
            | numeric => format_0d 2 month
            end in
          match formatted_month with
          | Raise e => Raise e
          | Ok formatted_month =>
              match separator with
              | _ :: _ =>
                  if month_first
                  then Ok (Return (formatted_month ++ separator ++ formatted_year))
                  else Ok (Return (formatted_year ++ separator ++ formatted_month))
              | [] =>
                  if month_first
                  then Ok (Return (formatted_month ++ formatted_year))
                  else Ok (Return (formatted_year ++ formatted_month))
              end
          end
      end
  end.

(** Lines 320-355 of the loop body, followed by [finish]. *)
Definition attempt (pattern : pattern) (exp_value : str) (years_to_add : Z)
    : result outcome :=
  match Re.match_ (regex pattern) exp_value with
  | None => Ok Continue
  | Some gd =>
      let year_str := Re.get gd "year" in
      match month_type pattern with
      | text =>
          match Re.get gd "month_text" with
          | None | Some [] => Ok Continue
          | Some month_text =>
              let month_lower := lower month_text in
              match dict_get MONTH_MAP month_lower with
              | None => Ok Continue
              | Some month =>
                  finish pattern month (Some month_text) year_str years_to_add
              end
          end
      | numeric =>
          match Re.get gd "month" with
          | None | Some [] => Ok Continue
          | Some month_str =>
              match int (Some month_str) with
              | Raise e =>
                  if handles [TypeError; ValueError] e then Ok Continue
                  else Raise e
              | Ok month =>
                  if (month <? 1) || (month >? 12) then Ok Continue
                  else finish pattern month None year_str years_to_add
              end
          end
      end
  end.

(** The loop: the first iteration that returns decides; when every
    iteration continues the function returns [None] (line 394). *)
Fixpoint for_patterns (patterns : list pattern) (exp_value : str)
    (years_to_add : Z) : result (option str) :=
  match patterns with
  | [] => Ok None
  | pattern :: rest =>
      match attempt pattern exp_value years_to_add with
      | Raise e => Raise e
      | Ok (Return s) => Ok (Some s)
      | Ok Continue => for_patterns rest exp_value years_to_add
      end
  end.

(** Return the adjusted expiry string or None if it cannot be parsed. *)
Definition _calculate_new_expiry (exp_value : str) (years_to_add : Z)
    : result (option str) :=
  match exp_value with
  | [] => Ok None
  | _ =>
      let exp_value := strip exp_value in
      match exp_value with
      | [] => Ok None
      | _ => for_patterns EXP_PATTERNS exp_value years_to_add
      end
  end.

(** Lines 175-176 of [handle]: the driver's own check of [--years]. *)
Inductive driver_check := CommandError (message : string) | Accepted.

Definition check_years (years_to_add : Z) : driver_check :=
  if years_to_add <=? 0 then CommandError "--years must be a positive integer"
  else Accepted.

End Command.

(* ================================================================== *)
(** * The matcher and the reformatter as the specification names them

    The source has one function; its loop body first decides whether a rule
    takes the string (lines 320-360) and then rebuilds it (lines 362-392).
    [classify] is the first half read off the code, [apply_offset] the
    string the second half builds and [year_writable] whether it builds
    one; [calculate_classify] below shows that together they are
    [_calculate_new_expiry]. *)

Module Matcher.
Import Py Re Command.

(** ParseResult of a match: the rule, the month, the captured month name
    (textual rules only) and the year. *)
Record parsed := {
  rule : pattern;
  month : Z;
  month_text : option str;
  year : Z
}.

(** What lines 320-360 of the loop body extract when they do not
    [continue]. *)
Definition accepts (p : pattern) (s : str) : option parsed :=
  match Re.match_ (regex p) s with
  | None => None
  | Some gd =>
      match month_type p with
      | text =>
          match Re.get gd "month_text" with
          | Some (c :: t) =>
              match dict_get MONTH_MAP (lower (c :: t)), int (Re.get gd "year") with
              | Some m, Ok y =>
                  Some {| rule := p; month := m; month_text := Some (c :: t); year := y |}
              | _, _ => None
              end
          | _ => None
          end
      | numeric =>
          match Re.get gd "month" with
          | Some (c :: t) =>
              match int (Some (c :: t)), int (Re.get gd "year") with
              | Ok m, Ok y =>
                  if (m <? 1) || (m >? 12) then None
                  else Some {| rule := p; month := m; month_text := None; year := y |}
              | _, _ => None
              end
          | _ => None
          end
      end
  end.

Fixpoint first_accepting (ps : list pattern) (s : str) : option parsed :=
  match ps with
  | [] => None
  | p :: rest =>
      match accepts p s with
      | Some r => Some r
      | None => first_accepting rest s
      end
  end.

Definition classify (raw : str) : option parsed :=
  first_accepting EXP_PATTERNS (strip raw).

(** First letter upper case, the rest lower case. *)
Definition capitalize (t : str) : str := upper (firstn 1 t) ++ lower (skipn 1 t).

Definition month_field (r : parsed) : str :=
  match month_text r with
  | Some t => capitalize t
  | None => zero_padded 2 (month r)
  end.

Definition year_field (p : pattern) (new_year : Z) : str :=
  if year_length p =? 2 then zero_padded 2 (new_year mod 100)
  else zero_padded 4 new_year.

(** Field order and separator of a rule. *)
Definition layout (p : pattern) (month_part year_part : str) : str :=
  if month_first p then month_part ++ separator p ++ year_part
  else year_part ++ separator p ++ month_part.

Definition apply_offset (r : parsed) (years_to_add : Z) : str :=
  layout (rule r) (month_field r) (year_field (rule r) (year r + years_to_add)).

(** The integers that [format_0d] writes: those of at most
    [int_max_str_digits] decimal digits. *)
Definition printable (n : Z) : Prop := Z.abs n < 10 ^ int_max_str_digits.

Definition fits_digits (n : Z) : bool :=
  Z.of_nat (List.length (str_of_nonneg (Z.abs n))) <=? int_max_str_digits.

(** Whether lines 368-372 write the new year: under a two-digit rule it
    is first reduced modulo 100; otherwise it is written as it is. *)
Definition year_writable (r : parsed) (years_to_add : Z) : bool :=
  (year_length (rule r) =? 2) || fits_digits (year r + years_to_add).

(** Value of a string of decimal digits. *)
Definition digits_value (s : str) : Z :=
  fold_left (fun acc c => 10 * acc + digit_value c) s 0.

Definition all_digits (s : str) : bool := forallb is_digit s.
Definition all_letters (s : str) : bool := forallb (in_set true Alpha) s.

(** The month field that a rule takes, and the month it stands for. *)
Definition month_ok (p : pattern) (mf : str) (m : Z) : Prop :=
  match month_type p with
  | text =>
      mf <> [] /\ all_letters mf = true
      /\ dict_get MONTH_MAP (lower mf) = Some m
  | numeric =>
      all_digits mf = true
      /\ (1 <= List.length mf <= 2)%nat
      /\ (separator p = [] -> List.length mf = 2%nat)
      /\ digits_value mf = m /\ 1 <= m <= 12
  end.

(** The year field that a rule takes. *)
Definition year_ok (p : pattern) (yf : str) : Prop :=
  all_digits yf = true /\ Z.of_nat (List.length yf) = year_length p.

Definition parsed_of (p : pattern) (mf yf : str) (m : Z) : parsed :=
  {| rule := p;
     month := m;
     month_text := match month_type p with text => Some mf | numeric => None end;
     year := digits_value yf |}.

Definition no_space (s : str) : bool := forallb (fun c => negb (is_space c)) s.

(** [y] is [x] with one run of digits replaced by a run of digits of the
    same length: the two strings differ in a year field and nowhere else. *)
Definition differs_only_in_year (x y : str) : Prop :=
  exists pre yin yout post,
    x = pre ++ yin ++ post /\ y = pre ++ yout ++ post
    /\ all_digits yin = true /\ all_digits yout = true
    /\ List.length yin = List.length yout.



(** [s] is empty or starts outside the class. *)
Definition stops (ok : ascii -> bool) (s : str) : bool :=
  match s with
  | c :: _ => negb (ok c)
  | [] => true
  end.

(** The upper bound of a repetition. *)
Definition within (hi : option nat) (n : nat) : bool :=
  match hi with
  | Some h => (n <=? h)%nat
  | None => true
  end.

(** What the backtracking matcher computes on
    [^(?P<n1>cs1{lo1,hi1})SEP(?P<n2>cs2{lo2,hi2})$] when [SEP] is outside
    [cs1] and a newline is outside [cs2]: no backtracking is left. *)
Definition sep_form (ic : bool) (n1 : string) (cs1 : charset) (lo1 : nat)
    (hi1 : option nat) (sep : ascii) (n2 : string) (cs2 : charset)
    (lo2 : nat) (hi2 : option nat) (s : str) : option groupdict :=
  let n := run (in_set ic cs1) s in
  if (lo1 <=? n)%nat && within hi1 n then
    match skipn n s with
    | c :: u =>
        if Ascii.eqb sep c then
          let m := run (in_set ic cs2) u in
          if (lo2 <=? m)%nat && within hi2 m && at_end (skipn m u)
          then Some [(n2, firstn m u); (n1, firstn n s)]
          else None
        else None
    | [] => None
    end
  else None.

(** The same for [^(?P<n1>cs{w1})(?P<n2>cs{w2})$]. *)
Definition packed_form (ic : bool) (n1 : string) (cs : charset) (w1 : nat)
    (n2 : string) (w2 : nat) (s : str) : option groupdict :=
  if (w1 <=? run (in_set ic cs) s)%nat then
    let u := skipn w1 s in
    if (w2 <=? run (in_set ic cs) u)%nat && at_end (skipn w2 u)
    then Some [(n2, firstn w2 u); (n1, firstn w1 s)]
    else None
  else None.

End Matcher.

(* ================================================================== *)
(** * The batch driver: [Command.handle] of [update_product_expiry]

    The database is a list of [Product] rows, of which the command reads
    the primary key and the [exp] column.  What [handle] writes on
    [self.stdout] is determined by the values kept here (the counters and
    the two sample lists); the writes themselves are not modelled.  The
    [Product] model is not among the sources: the [exp] column is taken to
    hold any string, and the queries and [bulk_update] are taken not to
    fail, so that the only exceptions of a run are those of the Python code
    shown. *)

Module Driver.
Import Py Command Matcher.

(** A [Product] row; [exp] may be NULL. *)
Record product := { pk : Z; exp : option str }.

Definition table := list product.

(** [options]: the parsed command line. *)
Record options := {
  years : Z;
  batch_size : Z;
  dry_run : bool;
  show_samples : Z;
  debug : bool;
  show_unmatched : Z
}.

(** The defaults of [add_arguments] (lines 132-166). *)
Definition default_options : options :=
  {| years := 3; batch_size := 1000; dry_run := false; show_samples := 5;
     debug := false; show_unmatched := 0 |}.

Definition len {A : Type} (l : list A) : Z := Z.of_nat (List.length l).

(** [.filter(~Q(exp__isnull=True)).exclude(exp__exact='')] *)
Definition has_expiry (p : product) : bool :=
  match exp p with
  | Some (_ :: _) => true
  | _ => false
  end.

(** [.order_by('pk')] *)
Fixpoint insert_by_pk (p : product) (l : list product) : list product :=
  match l with
  | [] => [p]
  | q :: l' => if pk p <=? pk q then p :: l else q :: insert_by_pk p l'
  end.

Definition order_by_pk (l : list product) : list product :=
  fold_right insert_by_pk [] l.

(** Lines 182-186. *)
Definition queryset (db : table) : list product :=
  order_by_pk (filter has_expiry db).

(** [Product.objects.bulk_update(objs, ['exp'])]: every row whose primary
    key is that of an object takes the object's [exp]. *)
Definition write_exp (obj : product) (db : table) : table :=
  map (fun row => if pk row =? pk obj
                  then {| pk := pk row; exp := exp obj |} else row) db.

Definition bulk_update (objs : list product) (db : table) : table :=
  fold_left (fun d obj => write_exp obj d) objs db.

(** The variables of the loop (lines 227-233) and the database as the open
    transaction sees it. *)
Record progress := {
  pending_updates : list product;
  sample_updates : list (Z * str * str);
  updated_count : Z;
  skipped_count : Z;
  unchanged_count : Z;
  processed_count : Z;
  unmatched_samples : list (Z * str);
  store : table
}.

Definition initial (db : table) : progress :=
  {| pending_updates := []; sample_updates := []; updated_count := 0;
     skipped_count := 0; unchanged_count := 0; processed_count := 0;
     unmatched_samples := []; store := db |}.

(** What can go wrong inside the loop: the transform raising, or [.strip()]
    on a NULL [exp]. *)
Inductive loop_error :=
| Transform (e : exn)
| AttributeError.

Inductive loop_result (A : Type) : Type :=
| Fine (a : A)
| Broke (e : loop_error).
Arguments Fine {A} a.
Arguments Broke {A} e.

(** One iteration of [for product in iterator] (lines 241-269). *)
Definition visit (o : options) (st : progress) (product : product)
    : loop_result progress :=
  let processed_count := processed_count st + 1 in
  match exp product with
  | None => Broke AttributeError
  | Some e =>
      let original_exp := strip e in
      match _calculate_new_expiry original_exp (years o) with
      | Raise x => Broke (Transform x)
      | Ok None =>
          let skipped_count := skipped_count st + 1 in
          let unmatched_samples :=
            if (show_unmatched o >? 0)
               && (len (unmatched_samples st) <? show_unmatched o)
            then unmatched_samples st ++ [(pk product, original_exp)]
            else unmatched_samples st in
          Fine {| pending_updates := pending_updates st;
                  sample_updates := sample_updates st;
                  updated_count := updated_count st;
                  skipped_count := skipped_count;
                  unchanged_count := unchanged_count st;
                  processed_count := processed_count;
                  unmatched_samples := unmatched_samples;
                  store := store st |}
      | Ok (Some new_exp) =>
          if str_eqb new_exp original_exp then
            Fine {| pending_updates := pending_updates st;
                    sample_updates := sample_updates st;
                    updated_count := updated_count st;
                    skipped_count := skipped_count st;
                    unchanged_count := unchanged_count st + 1;
                    processed_count := processed_count;
                    unmatched_samples := unmatched_samples st;
                    store := store st |}
          else
            let updated_count := updated_count st + 1 in
            let sample_updates :=
              if dry_run o && (len (sample_updates st) <? show_samples o)
              then sample_updates st ++ [(pk product, original_exp, new_exp)]
              else sample_updates st in
            if negb (dry_run o) then
              let product := {| pk := pk product; exp := Some new_exp |} in
              let pending_updates := pending_updates st ++ [product] in
              if len pending_updates >=? batch_size o then
                Fine {| pending_updates := [];
                        sample_updates := sample_updates;
                        updated_count := updated_count;
                        skipped_count := skipped_count st;
                        unchanged_count := unchanged_count st;
                        processed_count := processed_count;
                        unmatched_samples := unmatched_samples st;
                        store := bulk_update pending_updates (store st) |}
              else
                Fine {| pending_updates := pending_updates;
                        sample_updates := sample_updates;
                        updated_count := updated_count;
                        skipped_count := skipped_count st;
                        unchanged_count := unchanged_count st;
                        processed_count := processed_count;
                        unmatched_samples := unmatched_samples st;
                        store := store st |}
            else
              Fine {| pending_updates := pending_updates st;
                      sample_updates := sample_updates;
                      updated_count := updated_count;
                      skipped_count := skipped_count st;
                      unchanged_count := unchanged_count st;
                      processed_count := processed_count;
                      unmatched_samples := unmatched_samples st;
                      store := store st |}
      end
  end.

(** The [for] loop over the rows the iterator yields. *)
Fixpoint visit_all (o : options) (st : progress) (products : list product)
    : loop_result progress :=
  match products with
  | [] => Fine st
  | product :: rest =>
      match visit o st product with
      | Broke e => Broke e
      | Fine st' => visit_all o st' rest
      end
  end.

(** Lines 271-276: what is still pending after the loop is written. *)
Definition flush (o : options) (st : progress) : progress :=
  match negb (dry_run o), pending_updates st with
  | true, _ :: _ =>
      {| pending_updates := pending_updates st;
         sample_updates := sample_updates st;
         updated_count := updated_count st;
         skipped_count := skipped_count st;
         unchanged_count := unchanged_count st;
         processed_count := processed_count st;
         unmatched_samples := unmatched_samples st;
         store := bulk_update (pending_updates st) (store st) |}
  | _, _ => st
  end.

(** Lines 196-203 of the debug branch: the distinct stripped values among
    the sample rows, each with the key of the first row that has it. *)
Fixpoint collect_formats (sample_products : list product)
    (unique_formats : list (str * Z)) : loop_result (list (str * Z)) :=
  match sample_products with
  | [] => Fine unique_formats
  | product :: rest =>
      match exp product with
      | None => Broke AttributeError
      | Some e =>
          let exp_val := strip e in
          match exp_val with
          | [] => collect_formats rest unique_formats
          | _ :: _ =>
              if negb (existsb (fun kv => str_eqb (fst kv) exp_val) unique_formats)
                 && (len unique_formats <? 20)
              then collect_formats rest (unique_formats ++ [(exp_val, pk product)])
              else collect_formats rest unique_formats
          end
      end
  end.

(** Lines 213-218: the transform tried on the first ten of them. *)
Fixpoint try_formats (keys : list str) (years_to_add : Z)
    : loop_result (list (str * option str)) :=
  match keys with
  | [] => Fine []
  | exp_val :: rest =>
      match _calculate_new_expiry exp_val years_to_add with
      | Raise x => Broke (Transform x)
      | Ok parsed =>
          match try_formats rest years_to_add with
          | Broke e => Broke e
          | Fine l => Fine ((exp_val, parsed) :: l)
          end
      end
  end.

(** How [handle] ends. *)
Inductive ending :=
| Rejected (message : string)        (* raise CommandError(message), lines 175-180 *)
| NoProducts                         (* line 190-191 *)
| Debugged (unique_formats : list (str * Z))
           (tests : list (str * option str))     (* line 219 *)
| Uncaught (e : loop_error)          (* an exception of the debug branch *)
| ProcessingError (e : loop_error)   (* line 281 *)
| Summary (final : progress).        (* lines 283-308 *)

(** [handle]: the outcome and the database it leaves. *)
Definition handle (o : options) (db : table) : ending * table :=
  match check_years (years o) with
  | CommandError message => (Rejected message, db)
  | Accepted =>
      if batch_size o <=? 0
      then (Rejected "--batch-size must be a positive integer", db)
      else if show_samples o <? 0
      then (Rejected "--show-samples cannot be negative", db)
      else
        let queryset := queryset db in
        let total_candidates := len queryset in
        if total_candidates =? 0 then (NoProducts, db)
        else if debug o then
          match collect_formats (firstn 20 queryset) [] with
          | Broke e => (Uncaught e, db)
          | Fine unique_formats =>
              match try_formats (firstn 10 (map fst unique_formats)) (years o) with
              | Broke e => (Uncaught e, db)
              | Fine tests => (Debugged unique_formats tests, db)
              end
          end
        else
          match visit_all o (initial db) queryset with
          | Broke e => (ProcessingError e, db)
          | Fine st =>
              let st := flush o st in
              (Summary st, if dry_run o then db else store st)
          end
  end.

(** ** What the loop is expected to compute, stated row by row *)

(** The three ways a candidate row is counted.  [judge] is for a transform
    that returns; one that raises ends the run before the row is counted,
    and is put under [Unmatched] here. *)
Inductive verdict :=
| Unmatched
| Unchanged
| Changed (new_exp : str).

Definition judge (years_to_add : Z) (e : str) : verdict :=
  match _calculate_new_expiry (strip e) years_to_add with
  | Ok (Some new_exp) =>
      if str_eqb new_exp (strip e) then Unchanged else Changed new_exp
  | _ => Unmatched
  end.

(** The row after a run that commits. *)
Definition updated_row (years_to_add : Z) (row : product) : product :=
  match exp row with
  | Some (c :: t) =>
      match judge years_to_add (c :: t) with
      | Changed new_exp => {| pk := pk row; exp := Some new_exp |}
      | _ => row
      end
  | _ => row
  end.

Definition is_changed (years_to_add : Z) (row : product) : bool :=
  match exp row with
  | Some e => match judge years_to_add e with Changed _ => true | _ => false end
  | None => false
  end.

Definition is_unmatched (years_to_add : Z) (row : product) : bool :=
  match exp row with
  | Some e => match judge years_to_add e with Unmatched => true | _ => false end
  | None => false
  end.

Definition is_unchanged (years_to_add : Z) (row : product) : bool :=
  match exp row with
  | Some e => match judge years_to_add e with Unchanged => true | _ => false end
  | None => false
  end.

(** The sample lines of a dry run and of [--show-unmatched]. *)
Definition change_of (years_to_add : Z) (row : product) : list (Z * str * str) :=
  match exp row with
  | Some e =>
      match judge years_to_add e with
      | Changed new_exp => [(pk row, strip e, new_exp)]
      | _ => []
      end
  | None => []
  end.

(** The object handed to [bulk_update] for a row, if any. *)
Definition write_of (years_to_add : Z) (row : product) : list product :=
  match exp row with
  | Some e =>
      match judge years_to_add e with
      | Changed new_exp => [{| pk := pk row; exp := Some new_exp |}]
      | _ => []
      end
  | None => []
  end.

(** What the writes of [objs], one after the other, leave of a row. *)
Definition apply_writes (objs : list product) (row : product) : product :=
  fold_left (fun r obj => if pk r =? pk obj
                          then {| pk := pk r; exp := exp obj |} else r) objs row.

(** No row with a four-digit year is taken past the year 9999 by the
    offset. *)
Definition years_fit (years_to_add : Z) (db : table) : Prop :=
  forall row e r,
    In row db -> exp row = Some e -> classify e = Some r ->
    year_length (rule r) = 4 -> year r + years_to_add <= 9999.

(** No row with a four-digit year is taken by the offset to a year of more
    than [int_max_str_digits] digits, which line 372 cannot write. *)
Definition years_printable (years_to_add : Z) (db : table) : Prop :=
  forall row e r,
    In row db -> exp row = Some e -> classify e = Some r ->
    year_length (rule r) = 4 -> printable (year r + years_to_add).

(** A run that commits: no [--dry-run], no [--debug]. *)
Definition commits (o : options) : Prop :=
  dry_run o = false /\ debug o = false.

(** A small table used to run the definitions. *)
Definition sample_table : table :=
  [ {| pk := 5; exp := Some (lit " 08/29 ") |};
    {| pk := 2; exp := Some (lit "junk") |};
    {| pk := 3; exp := None |};
    {| pk := 1; exp := Some (lit "Aug-2029") |};
    {| pk := 4; exp := Some (lit "") |};
    {| pk := 7; exp := Some (lit "   ") |} ].

(** The options that [handle] lets through (lines 175-180). *)
Definition valid (o : options) : Prop :=
  0 < years o /\ 0 < batch_size o /\ 0 <= show_samples o.

Definition unmatched_of (years_to_add : Z) (row : product) : list (Z * str) :=
  match exp row with
  | Some e =>
      match judge years_to_add e with
      | Unmatched => [(pk row, strip e)]
      | _ => []
      end
  | None => []
  end.

End Driver.

(* ================================================================== *)
(** * [generate_random_invoices]: the random date

    A [datetime.date] is kept by its proleptic Gregorian ordinal, from 1
    ([date.min]) to 3652059 ([date.max]); the difference of two dates is a
    number of days.  What [random.randrange] draws is a parameter. *)

Module RandomInvoices.

Definition date := Z.
Definition date_min : date := 1.
Definition date_max : date := 3652059.

Inductive raised := ValueError | OverflowError.

Inductive result (A : Type) : Type :=
| Value (a : A)
| Raises (e : raised).
Arguments Value {A} a.
Arguments Raises {A} e.

Section Random.

(** The number that [random.randrange(stop)] draws for a positive [stop]. *)
Variable drawn : Z -> Z.

(** [random.randrange(stop)] *)
Definition randrange (stop : Z) : result Z :=
  if stop <=? 0 then Raises ValueError else Value (drawn stop).

(** [d + timedelta(days=days)] *)
Definition add_days (d : date) (days : Z) : result date :=
  let r := d + days in
  if (date_min <=? r) && (r <=? date_max) then Value r
  else Raises OverflowError.

(** Generate a random date between start_date and end_date. *)
Definition random_date (start_date end_date : date) : result date :=
  let time_between := end_date - start_date in
  let days_between := time_between in
  match randrange (days_between + 1) with
  | Raises e => Raises e
  | Value random_days => add_days start_date random_days
  end.

End Random.

End RandomInvoices.

(* ================================================================== *)
(** * Notions used to state further properties *)

Module Notions.
Import Py Re.

(** No character of [t] is a letter. *)
Definition no_letters (t : str) : bool :=
  forallb (fun c => negb (in_set true Alpha c)) t.

End Notions.

Import Py Re Command Matcher.

(* ================================================================== *)
(** * Facts about characters and strings *)

Module PyFacts.

Ltac each_char c :=
  destruct c as [[|] [|] [|] [|] [|] [|] [|] [|]]; vm_compute;
  try reflexivity; try discriminate; auto.

Lemma digit_not_letter ic c : is_digit c = true -> in_set ic Alpha c = false.
Proof. destruct ic; each_char c. Qed.

Lemma letter_not_digit ic c : in_set ic Alpha c = true -> is_digit c = false.
Proof. destruct ic; each_char c. Qed.

Lemma digit_not_space c : is_digit c = true -> is_space c = false.
Proof. each_char c. Qed.

Lemma digit_not_int_space c : is_digit c = true -> is_int_space c = false.
Proof. each_char c. Qed.

Lemma letter_not_space ic c : in_set ic Alpha c = true -> is_space c = false.
Proof. destruct ic; each_char c. Qed.

Lemma lower_char_idem c : lower_char (lower_char c) = lower_char c.
Proof. each_char c. Qed.

Lemma lower_upper_char c : lower_char (upper_char c) = lower_char c.
Proof. each_char c. Qed.

Lemma upper_lower_char c : upper_char (lower_char c) = upper_char c.
Proof. each_char c. Qed.

Lemma upper_char_idem c : upper_char (upper_char c) = upper_char c.
Proof. each_char c. Qed.

Lemma letter_upper c : in_set true Alpha (upper_char c) = in_set true Alpha c.
Proof. each_char c. Qed.

Lemma letter_lower c : in_set true Alpha (lower_char c) = in_set true Alpha c.
Proof. each_char c. Qed.

Lemma digit_value_range c : is_digit c = true -> 0 <= digit_value c <= 9.
Proof. each_char c; intros _; split; discriminate. Qed.

Lemma digit_char_value d : 0 <= d <= 9 -> digit_value (digit_char d) = d.
Proof.
  intros H.
  assert (E : d = 0 \/ d = 1 \/ d = 2 \/ d = 3 \/ d = 4 \/ d = 5 \/ d = 6
              \/ d = 7 \/ d = 8 \/ d = 9) by lia.
  repeat (destruct E as [E | E]; [subst d; reflexivity | ]).
  subst d; reflexivity.
Qed.

Lemma digit_char_digit d : 0 <= d <= 9 -> is_digit (digit_char d) = true.
Proof.
  intros H.
  assert (E : d = 0 \/ d = 1 \/ d = 2 \/ d = 3 \/ d = 4 \/ d = 5 \/ d = 6
              \/ d = 7 \/ d = 8 \/ d = 9) by lia.
  repeat (destruct E as [E | E]; [subst d; reflexivity | ]).
  subst d; reflexivity.
Qed.

Lemma letter_upper_is_upper c :
  in_set true Alpha c = true -> is_upper (upper_char c) = true.
Proof. each_char c. Qed.

Lemma letter_lower_is_lower c :
  in_set true Alpha c = true -> is_lower (lower_char c) = true.
Proof. each_char c. Qed.

Lemma str_eqb_eq s t : str_eqb s t = true <-> s = t.
Proof.
  revert t; induction s as [|c s IH]; intros [|d t]; simpl;
    try (split; [discriminate | discriminate]); try tauto.
  rewrite andb_true_iff, Ascii.eqb_eq, IH.
  split; [intros [-> ->]; reflexivity | intros E; inversion E; auto].
Qed.

Lemma str_eqb_refl s : str_eqb s s = true.
Proof. apply str_eqb_eq; reflexivity. Qed.

(** ** [strip] *)

Lemma lstrip_of_none sp s :
  forallb (fun c => negb (sp c)) s = true -> lstrip_of sp s = s.
Proof.
  destruct s as [|c s]; simpl; [reflexivity | ].
  rewrite andb_true_iff, negb_true_iff; intros [-> _]; reflexivity.
Qed.

Lemma forallb_rev (ok : ascii -> bool) s : forallb ok (rev s) = forallb ok s.
Proof.
  induction s as [|c s IH]; simpl; [reflexivity | ].
  rewrite forallb_app, IH; simpl; rewrite andb_true_r; apply andb_comm.
Qed.

(** A string without characters of the class is left as it is. *)
Lemma strip_of_none sp s :
  forallb (fun c => negb (sp c)) s = true -> strip_of sp s = s.
Proof.
  intros H; unfold strip_of, rstrip_of.
  rewrite (lstrip_of_none sp s H), lstrip_of_none, rev_involutive; auto.
  rewrite forallb_rev; exact H.
Qed.

Lemma strip_no_space s : no_space s = true -> strip s = s.
Proof. apply strip_of_none. Qed.

Lemma lstrip_of_stops sp s c t : lstrip_of sp s = c :: t -> sp c = false.
Proof.
  induction s as [|d s IH]; simpl; [discriminate | ].
  destruct (sp d) eqn:E; [exact IH | ].
  intros H; inversion H; subst; exact E.
Qed.

(** A stripped string does not end in white space. *)
Lemma strip_last s u c : strip s = u ++ [c] -> is_space c = false.
Proof.
  unfold strip, strip_of, rstrip_of; intros H.
  apply (f_equal (@rev ascii)) in H.
  rewrite rev_involutive, rev_app_distr in H; simpl in H.
  exact (lstrip_of_stops _ _ _ _ H).
Qed.

(** A stripped string does not start with white space. *)
Lemma strip_first s c t : strip s = c :: t -> is_space c = false.
Proof.
  unfold strip, strip_of, rstrip_of; intros H.
  destruct (lstrip_of is_space s) as [|d l] eqn:E; [discriminate | ].
  pose proof (lstrip_of_stops _ _ _ _ E) as Hd.
  assert (G : forall v w, lstrip_of is_space (v ++ [d]) = w ->
                          exists w', w = w' ++ [d]).
  { induction v as [|e v IH]; simpl; intros w Hw.
    - rewrite Hd in Hw; exists []; subst; reflexivity.
    - destruct (is_space e); [apply IH; exact Hw | ].
      exists (e :: v); subst; reflexivity. }
  simpl in H. destruct (G (rev l) _ eq_refl) as [w' Ew].
  rewrite Ew, rev_app_distr in H; simpl in H.
  inversion H; subst; exact Hd.
Qed.

Lemma lstrip_of_all sp s : forallb sp s = true -> lstrip_of sp s = [].
Proof.
  induction s as [|c s IH]; simpl; [reflexivity | ].
  intros H; apply andb_true_iff in H as [-> H]; auto.
Qed.

(** A string of white space strips to the empty string. *)
Lemma strip_spaces s : forallb is_space s = true -> strip s = [].
Proof.
  intros H; unfold strip, strip_of; rewrite (lstrip_of_all _ s H); reflexivity.
Qed.

End PyFacts.

(* ================================================================== *)
(** * [int()] and the [0Nd] format are inverse to each other *)

Module NumFacts.
Import PyFacts.

Lemma all_digits_no_space s : all_digits s = true -> no_space s = true.
Proof.
  unfold all_digits, no_space; induction s as [|c s IH]; simpl; [reflexivity | ].
  rewrite !andb_true_iff; intros [Hc Hs].
  rewrite (digit_not_space c Hc); auto.
Qed.

Lemma all_digits_no_int_space s :
  all_digits s = true -> forallb (fun c => negb (is_int_space c)) s = true.
Proof.
  unfold all_digits; induction s as [|c s IH]; simpl; [reflexivity | ].
  rewrite !andb_true_iff; intros [Hc Hs].
  rewrite (digit_not_int_space c Hc); auto.
Qed.

Lemma all_digits_app s t : all_digits (s ++ t) = all_digits s && all_digits t.
Proof. apply forallb_app. Qed.

Lemma digits_value_snoc s c :
  digits_value (s ++ [c]) = 10 * digits_value s + digit_value c.
Proof. unfold digits_value; rewrite fold_left_app; reflexivity. Qed.

Lemma int_digits_fold s : forall acc prev,
  all_digits s = true -> s <> [] \/ prev = true ->
  int_digits acc prev s
  = Some (fold_left (fun a c => 10 * a + digit_value c) s acc).
Proof.
  induction s as [|c s IH]; intros acc prev Hd Hne; simpl.
  - destruct Hne as [Hne | ->]; [contradiction | reflexivity].
  - simpl in Hd; apply andb_true_iff in Hd as [Hc Hs].
    rewrite Hc; apply IH; auto.
Qed.

Lemma int_str_unsigned c r :
  is_digit c = true -> strip_of is_int_space (c :: r) = c :: r ->
  int_str (c :: r)
  = match int_digits 0 false (c :: r) with
    | Some n => Ok n
    | None => Raise ValueError
    end.
Proof.
  intros Hc Hs; unfold int_str; rewrite Hs; clear Hs.
  revert Hc; each_char c.
Qed.

(** [int()] of a non-empty string of digits is its decimal value. *)
Lemma int_str_digits s :
  all_digits s = true -> s <> [] -> int_str s = Ok (digits_value s).
Proof.
  intros Hd Hne.
  destruct s as [|c r]; [contradiction | ].
  pose proof Hd as Hc; simpl in Hc; apply andb_true_iff in Hc as [Hc _].
  rewrite int_str_unsigned
    by (auto using strip_of_none, all_digits_no_int_space).
  rewrite (int_digits_fold (c :: r) 0 false Hd) by (left; discriminate).
  reflexivity.
Qed.

Lemma int_str_minus s :
  all_digits s = true -> s <> [] ->
  int_str ("-"%char :: s) = Ok (- digits_value s).
Proof.
  intros Hd Hne; unfold int_str.
  rewrite strip_of_none
    by (simpl; rewrite (all_digits_no_int_space s Hd); reflexivity).
  rewrite (int_digits_fold s 0 false Hd) by (left; exact Hne).
  reflexivity.
Qed.

(** ** Decimal digits *)

Lemma dec_digits_spec fuel : forall n,
  (1 <= fuel)%nat -> 0 <= n < 2 ^ Z.of_nat fuel ->
  all_digits (dec_digits fuel n) = true
  /\ dec_digits fuel n <> []
  /\ digits_value (dec_digits fuel n) = n.
Proof.
  induction fuel as [|fuel IH]; intros n Hf Hn; [lia | ].
  simpl dec_digits. destruct (n <? 10) eqn:E.
  - apply Z.ltb_lt in E. repeat split.
    + simpl; rewrite digit_char_digit by lia; reflexivity.
    + discriminate.
    + unfold digits_value; simpl; rewrite digit_char_value by lia; lia.
  - apply Z.ltb_ge in E.
    assert (Hp : 2 ^ Z.of_nat (S fuel) = 2 * 2 ^ Z.of_nat fuel)
      by (rewrite Nat2Z.inj_succ, Z.pow_succ_r by lia; reflexivity).
    assert (Hf' : (1 <= fuel)%nat).
    { destruct fuel; [simpl in Hn; lia | lia]. }
    assert (Hq : 0 <= n / 10 < 2 ^ Z.of_nat fuel).
    { split; [apply Z.div_pos; lia | ].
      apply Z.div_lt_upper_bound; lia. }
    destruct (IH (n / 10) Hf' Hq) as (A & B & C).
    pose proof (Z.mod_pos_bound n 10 ltac:(lia)) as Hm.
    repeat split.
    + rewrite all_digits_app, A; simpl.
      rewrite digit_char_digit by lia; reflexivity.
    + intros H; apply app_eq_nil in H as [_ H]; discriminate.
    + rewrite digits_value_snoc, C, digit_char_value by lia.
      pose proof (Z.div_mod n 10 ltac:(lia)); lia.
Qed.

Lemma str_of_nonneg_spec n :
  0 <= n ->
  all_digits (str_of_nonneg n) = true
  /\ str_of_nonneg n <> []
  /\ digits_value (str_of_nonneg n) = n.
Proof.
  intros Hn; unfold str_of_nonneg; apply dec_digits_spec; [lia | ].
  split; [exact Hn | ].
  rewrite Nat2Z.inj_succ, Z2Nat.id by apply Z.log2_nonneg.
  destruct (Z.eq_dec n 0) as [-> | Hz]; [reflexivity | ].
  apply Z.log2_spec; lia.
Qed.

Lemma dec_digits_length fuel : forall n w,
  0 <= n < 10 ^ Z.of_nat w -> (1 <= w)%nat ->
  (List.length (dec_digits fuel n) <= w)%nat.
Proof.
  induction fuel as [|fuel IH]; intros n w Hn Hw; simpl; [lia | ].
  destruct (n <? 10) eqn:E; simpl; [lia | ].
  apply Z.ltb_ge in E.
  destruct w as [|[|w]]; [lia | simpl in Hn; lia | ].
  rewrite length_app; simpl.
  assert (Hq : 0 <= n / 10 < 10 ^ Z.of_nat (S w)).
  { split; [apply Z.div_pos; lia | ].
    apply Z.div_lt_upper_bound; [lia | ].
    replace (Z.of_nat (S (S w))) with (Z.succ (Z.of_nat (S w))) in Hn by lia.
    rewrite Z.pow_succ_r in Hn by lia; lia. }
  specialize (IH (n / 10) (S w) Hq ltac:(lia)); lia.
Qed.

(** ** Zero fill *)

Lemma all_digits_repeat k : all_digits (repeat "0"%char k) = true.
Proof. induction k; simpl; auto. Qed.

Lemma digits_value_zeros k s :
  digits_value (repeat "0"%char k ++ s) = digits_value s.
Proof.
  unfold digits_value; rewrite fold_left_app. f_equal.
  induction k as [|k IH]; simpl; [reflexivity | exact IH].
Qed.

Lemma zfill_spec w s :
  all_digits s = true ->
  all_digits (zfill w s) = true
  /\ digits_value (zfill w s) = digits_value s
  /\ List.length (zfill w s) = Nat.max w (List.length s).
Proof.
  intros Hs; unfold zfill; repeat split.
  - rewrite all_digits_app, all_digits_repeat, Hs; reflexivity.
  - apply digits_value_zeros.
  - rewrite length_app, repeat_length; lia.
Qed.

Lemma zfill_nonempty w s : s <> [] -> zfill w s <> [].
Proof.
  unfold zfill; intros Hs H; apply app_eq_nil in H as [_ H]; contradiction.
Qed.

(** ** The format specification [0Nd] *)

(** Reading back what [0Nd] wrote gives the number, whatever its sign. *)
Lemma int_zero_padded w n : int_str (zero_padded w n) = Ok n.
Proof.
  unfold zero_padded; destruct (n <? 0) eqn:E.
  - apply Z.ltb_lt in E.
    destruct (str_of_nonneg_spec (- n) ltac:(lia)) as (A & B & C).
    destruct (zfill_spec (w - 1) _ A) as (A' & C' & _).
    rewrite int_str_minus; auto using zfill_nonempty.
    rewrite C', C; f_equal; lia.
  - apply Z.ltb_ge in E.
    destruct (str_of_nonneg_spec n E) as (A & B & C).
    destruct (zfill_spec w _ A) as (A' & C' & _).
    rewrite int_str_digits; auto using zfill_nonempty.
    rewrite C', C; reflexivity.
Qed.

(** A number that fits is written with exactly [w] digits. *)
Lemma zero_padded_fits w n :
  (1 <= w)%nat -> 0 <= n < 10 ^ Z.of_nat w ->
  all_digits (zero_padded w n) = true
  /\ List.length (zero_padded w n) = w
  /\ digits_value (zero_padded w n) = n.
Proof.
  intros Hw Hn; unfold zero_padded.
  replace (n <? 0) with false by (symmetry; apply Z.ltb_ge; lia).
  destruct (str_of_nonneg_spec n ltac:(lia)) as (A & B & C).
  destruct (zfill_spec w _ A) as (A' & C' & L).
  repeat split; auto; [ | congruence].
  rewrite L. pose proof (dec_digits_length (S (Z.to_nat (Z.log2 n))) n w Hn Hw).
  unfold str_of_nonneg; lia.
Qed.

(** The width is a minimum. *)
Lemma zero_padded_min_width w n : (w <= List.length (zero_padded w n))%nat.
Proof.
  unfold zero_padded, zfill; destruct (n <? 0); simpl;
    rewrite length_app, repeat_length; lia.
Qed.

(** A string of digits is worth less than the power of ten of its length. *)
Lemma digits_value_upper s :
  all_digits s = true -> 0 <= digits_value s < 10 ^ Z.of_nat (List.length s).
Proof.
  induction s as [|c s IH] using rev_ind; intros H.
  - unfold digits_value; simpl; lia.
  - rewrite all_digits_app in H. apply andb_true_iff in H as [Hs Hc].
    simpl in Hc. rewrite andb_true_r in Hc.
    specialize (IH Hs). pose proof (digit_value_range c Hc) as R.
    rewrite digits_value_snoc, length_app. simpl List.length.
    replace (Z.of_nat (List.length s + 1)) with (Z.succ (Z.of_nat (List.length s)))
      by lia.
    rewrite Z.pow_succ_r by lia. lia.
Qed.

(** A number too large for the width is written with all its digits. *)
Lemma zero_padded_large w n :
  (1 <= w)%nat -> 10 ^ Z.of_nat w <= n ->
  all_digits (zero_padded w n) = true
  /\ digits_value (zero_padded w n) = n
  /\ (w < List.length (zero_padded w n))%nat.
Proof.
  intros Hw Hn.
  assert (Hp : 0 < 10 ^ Z.of_nat w) by (apply Z.pow_pos_nonneg; lia).
  unfold zero_padded.
  replace (n <? 0) with false by (symmetry; apply Z.ltb_ge; lia).
  destruct (str_of_nonneg_spec n ltac:(lia)) as (A & B & C).
  destruct (zfill_spec w _ A) as (A' & C' & L).
  split; [exact A' | ]. split; [congruence | ].
  pose proof (digits_value_upper _ A') as U. rewrite C', C in U.
  destruct (Nat.lt_ge_cases w (List.length (zfill w (str_of_nonneg n))))
    as [G | G]; [exact G | exfalso].
  assert (10 ^ Z.of_nat (List.length (zfill w (str_of_nonneg n)))
          <= 10 ^ Z.of_nat w) by (apply Z.pow_le_mono_r; lia).
  lia.
Qed.

(** A negative number is written as a minus sign and the zero-padded
    digits of its absolute value, one less than the width at least. *)
Lemma zero_padded_negative w n :
  n < 0 ->
  exists d, zero_padded w n = "-"%char :: d
    /\ all_digits d = true /\ digits_value d = - n
    /\ (w - 1 <= List.length d)%nat
    /\ ((2 <= w)%nat -> - n < 10 ^ Z.of_nat (w - 1) ->
        List.length d = (w - 1)%nat).
Proof.
  intros Hn. unfold zero_padded.
  replace (n <? 0) with true by (symmetry; apply Z.ltb_lt; lia).
  destruct (str_of_nonneg_spec (- n) ltac:(lia)) as (A & B & C).
  destruct (zfill_spec (w - 1) _ A) as (A' & C' & L).
  eexists. split; [reflexivity | ]. split; [exact A' | ].
  split; [congruence | ]. split; [rewrite L; lia | ].
  intros Hw Hb. rewrite L.
  pose proof (dec_digits_length (S (Z.to_nat (Z.log2 (- n)))) (- n) (w - 1)
                ltac:(lia) ltac:(lia)).
  unfold str_of_nonneg. lia.
Qed.

(** ** The limit on the digits of a converted integer *)

Lemma int_max_str_digits_pos : 0 < int_max_str_digits.
Proof. reflexivity. Qed.

(** At most [int_max_str_digits] digits: below the power of ten. *)
Lemma fits_digits_printable n : fits_digits n = true <-> printable n.
Proof.
  unfold fits_digits, printable.
  pose proof int_max_str_digits_pos as Hpos.
  generalize dependent int_max_str_digits. intros limit Hpos.
  assert (Hm : 0 <= Z.abs n) by lia. revert Hm.
  generalize (Z.abs n). intros m Hm.
  destruct (str_of_nonneg_spec m Hm) as (A & B & C).
  pose proof (digits_value_upper _ A) as U. rewrite C in U.
  rewrite Z.leb_le. split.
  - intros L. eapply Z.lt_le_trans; [apply U | apply Z.pow_le_mono_r; lia].
  - intros P.
    pose proof (dec_digits_length (S (Z.to_nat (Z.log2 m))) m (Z.to_nat limit)) as D.
    rewrite Z2Nat.id in D by lia.
    specialize (D (conj Hm P) ltac:(lia)). unfold str_of_nonneg. lia.
Qed.

Lemma format_0d_cases w n :
  format_0d w n = if fits_digits n then Ok (zero_padded w n) else Raise ValueError.
Proof.
  unfold format_0d, fits_digits. rewrite Z.ltb_antisym.
  destruct (_ <=? _); reflexivity.
Qed.

Lemma format_0d_printable w n :
  printable n -> format_0d w n = Ok (zero_padded w n).
Proof.
  intros H. rewrite format_0d_cases.
  rewrite (proj2 (fits_digits_printable n) H). reflexivity.
Qed.

Lemma format_0d_raises w n :
  ~ printable n -> format_0d w n = Raise ValueError.
Proof.
  intros H. rewrite format_0d_cases.
  destruct (fits_digits n) eqn:E; [ | reflexivity].
  apply fits_digits_printable in E. contradiction.
Qed.

(** A number below [10 ^ 4] is far below the limit. *)
Lemma printable_small n : Z.abs n < 10 ^ 4 -> printable n.
Proof.
  intros H. unfold printable. eapply Z.lt_le_trans; [exact H | ].
  apply Z.pow_le_mono_r; [lia | ]. unfold int_max_str_digits. lia.
Qed.

Lemma fits_digits_small n : Z.abs n < 10 ^ 4 -> fits_digits n = true.
Proof. intros H. apply fits_digits_printable, printable_small, H. Qed.

End NumFacts.

(* ================================================================== *)
(** * The patterns without backtracking *)

Module ReFacts.
Import PyFacts.

Lemma backtrack_unfold {A : Type} (try : nat -> option A) lo k :
  backtrack try lo k =
  if (k <? lo)%nat then None
  else match try k with
       | Some r => Some r
       | None => match k with
                 | O => None
                 | S k' => backtrack try lo k'
                 end
       end.
Proof. destruct k; reflexivity. Qed.

Lemma backtrack_none {A : Type} (try : nat -> option A) lo : forall k,
  (forall j, (j <= k)%nat -> try j = None) -> backtrack try lo k = None.
Proof.
  induction k as [|k IH]; intros H; rewrite backtrack_unfold.
  - destruct (0 <? lo)%nat; [reflexivity | ]. rewrite H; auto.
  - destruct (S k <? lo)%nat; [reflexivity | ].
    rewrite H by lia. apply IH; intros j Hj; apply H; lia.
Qed.

Lemma run_le_length ok s : (run ok s <= List.length s)%nat.
Proof. induction s as [|c s IH]; simpl; [lia | destruct (ok c); simpl; lia]. Qed.

Lemma run_inside ok : forall s k,
  (k < run ok s)%nat -> exists c t, skipn k s = c :: t /\ ok c = true.
Proof.
  induction s as [|c s IH]; intros k Hk; simpl in Hk; [lia | ].
  destruct (ok c) eqn:E; [ | lia].
  destruct k as [|k]; simpl; [eauto | apply IH; lia].
Qed.

Lemma run_firstn ok : forall s, forallb ok (firstn (run ok s) s) = true.
Proof.
  induction s as [|c s IH]; simpl; [reflexivity | ].
  destruct (ok c) eqn:E; simpl; [rewrite E, IH | ]; reflexivity.
Qed.

Lemma run_skipn_stops ok : forall s, stops ok (skipn (run ok s) s) = true.
Proof.
  induction s as [|c s IH]; simpl; [reflexivity | ].
  destruct (ok c) eqn:E; simpl; [exact IH | rewrite E; reflexivity].
Qed.

Lemma run_app_stop ok : forall a t,
  forallb ok a = true -> stops ok t = true -> run ok (a ++ t) = List.length a.
Proof.
  induction a as [|c a IH]; simpl; intros t Ha Ht.
  - destruct t as [|d t]; simpl in *; [reflexivity | ].
    apply negb_true_iff in Ht; rewrite Ht; reflexivity.
  - apply andb_true_iff in Ha as [-> Ha]; rewrite IH; auto.
Qed.

Lemma run_stops ok s : stops ok s = true -> run ok s = O.
Proof. intros H; apply (run_app_stop ok [] s eq_refl H). Qed.

(** A group followed by something that cannot start inside the group's
    class takes the whole run or fails. *)
Lemma rmatch_group_det ic name cs lo hi r pos s gd :
  (forall p c t g, in_set ic cs c = true -> rmatch ic r p (c :: t) g = None) ->
  rmatch ic (Group name cs lo hi :: r) pos s gd =
  let n := run (in_set ic cs) s in
  if (lo <=? n)%nat && within hi n
  then rmatch ic r (pos + n) (skipn n s) ((name, firstn n s) :: gd)
  else None.
Proof.
  intros Hr. cbn [rmatch]. cbv zeta.
  set (try := fun k => rmatch ic r (pos + k) (skipn k s) ((name, firstn k s) :: gd)).
  set (n := run (in_set ic cs) s).
  assert (F : forall k, (k < n)%nat -> try k = None).
  { intros k Hk. destruct (run_inside _ s k Hk) as (c & t & E & Hc).
    unfold try; rewrite E; apply Hr; exact Hc. }
  destruct (within hi n) eqn:W.
  - replace (match hi with Some h => Nat.min n h | None => n end) with n
      by (destruct hi as [h|]; simpl in W; [apply Nat.leb_le in W; lia | reflexivity]).
    rewrite andb_true_r, backtrack_unfold.
    destruct (Nat.ltb_spec n lo) as [Hlo | Hlo].
    + replace (lo <=? n)%nat with false by (symmetry; apply Nat.leb_gt; lia).
      reflexivity.
    + replace (lo <=? n)%nat with true by (symmetry; apply Nat.leb_le; lia).
      fold (try n). destruct (try n) eqn:T; [reflexivity | ].
      destruct n as [|n']; [reflexivity | ].
      apply backtrack_none; intros j Hj; apply F; lia.
  - rewrite andb_false_r. destruct hi as [h|]; [ | discriminate].
    simpl in W; apply Nat.leb_gt in W.
    apply backtrack_none; intros j Hj; apply F; lia.
Qed.

(** A group of fixed width takes exactly that many characters. *)
Lemma rmatch_group_fixed ic name cs w r pos s gd :
  rmatch ic (Group name cs w (Some w) :: r) pos s gd =
  if (w <=? run (in_set ic cs) s)%nat
  then rmatch ic r (pos + w) (skipn w s) ((name, firstn w s) :: gd)
  else None.
Proof.
  cbn [rmatch]. cbv zeta.
  set (try := fun k => rmatch ic r (pos + k) (skipn k s) ((name, firstn k s) :: gd)).
  set (n := run (in_set ic cs) s).
  rewrite backtrack_unfold.
  destruct (Nat.leb_spec w n) as [Hw | Hw].
  - replace (Nat.min n w) with w by lia.
    rewrite Nat.ltb_irrefl. fold (try w).
    destruct (try w); [reflexivity | ].
    destruct w as [|w']; [reflexivity | ].
    rewrite backtrack_unfold.
    replace (w' <? S w')%nat with true by (symmetry; apply Nat.ltb_lt; lia).
    reflexivity.
  - replace (Nat.min n w <? w)%nat with true by (symmetry; apply Nat.ltb_lt; lia).
    reflexivity.
Qed.

Lemma at_end_inv e : at_end e = true -> e = [] \/ e = [chr 10].
Proof.
  destruct e as [|c [|d e]]; simpl; auto; [ | discriminate].
  intros H; apply Ascii.eqb_eq in H; subst; auto.
Qed.

Lemma at_end_class ok c t : ok (chr 10) = false -> ok c = true -> at_end (c :: t) = false.
Proof.
  intros Hn Hc; destruct t; simpl; [ | reflexivity].
  destruct (Ascii.eqb_spec c (chr 10)); [congruence | reflexivity].
Qed.

Lemma firstn_length_app (a t : str) : firstn (List.length a) (a ++ t) = a.
Proof. induction a as [|c a IH]; simpl; [destruct t | rewrite IH]; reflexivity. Qed.

Lemma skipn_length_app (a t : str) : skipn (List.length a) (a ++ t) = t.
Proof. induction a as [|c a IH]; simpl; auto. Qed.

Lemma length_firstn_run ok s : List.length (firstn (run ok s) s) = run ok s.
Proof. rewrite length_firstn. pose proof (run_le_length ok s); lia. Qed.

Lemma rmatch_lit ic c r pos c' s gd :
  rmatch ic (Lit c :: r) pos (c' :: s) gd
  = if Ascii.eqb c c' then rmatch ic r (S pos) s gd else None.
Proof. reflexivity. Qed.

Lemma rmatch_eol ic pos s gd :
  rmatch ic [Eol] pos s gd = if at_end s then Some gd else None.
Proof. reflexivity. Qed.

(** ** The two shapes of [EXP_PATTERNS] *)

Lemma match_sep ic n1 cs1 lo1 hi1 sep n2 cs2 lo2 hi2 s :
  in_set ic cs1 sep = false -> in_set ic cs2 (chr 10) = false ->
  Re.match_ {| nodes := [Bol; Group n1 cs1 lo1 hi1; Lit sep;
                         Group n2 cs2 lo2 hi2; Eol];
               ignorecase := ic |} s
  = sep_form ic n1 cs1 lo1 hi1 sep n2 cs2 lo2 hi2 s.
Proof.
  intros Hsep Hnl. unfold Re.match_, sep_form. cbn [nodes ignorecase].
  change (rmatch ic (Bol :: ?r) 0 s []) with (rmatch ic r 0 s []).
  rewrite rmatch_group_det.
  2:{ intros p c t g Hc. rewrite rmatch_lit.
      destruct (Ascii.eqb_spec sep c); [congruence | reflexivity]. }
  cbv zeta.
  destruct ((lo1 <=? run (in_set ic cs1) s)%nat && within hi1 (run (in_set ic cs1) s));
    [ | reflexivity].
  destruct (skipn (run (in_set ic cs1) s) s) as [|c u]; [reflexivity | ].
  rewrite rmatch_lit. destruct (Ascii.eqb sep c); [ | reflexivity].
  rewrite rmatch_group_det.
  2:{ intros p c' t g Hc. rewrite rmatch_eol.
      rewrite (at_end_class _ c' t Hnl Hc); reflexivity. }
  cbv zeta.
  destruct ((lo2 <=? run (in_set ic cs2) u)%nat && within hi2 (run (in_set ic cs2) u));
    [ | reflexivity].
  rewrite rmatch_eol. destruct (at_end _); reflexivity.
Qed.

Lemma match_packed ic n1 cs w1 n2 w2 s :
  Re.match_ {| nodes := [Bol; Group n1 cs w1 (Some w1);
                         Group n2 cs w2 (Some w2); Eol];
               ignorecase := ic |} s
  = packed_form ic n1 cs w1 n2 w2 s.
Proof.
  unfold Re.match_, packed_form. cbn [nodes ignorecase].
  change (rmatch ic (Bol :: ?r) 0 s []) with (rmatch ic r 0 s []).
  rewrite rmatch_group_fixed.
  destruct (w1 <=? run (in_set ic cs) s)%nat; [ | reflexivity].
  rewrite rmatch_group_fixed. cbv zeta.
  destruct (w2 <=? run (in_set ic cs) (skipn w1 s))%nat; [ | reflexivity].
  rewrite rmatch_eol. destruct (at_end _); reflexivity.
Qed.

(** ** What a match says about the string *)

Lemma sep_form_sound ic n1 cs1 lo1 hi1 sep n2 cs2 lo2 hi2 s gd :
  sep_form ic n1 cs1 lo1 hi1 sep n2 cs2 lo2 hi2 s = Some gd ->
  exists a b e,
    s = a ++ sep :: b ++ e
    /\ forallb (in_set ic cs1) a = true
    /\ (lo1 <= List.length a)%nat /\ within hi1 (List.length a) = true
    /\ forallb (in_set ic cs2) b = true
    /\ (lo2 <= List.length b)%nat /\ within hi2 (List.length b) = true
    /\ at_end e = true
    /\ gd = [(n2, b); (n1, a)].
Proof.
  unfold sep_form.
  set (n := run (in_set ic cs1) s).
  destruct ((lo1 <=? n)%nat && within hi1 n) eqn:C1; [ | discriminate].
  destruct (skipn n s) as [|c u] eqn:E; [discriminate | ].
  destruct (Ascii.eqb_spec sep c) as [<- | ]; [ | discriminate].
  set (m := run (in_set ic cs2) u).
  destruct ((lo2 <=? m)%nat && within hi2 m && at_end (skipn m u)) eqn:C2;
    [ | discriminate].
  intros H; inversion H; subst gd; clear H.
  apply andb_true_iff in C1 as [L1 W1].
  apply andb_true_iff in C2 as [C2 AE]. apply andb_true_iff in C2 as [L2 W2].
  apply Nat.leb_le in L1, L2.
  exists (firstn n s), (firstn m u), (skipn m u).
  rewrite firstn_skipn, <- E, firstn_skipn.
  unfold n, m; rewrite !length_firstn_run, !run_firstn.
  repeat split; auto.
Qed.

Lemma packed_form_sound ic n1 cs w1 n2 w2 s gd :
  packed_form ic n1 cs w1 n2 w2 s = Some gd ->
  exists a b e,
    s = a ++ b ++ e
    /\ forallb (in_set ic cs) a = true /\ List.length a = w1
    /\ forallb (in_set ic cs) b = true /\ List.length b = w2
    /\ at_end e = true
    /\ gd = [(n2, b); (n1, a)].
Proof.
  unfold packed_form.
  destruct (Nat.leb_spec w1 (run (in_set ic cs) s)) as [H1 | ]; [ | discriminate].
  cbv zeta. set (u := skipn w1 s).
  destruct (Nat.leb_spec w2 (run (in_set ic cs) u)) as [H2 | ]; [ | discriminate].
  simpl. destruct (at_end (skipn w2 u)) eqn:AE; [ | discriminate].
  intros H; inversion H; subst gd; clear H.
  exists (firstn w1 s), (firstn w2 u), (skipn w2 u).
  rewrite firstn_skipn. unfold u at 1. rewrite firstn_skipn.
  assert (P : forall k t, (k <= run (in_set ic cs) t)%nat ->
            forallb (in_set ic cs) (firstn k t) = true /\ List.length (firstn k t) = k).
  { intros k t Hk. split.
    - pose proof (run_firstn (in_set ic cs) t) as F.
      rewrite <- (firstn_skipn k (firstn _ t)), forallb_app in F.
      apply andb_true_iff in F as [F _].
      rewrite firstn_firstn in F. replace (Nat.min k _) with k in F by lia. exact F.
    - rewrite length_firstn. pose proof (run_le_length (in_set ic cs) t); lia. }
  destruct (P w1 s H1), (P w2 u H2). repeat split; auto.
Qed.

(** ** What the closed forms give on strings of a known shape *)

Lemma run_all ok (s : str) : forallb ok s = true -> run ok s = List.length s.
Proof.
  intros H. rewrite <- (app_nil_r s) at 1. apply run_app_stop; auto.
Qed.

Lemma sep_form_on_sep ic n1 cs1 lo1 hi1 sep n2 cs2 lo2 hi2 a sep' b :
  forallb (in_set ic cs1) a = true -> in_set ic cs1 sep' = false ->
  forallb (in_set ic cs2) b = true ->
  sep_form ic n1 cs1 lo1 hi1 sep n2 cs2 lo2 hi2 (a ++ sep' :: b)
  = if (lo1 <=? List.length a)%nat && within hi1 (List.length a)
       && Ascii.eqb sep sep'
       && ((lo2 <=? List.length b)%nat && within hi2 (List.length b))
    then Some [(n2, b); (n1, a)] else None.
Proof.
  intros Ha Hs Hb. unfold sep_form.
  rewrite run_app_stop by (auto; simpl; rewrite Hs; reflexivity).
  rewrite skipn_length_app, firstn_length_app.
  destruct ((lo1 <=? List.length a)%nat && within hi1 (List.length a));
    [ | reflexivity].
  destruct (Ascii.eqb sep sep'); [ | reflexivity]. simpl.
  rewrite (run_all _ b Hb), skipn_all, firstn_all. simpl.
  rewrite andb_true_r. reflexivity.
Qed.

Lemma sep_form_stops ic n1 cs1 lo1 hi1 sep n2 cs2 lo2 hi2 s :
  stops (in_set ic cs1) s = true -> (1 <= lo1)%nat ->
  sep_form ic n1 cs1 lo1 hi1 sep n2 cs2 lo2 hi2 s = None.
Proof.
  intros H Hlo. unfold sep_form. rewrite (run_stops _ s H).
  replace (lo1 <=? 0)%nat with false by (symmetry; apply Nat.leb_gt; lia).
  reflexivity.
Qed.

Lemma sep_form_all ic n1 cs1 lo1 hi1 sep n2 cs2 lo2 hi2 s :
  forallb (in_set ic cs1) s = true ->
  sep_form ic n1 cs1 lo1 hi1 sep n2 cs2 lo2 hi2 s = None.
Proof.
  intros H. unfold sep_form. rewrite (run_all _ s H), skipn_all.
  destruct (_ && _); reflexivity.
Qed.

Lemma packed_form_stops ic n1 cs w1 n2 w2 s :
  stops (in_set ic cs) s = true -> (1 <= w1)%nat ->
  packed_form ic n1 cs w1 n2 w2 s = None.
Proof.
  intros H Hw. unfold packed_form. rewrite (run_stops _ s H).
  replace (w1 <=? 0)%nat with false by (symmetry; apply Nat.leb_gt; lia).
  reflexivity.
Qed.

Lemma packed_form_on_sep ic n1 cs w1 n2 w2 a sep' b :
  in_set ic cs sep' = false -> sep' <> chr 10 ->
  packed_form ic n1 cs w1 n2 w2 (a ++ sep' :: b) = None.
Proof.
  intros Hs Hn.
  destruct (packed_form ic n1 cs w1 n2 w2 (a ++ sep' :: b)) as [gd|] eqn:E;
    [ | reflexivity].
  exfalso. apply packed_form_sound in E
    as (x & y & e & Es & Hx & _ & Hy & _ & He & _).
  assert (I : In sep' (x ++ y ++ e)) by (rewrite <- Es; apply in_elt).
  rewrite forallb_forall in Hx, Hy.
  apply in_app_or in I as [I | I]; [apply Hx in I; congruence | ].
  apply in_app_or in I as [I | I]; [apply Hy in I; congruence | ].
  apply at_end_inv in He as [-> | ->]; simpl in I; intuition.
Qed.

Lemma packed_form_all ic n1 cs w1 n2 w2 a b :
  forallb (in_set ic cs) a = true -> forallb (in_set ic cs) b = true ->
  List.length a = w1 ->
  packed_form ic n1 cs w1 n2 w2 (a ++ b)
  = if (List.length b =? w2)%nat then Some [(n2, b); (n1, a)] else None.
Proof.
  intros Ha Hb <-. unfold packed_form.
  rewrite (run_all _ (a ++ b)) by (rewrite forallb_app, Ha, Hb; reflexivity).
  rewrite length_app.
  replace (List.length a <=? List.length a + List.length b)%nat with true
    by (symmetry; apply Nat.leb_le; lia).
  rewrite skipn_length_app, firstn_length_app. cbv zeta.
  rewrite (run_all _ b Hb).
  destruct (Nat.leb_spec w2 (List.length b)) as [H | H]; simpl.
  - destruct (Nat.eqb_spec (List.length b) w2) as [<- | Hne].
    + rewrite skipn_all, firstn_all; reflexivity.
    + destruct (skipn w2 b) as [|c t] eqn:E.
      * exfalso. pose proof (length_skipn w2 b) as L. rewrite E in L. simpl in L. lia.
      * assert (Hc : in_set ic cs c = true).
        { rewrite forallb_forall in Hb. apply Hb.
          rewrite <- (firstn_skipn w2 b), E. apply in_elt. }
        destruct t as [|d t]; simpl; [ | reflexivity].
        destruct (Ascii.eqb_spec c (chr 10)) as [-> | ]; [ | reflexivity].
        exfalso. pose proof (length_skipn w2 b) as L. rewrite E in L. simpl in L.
        revert Hc. destruct ic, cs; vm_compute; discriminate.
  - destruct (Nat.eqb_spec (List.length b) w2); [lia | reflexivity].
Qed.

(** ** The four families of [EXP_PATTERNS] *)

Lemma match_re_text sep w s :
  in_set true Alpha sep = false ->
  Re.match_ (re_text sep w) s
  = sep_form true "month_text" Alpha 1 None sep "year" Digit w (Some w) s.
Proof. intros H; apply match_sep; auto. Qed.

Lemma match_re_month_year sep w s :
  is_digit sep = false ->
  Re.match_ (re_month_year sep w) s
  = sep_form false "month" Digit 1 (Some 2%nat) sep "year" Digit w (Some w) s.
Proof. intros H; apply match_sep; auto. Qed.

Lemma match_re_year_month sep s :
  is_digit sep = false ->
  Re.match_ (re_year_month sep) s
  = sep_form false "year" Digit 4 (Some 4%nat) sep "month" Digit 1 (Some 2%nat) s.
Proof. intros H; apply match_sep; auto. Qed.

Lemma match_re_packed w s :
  Re.match_ (re_packed w) s = packed_form false "month" Digit 2 "year" w s.
Proof. apply match_packed. Qed.

End ReFacts.

(* ================================================================== *)
(** * The function is the matcher followed by the reformatter *)

Module CmdFacts.
Import PyFacts NumFacts ReFacts.

(** [int()] raises nothing but [TypeError] and [ValueError]. *)
Lemma int_raises x e : int x = Raise e -> handles [TypeError; ValueError] e = true.
Proof.
  destruct x as [t|]; simpl; [ | intros H; inversion H; reflexivity].
  unfold int_str.
  destruct (match strip_of is_int_space t with [] => _ | _ => _ end) as [neg body].
  destruct (int_digits 0 false body); [discriminate | ].
  intros H; inversion H; reflexivity.
Qed.

Lemma printable_mod n : printable (n mod 100).
Proof.
  apply printable_small. pose proof (Z.mod_pos_bound n 100 ltac:(lia)). lia.
Qed.

(** An iteration either continues, or returns the rebuilt string, or
    raises because the new year cannot be written. *)
Lemma attempt_accepts p s k :
  attempt p s k
  = match accepts p s with
    | Some r =>
        if year_writable r k then Ok (Return (apply_offset r k))
        else Raise ValueError
    | None => Ok Continue
    end.
Proof.
  unfold attempt, accepts.
  destruct (Re.match_ (regex p) s) as [gd|]; [ | reflexivity].
  destruct (month_type p) eqn:T.
  - destruct (Re.get gd "month_text") as [[|c t]|]; try reflexivity.
    cbv beta iota zeta.
    destruct (dict_get MONTH_MAP (lower (c :: t))) as [m|]; [ | reflexivity].
    unfold finish, apply_offset, layout, year_field, month_field, capitalize,
      year_writable.
    destruct (int (Re.get gd "year")) as [y|e] eqn:E.
    + cbn [rule month month_text year]. cbv zeta. rewrite T. cbn [index0 firstn].
      rewrite (format_0d_printable 2 _ (printable_mod (y + k))).
      rewrite (format_0d_cases 4).
      destruct (year_length p =? 2); cbn [orb];
        [ | destruct (fits_digits (y + k)); [ | reflexivity]];
        destruct (separator p), (month_first p); reflexivity.
    + rewrite (int_raises _ _ E); reflexivity.
  - destruct (Re.get gd "month") as [[|c t]|]; try reflexivity.
    cbv beta iota zeta. unfold str.
    destruct (int (Some (c :: t))) as [m|e] eqn:M.
    + destruct ((m <? 1) || (m >? 12)) eqn:R.
      * destruct (int (Re.get gd "year")); reflexivity.
      * assert (Hm : printable m).
        { apply orb_false_iff in R as [R1 R2]. apply Z.ltb_ge in R1.
          rewrite Z.gtb_ltb in R2. apply Z.ltb_ge in R2.
          apply printable_small. lia. }
        unfold finish, apply_offset, layout, year_field, month_field,
          year_writable.
        destruct (int (Re.get gd "year")) as [y|e] eqn:E.
        -- cbn [rule month month_text year]. cbv zeta. rewrite T.
           rewrite (format_0d_printable 2 _ (printable_mod (y + k))).
           rewrite (format_0d_cases 4), (format_0d_printable 2 m Hm).
           destruct (year_length p =? 2); cbn [orb];
             [ | destruct (fits_digits (y + k)); [ | reflexivity]];
             destruct (separator p), (month_first p); reflexivity.
        -- rewrite (int_raises _ _ E); reflexivity.
    + rewrite (int_raises _ _ M); reflexivity.
Qed.

Lemma for_patterns_first ps s k :
  for_patterns ps s k
  = match first_accepting ps s with
    | Some r =>
        if year_writable r k then Ok (Some (apply_offset r k))
        else Raise ValueError
    | None => Ok None
    end.
Proof.
  induction ps as [|p ps IH]; simpl; [reflexivity | ].
  rewrite attempt_accepts. destruct (accepts p s) as [r|]; [ | exact IH].
  destruct (year_writable r k); reflexivity.
Qed.

Lemma calculate_loop x k :
  _calculate_new_expiry x k = for_patterns EXP_PATTERNS (strip x) k.
Proof.
  unfold _calculate_new_expiry.
  destruct x as [|c x]; [reflexivity | ].
  destruct (strip (c :: x)) as [|d t]; reflexivity.
Qed.


(** The loop falls through exactly when every iteration continues. *)
Lemma for_patterns_none ps s k :
  for_patterns ps s k = Ok None <->
  forall p, In p ps -> attempt p s k = Ok Continue.
Proof.
  induction ps as [|a ps IH]; simpl.
  - split; [intros _ p [] | reflexivity].
  - destruct (attempt a s k) as [[|z]|e] eqn:E.
    + rewrite IH; split; [intros H p [<- | Hp]; auto | auto].
    + split; [discriminate | intros H; specialize (H a (or_introl eq_refl)); congruence].
    + split; [discriminate | intros H; specialize (H a (or_introl eq_refl)); congruence].
Qed.

Lemma calculate_classify x k :
  _calculate_new_expiry x k
  = match classify x with
    | Some r =>
        if year_writable r k then Ok (Some (apply_offset r k))
        else Raise ValueError
    | None => Ok None
    end.
Proof.
  unfold _calculate_new_expiry, classify.
  destruct x as [|c x]; [reflexivity | ].
  destruct (strip (c :: x)) as [|d t]; [reflexivity | ].
  apply for_patterns_first.
Qed.

(** What a returned string tells. *)
Lemma calculate_returns x k y :
  _calculate_new_expiry x k = Ok (Some y) ->
  exists r, classify x = Some r /\ year_writable r k = true
            /\ y = apply_offset r k.
Proof.
  rewrite calculate_classify. destruct (classify x) as [r|]; [ | discriminate].
  destruct (year_writable r k) eqn:W; [ | discriminate].
  intros H. exists r. split; [reflexivity | ]. split; [exact W | ].
  inversion H; reflexivity.
Qed.

(** The string returned when the new year can be written. *)
Lemma calculate_writable x k r :
  classify x = Some r -> year_writable r k = true ->
  _calculate_new_expiry x k = Ok (Some (apply_offset r k)).
Proof. intros Hc Hw. rewrite calculate_classify, Hc, Hw. reflexivity. Qed.

Lemma calculate_unwritable x k r :
  classify x = Some r -> year_writable r k = false ->
  _calculate_new_expiry x k = Raise ValueError.
Proof. intros Hc Hw. rewrite calculate_classify, Hc, Hw. reflexivity. Qed.

Lemma calculate_unclassified x k :
  classify x = None -> _calculate_new_expiry x k = Ok None.
Proof. intros Hc. rewrite calculate_classify, Hc. reflexivity. Qed.

Lemma year_writable_two r k : year_length (rule r) = 2 -> year_writable r k = true.
Proof. intros H. unfold year_writable. rewrite H. reflexivity. Qed.

Lemma year_writable_printable r k :
  printable (year r + k) -> year_writable r k = true.
Proof.
  intros H. unfold year_writable.
  rewrite (proj2 (fits_digits_printable _) H). apply orb_true_r.
Qed.

Lemma year_writable_inv r k :
  year_writable r k = true -> year_length (rule r) <> 2 -> printable (year r + k).
Proof.
  unfold year_writable. intros H N. apply orb_true_iff in H as [H | H].
  - apply Z.eqb_eq in H. contradiction.
  - apply fits_digits_printable, H.
Qed.

End CmdFacts.

(* ================================================================== *)
(** * The grammar of the rules *)

Module MatchFacts.
Import PyFacts NumFacts ReFacts CmdFacts.

Lemma get_year_first (a b : str) (n : string) :
  Re.get [("year"%string, a); (n, b)] "year" = Some a.
Proof. reflexivity. Qed.

Lemma get_month_text (a b : str) :
  Re.get [("year"%string, a); ("month_text"%string, b)] "month_text" = Some b.
Proof. reflexivity. Qed.

Lemma get_month_second (a b : str) :
  Re.get [("year"%string, a); ("month"%string, b)] "month" = Some b.
Proof. reflexivity. Qed.

Lemma get_month_first (a b : str) :
  Re.get [("month"%string, a); ("year"%string, b)] "month" = Some a.
Proof. reflexivity. Qed.

Lemma get_year_second (a b : str) :
  Re.get [("month"%string, a); ("year"%string, b)] "year" = Some b.
Proof. reflexivity. Qed.

Lemma int_digits_str (s : str) :
  all_digits s = true -> (1 <= List.length s)%nat ->
  int (Some s) = Ok (digits_value s).
Proof.
  intros H L; simpl; apply int_str_digits; auto.
  intros ->; simpl in L; lia.
Qed.

Lemma exact_width w (b : str) :
  (w <= List.length b)%nat -> within (Some w) (List.length b) = true ->
  List.length b = w.
Proof. simpl; intros H1 H2; apply Nat.leb_le in H2; lia. Qed.

Section Families.

Variables (sep : ascii) (w : nat).
Hypothesis Hw : (1 <= w)%nat.

(** A textual rule takes [name SEP year] and nothing else. *)
Lemma accepts_text_sound yl s r :
  in_set true Alpha sep = false ->
  let p := {| regex := re_text sep w; year_length := yl; separator := [sep];
              month_first := true; month_type := text |} in
  yl = Z.of_nat w ->
  accepts p s = Some r ->
  exists mf yf e, s = layout p mf yf ++ e /\ at_end e = true
    /\ month_ok p mf (month r) /\ year_ok p yf /\ r = parsed_of p mf yf (month r).
Proof.
  intros Hsep p Hyl. unfold accepts. cbn [regex month_type p].
  rewrite match_re_text by exact Hsep.
  destruct (sep_form _ _ _ _ _ _ _ _ _ _ s) as [gd|] eqn:E; [ | discriminate].
  apply sep_form_sound in E
    as (a & b & e & -> & Ha & La & _ & Hb & Lb & Wb & He & ->).
  rewrite get_month_text, get_year_first.
  destruct a as [|c t]; [simpl in La; lia | ].
  destruct (dict_get MONTH_MAP (lower (c :: t))) as [m|] eqn:D; [ | discriminate].
  pose proof (exact_width _ _ Lb Wb) as Eb.
  rewrite int_digits_str by (auto; lia).
  intros H; inversion H; subst r; clear H.
  exists (c :: t), b, e. unfold layout, month_ok, year_ok, parsed_of.
  cbn [month_first separator month_type year_length p month].
  repeat split; auto; try discriminate; try lia.
  now rewrite <- !app_assoc.
Qed.

(** A numeric rule with the month first takes [month SEP year]. *)
Lemma accepts_month_year_sound yl s r :
  is_digit sep = false ->
  let p := {| regex := re_month_year sep w; year_length := yl; separator := [sep];
              month_first := true; month_type := numeric |} in
  yl = Z.of_nat w ->
  accepts p s = Some r ->
  exists mf yf e, s = layout p mf yf ++ e /\ at_end e = true
    /\ month_ok p mf (month r) /\ year_ok p yf /\ r = parsed_of p mf yf (month r).
Proof.
  intros Hsep p Hyl. unfold accepts. cbn [regex month_type p].
  rewrite match_re_month_year by exact Hsep.
  destruct (sep_form _ _ _ _ _ _ _ _ _ _ s) as [gd|] eqn:E; [ | discriminate].
  apply sep_form_sound in E
    as (a & b & e & -> & Ha & La & Wa & Hb & Lb & Wb & He & ->).
  rewrite get_month_second, get_year_first.
  destruct a as [|c t] eqn:Ea; [simpl in La; lia | ]. rewrite <- Ea in *.
  pose proof (exact_width _ _ Lb Wb) as Eb.
  simpl in Wa; apply Nat.leb_le in Wa.
  rewrite !int_digits_str by (auto; lia).
  destruct ((digits_value a <? 1) || (digits_value a >? 12)) eqn:R; [discriminate | ].
  intros H; inversion H; subst r; clear H.
  apply orb_false_iff in R as [R1 R2].
  apply Z.ltb_ge in R1. rewrite Z.gtb_ltb in R2. apply Z.ltb_ge in R2.
  exists a, b, e. unfold layout, month_ok, year_ok, parsed_of.
  cbn [month_first separator month_type year_length p month].
  repeat split; auto; try discriminate; try lia.
  now rewrite <- !app_assoc.
Qed.

(** A packed rule takes [MM] followed by the year. *)
Lemma accepts_packed_sound yl s r :
  let p := {| regex := re_packed w; year_length := yl; separator := [];
              month_first := true; month_type := numeric |} in
  yl = Z.of_nat w ->
  accepts p s = Some r ->
  exists mf yf e, s = layout p mf yf ++ e /\ at_end e = true
    /\ month_ok p mf (month r) /\ year_ok p yf /\ r = parsed_of p mf yf (month r).
Proof.
  intros p Hyl. unfold accepts. cbn [regex month_type p].
  rewrite match_re_packed.
  destruct (packed_form _ _ _ _ _ _ s) as [gd|] eqn:E; [ | discriminate].
  apply packed_form_sound in E
    as (a & b & e & -> & Ha & La & Hb & Lb & He & ->).
  rewrite get_month_second, get_year_first.
  destruct a as [|c t] eqn:Ea; [simpl in La; lia | ]. rewrite <- Ea in *.
  rewrite !int_digits_str by (auto; lia).
  destruct ((digits_value a <? 1) || (digits_value a >? 12)) eqn:R; [discriminate | ].
  intros H; inversion H; subst r; clear H.
  apply orb_false_iff in R as [R1 R2].
  apply Z.ltb_ge in R1. rewrite Z.gtb_ltb in R2. apply Z.ltb_ge in R2.
  exists a, b, e. unfold layout, month_ok, year_ok, parsed_of.
  cbn [month_first separator month_type year_length p month].
  repeat split; auto; try discriminate; try lia.
  now rewrite <- !app_assoc.
Qed.

End Families.

(** A year-first rule takes [YYYY SEP month]. *)
Lemma accepts_year_month_sound sep s r :
  is_digit sep = false ->
  let p := {| regex := re_year_month sep; year_length := 4; separator := [sep];
              month_first := false; month_type := numeric |} in
  accepts p s = Some r ->
  exists mf yf e, s = layout p mf yf ++ e /\ at_end e = true
    /\ month_ok p mf (month r) /\ year_ok p yf /\ r = parsed_of p mf yf (month r).
Proof.
  intros Hsep p. unfold accepts. cbn [regex month_type p].
  rewrite match_re_year_month by exact Hsep.
  destruct (sep_form _ _ _ _ _ _ _ _ _ _ s) as [gd|] eqn:E; [ | discriminate].
  apply sep_form_sound in E
    as (a & b & e & -> & Ha & La & Wa & Hb & Lb & Wb & He & ->).
  rewrite get_month_first, get_year_second.
  destruct b as [|c t] eqn:Eb; [simpl in Lb; lia | ]. rewrite <- Eb in *.
  pose proof (exact_width _ _ La Wa) as Ea.
  simpl in Wb; apply Nat.leb_le in Wb.
  rewrite !int_digits_str by (auto; lia).
  destruct ((digits_value b <? 1) || (digits_value b >? 12)) eqn:R; [discriminate | ].
  intros H; inversion H; subst r; clear H.
  apply orb_false_iff in R as [R1 R2].
  apply Z.ltb_ge in R1. rewrite Z.gtb_ltb in R2. apply Z.ltb_ge in R2.
  exists b, a, e. unfold layout, month_ok, year_ok, parsed_of.
  cbn [month_first separator month_type year_length p month].
  repeat split; auto; try discriminate; try lia.
  now rewrite <- !app_assoc.
Qed.

(** Every rule of [EXP_PATTERNS] takes exactly the strings of its layout,
    up to the final newline that [$] lets through. *)
Lemma accepts_sound p s r :
  In p EXP_PATTERNS -> accepts p s = Some r ->
  exists mf yf e, s = layout p mf yf ++ e /\ at_end e = true
    /\ month_ok p mf (month r) /\ year_ok p yf /\ r = parsed_of p mf yf (month r).
Proof.
  intros Hin. unfold EXP_PATTERNS in Hin. simpl in Hin.
  repeat (destruct Hin as [<- | Hin]);
    [ apply (accepts_text_sound "-" 2); auto; lia
    | apply (accepts_text_sound "-" 4); auto; lia
    | apply (accepts_text_sound "/" 2); auto; lia
    | apply (accepts_text_sound "/" 4); auto; lia
    | apply (accepts_month_year_sound "/" 2); auto; lia
    | apply (accepts_month_year_sound "-" 2); auto; lia
    | apply (accepts_month_year_sound "/" 4); auto; lia
    | apply (accepts_month_year_sound "-" 4); auto; lia
    | apply (accepts_year_month_sound "/"); auto
    | apply (accepts_year_month_sound "-"); auto
    | apply (accepts_packed_sound 2); auto; lia
    | apply (accepts_packed_sound 4); auto; lia
    | contradiction ].
Qed.

(** ** Conversely, a string laid out by a rule is taken by that rule and by
    no earlier one *)

Lemma accepts_no_match q s : Re.match_ (regex q) s = None -> accepts q s = None.
Proof. unfold accepts; intros ->; reflexivity. Qed.

Lemma first_accepting_skip q ps s :
  accepts q s = None -> first_accepting (q :: ps) s = first_accepting ps s.
Proof. simpl; intros ->; reflexivity. Qed.

Lemma first_accepting_hit q ps s r :
  accepts q s = Some r -> first_accepting (q :: ps) s = Some r.
Proof. simpl; intros ->; reflexivity. Qed.

Lemma stops_digits_alpha ic (a t : str) :
  a <> [] -> all_digits a = true -> stops (in_set ic Alpha) (a ++ t) = true.
Proof.
  destruct a as [|c a]; [contradiction | ]; intros _ H.
  apply andb_true_iff in H as [H _].
  change (negb (in_set ic Alpha c) = true).
  rewrite (digit_not_letter ic c H); reflexivity.
Qed.

Lemma stops_letters_digit ic (a t : str) :
  a <> [] -> all_letters a = true -> stops (in_set ic Digit) (a ++ t) = true.
Proof.
  destruct a as [|c a]; [contradiction | ]; intros _ H.
  apply andb_true_iff in H as [H _].
  change (negb (is_digit c) = true).
  rewrite (letter_not_digit true c H); reflexivity.
Qed.

Lemma nonempty_length (a : str) : (1 <= List.length a)%nat -> a <> [].
Proof. intros H ->; simpl in H; lia. Qed.

Ltac stops_tac :=
  first [ apply stops_digits_alpha; [apply nonempty_length; lia | assumption]
        | apply stops_letters_digit; assumption ].

Ltac regex_closed_form :=
  first [ rewrite match_re_text by reflexivity
        | rewrite match_re_month_year by reflexivity
        | rewrite match_re_year_month by reflexivity
        | rewrite match_re_packed ].

Ltac reject :=
  apply accepts_no_match; cbn [regex]; regex_closed_form;
  first
    [ apply sep_form_stops; [solve [stops_tac] | lia]
    | apply packed_form_stops; [solve [stops_tac] | lia]
    | apply sep_form_all;
      solve [rewrite forallb_app; apply andb_true_iff; split; assumption]
    | apply packed_form_on_sep; [reflexivity | discriminate]
    | rewrite sep_form_on_sep by (assumption || reflexivity);
      match goal with
      | L : List.length _ = _ |- _ => rewrite ?L
      end;
      repeat match goal with
      | L : List.length ?x = _ |- context [List.length ?x] => rewrite L
      end;
      solve [reflexivity | destruct (1 <=? _)%nat; reflexivity]
    | rewrite packed_form_all by assumption;
      repeat match goal with
      | L : List.length ?x = _ |- context [List.length ?x] => rewrite L
      end;
      reflexivity ].

Lemma first_accepting_layout p mf yf m :
  In p EXP_PATTERNS -> month_ok p mf m -> year_ok p yf ->
  first_accepting EXP_PATTERNS (layout p mf yf) = Some (parsed_of p mf yf m).
Proof.
  intros Hin Hm [Hy Ly]. unfold EXP_PATTERNS in Hin. simpl in Hin.
  repeat (destruct Hin as [<- | Hin]); try contradiction;
    unfold month_ok in Hm; cbn [month_type separator year_length] in Hm, Ly;
    unfold layout; cbn [month_first separator lit list_ascii_of_string app].
  1-4: destruct Hm as (Hne & Hl & Hd).
  5-12: destruct Hm as (Hd & Lm & Lp & Hv & Hr).
  all: unfold EXP_PATTERNS.
  all: apply (f_equal Z.to_nat) in Ly; rewrite Nat2Z.id in Ly; simpl in Ly.
  5-10: assert (Lm' : List.length mf = 1%nat \/ List.length mf = 2%nat) by lia;
        clear Lp; destruct Lm' as [Lm' | Lm'].
  17-18: specialize (Lp eq_refl).
  all: repeat (rewrite first_accepting_skip by reject).
  all: apply first_accepting_hit; unfold accepts; cbn [regex month_type];
       regex_closed_form;
       first [ rewrite sep_form_on_sep by (assumption || reflexivity)
             | rewrite packed_form_all by assumption ];
       repeat match goal with
       | L : List.length ?x = _ |- context [List.length ?x] => rewrite L
       end.
  1-4: replace (1 <=? List.length mf)%nat with true
         by (symmetry; apply Nat.leb_le; destruct mf; [contradiction | simpl; lia]).
  all: match goal with
       | |- context [if ?c then Some _ else None] =>
           replace c with true by reflexivity
       end;
       rewrite ?get_month_text, ?get_year_first, ?get_month_second,
         ?get_month_first, ?get_year_second.
  1-4: destruct mf as [|c t]; [contradiction | ]; cbv beta iota;
       rewrite Hd, int_digits_str by (auto; lia); reflexivity.
  all: destruct mf as [|c t] eqn:Emf; [simpl in *; lia | ]; cbv beta iota;
       rewrite <- Emf in *;
       rewrite !int_digits_str by (auto; lia); rewrite Hv;
       replace ((m <? 1) || (m >? 12)) with false
         by (symmetry; apply orb_false_iff; split;
             [apply Z.ltb_ge | rewrite Z.gtb_ltb; apply Z.ltb_ge]; lia);
       subst m; reflexivity.
Qed.

(** ** [classify] on stripped input *)

Lemma first_accepting_sound ps s r :
  first_accepting ps s = Some r -> exists p, In p ps /\ accepts p s = Some r.
Proof.
  induction ps as [|q ps IH]; simpl; [discriminate | ].
  destruct (accepts q s) as [r'|] eqn:E.
  - intros H; inversion H; subst; eauto.
  - intros H; destruct (IH H) as (p & Hp & Ha); eauto.
Qed.

Lemma first_accepting_none ps s :
  first_accepting ps s = None <-> forall p, In p ps -> accepts p s = None.
Proof.
  induction ps as [|q ps IH]; simpl.
  - split; [intros _ p [] | reflexivity].
  - destruct (accepts q s) as [r|] eqn:E.
    + split; [discriminate | intros H; rewrite (H q) in E; auto].
    + rewrite IH; split; [intros H p [<- | Hp]; auto | auto].
Qed.

(** What [classify] returns describes the stripped input exactly. *)
Lemma classify_sound x r :
  classify x = Some r ->
  In (rule r) EXP_PATTERNS
  /\ exists mf yf,
       strip x = layout (rule r) mf yf
       /\ month_ok (rule r) mf (month r) /\ year_ok (rule r) yf
       /\ r = parsed_of (rule r) mf yf (month r).
Proof.
  unfold classify; intros H.
  apply first_accepting_sound in H as (p & Hp & Ha).
  destruct (accepts_sound p _ r Hp Ha) as (mf & yf & e & Es & He & Hm & Hy & Er).
  assert (Ep : rule r = p) by (rewrite Er; reflexivity).
  rewrite Ep. split; [exact Hp | ].
  exists mf, yf. repeat split; auto; try apply Hy.
  apply at_end_inv in He as [-> | ->]; [rewrite app_nil_r in Es; exact Es | ].
  apply strip_last in Es; discriminate.
Qed.

Lemma all_letters_no_space s : all_letters s = true -> no_space s = true.
Proof.
  unfold all_letters, no_space; induction s as [|c s IH]; simpl; [reflexivity | ].
  rewrite !andb_true_iff; intros [Hc Hs].
  rewrite (letter_not_space true c Hc); auto.
Qed.

Lemma no_space_app s t : no_space (s ++ t) = no_space s && no_space t.
Proof. apply forallb_app. Qed.

Lemma month_ok_no_space p mf m : month_ok p mf m -> no_space mf = true.
Proof.
  unfold month_ok; destruct (month_type p).
  - intros (_ & H & _); apply all_letters_no_space; exact H.
  - intros (H & _); apply all_digits_no_space; exact H.
Qed.

Lemma separator_no_space p : In p EXP_PATTERNS -> no_space (separator p) = true.
Proof.
  intros Hin; unfold EXP_PATTERNS in Hin; simpl in Hin.
  repeat (destruct Hin as [<- | Hin]); try contradiction; reflexivity.
Qed.

Lemma layout_no_space p mf yf m :
  In p EXP_PATTERNS -> month_ok p mf m -> year_ok p yf ->
  no_space (layout p mf yf) = true.
Proof.
  intros Hin Hm [Hy _]. unfold layout.
  pose proof (month_ok_no_space _ _ _ Hm) as A.
  pose proof (all_digits_no_space _ Hy) as B.
  pose proof (separator_no_space _ Hin) as C.
  destruct (month_first p); rewrite !no_space_app, A, B, C; reflexivity.
Qed.

(** A string laid out by a rule is classified under that rule. *)
Lemma classify_layout p mf yf m :
  In p EXP_PATTERNS -> month_ok p mf m -> year_ok p yf ->
  classify (layout p mf yf) = Some (parsed_of p mf yf m).
Proof.
  intros Hin Hm Hy. unfold classify.
  rewrite strip_no_space by (eapply layout_no_space; eauto).
  apply first_accepting_layout; auto.
Qed.

Lemma year_length_cases p :
  In p EXP_PATTERNS -> year_length p = 2 \/ year_length p = 4.
Proof.
  intros Hin; unfold EXP_PATTERNS in Hin; simpl in Hin.
  repeat (destruct Hin as [<- | Hin]); try contradiction; auto.
Qed.

(** ** Capitalisation *)

Lemma lower_idem t : lower (lower t) = lower t.
Proof.
  unfold lower; rewrite map_map; apply map_ext; intros; apply lower_char_idem.
Qed.

Lemma all_letters_lower t : all_letters (lower t) = all_letters t.
Proof.
  unfold all_letters, lower; induction t as [|c t IH]; simpl; [reflexivity | ].
  rewrite <- IH. f_equal. apply (letter_lower c).
Qed.

Lemma capitalize_cons c t : capitalize (c :: t) = upper_char c :: lower t.
Proof. reflexivity. Qed.

Lemma lower_capitalize t : lower (capitalize t) = lower t.
Proof.
  destruct t as [|c t]; [reflexivity | ].
  rewrite capitalize_cons; simpl. rewrite lower_upper_char.
  fold (lower (lower t)); rewrite lower_idem; reflexivity.
Qed.

Lemma capitalize_idem t : capitalize (capitalize t) = capitalize t.
Proof.
  destruct t as [|c t]; [reflexivity | ].
  rewrite !capitalize_cons, upper_char_idem, lower_idem; reflexivity.
Qed.

Lemma all_letters_capitalize t : all_letters (capitalize t) = all_letters t.
Proof.
  destruct t as [|c t]; [reflexivity | ].
  rewrite capitalize_cons. unfold all_letters at 1 2; simpl.
  fold (all_letters (lower t)) (all_letters t).
  rewrite all_letters_lower. f_equal. apply (letter_upper c).
Qed.

Lemma month_ok_canonical p mf m :
  month_type p = text -> month_ok p mf m -> month_ok p (capitalize mf) m.
Proof.
  unfold month_ok; intros ->. intros (Hne & Hl & Hd). repeat split.
  - destruct mf; [contradiction | discriminate].
  - rewrite all_letters_capitalize; exact Hl.
  - rewrite lower_capitalize; exact Hd.
Qed.

Lemma month_ok_padded p mf m :
  month_type p = numeric -> month_ok p mf m -> month_ok p (zero_padded 2 m) m.
Proof.
  unfold month_ok; intros ->. intros (_ & _ & _ & _ & Hr).
  destruct (zero_padded_fits 2 m ltac:(lia) ltac:(simpl; lia)) as (A & B & C).
  repeat split; auto; lia.
Qed.

(** The month field of the output is again a month field of the rule. *)
Lemma month_field_ok p mf yf m :
  month_ok p mf m -> month_ok p (month_field (parsed_of p mf yf m)) m.
Proof.
  intros H. unfold month_field, parsed_of; cbn [month_text month].
  destruct (month_type p) eqn:T;
    [apply month_ok_canonical | eapply month_ok_padded]; eauto.
Qed.

(** The year field of the output is a year field of the rule when the new
    year fits the rule's width. *)
Lemma year_field_ok p n :
  In p EXP_PATTERNS ->
  (year_length p = 4 -> 0 <= n <= 9999) ->
  year_ok p (year_field p n)
  /\ digits_value (year_field p n) = (if year_length p =? 2 then n mod 100 else n).
Proof.
  intros Hin Hfit. unfold year_ok, year_field.
  destruct (year_length_cases p Hin) as [E | E]; rewrite E in *; simpl.
  - pose proof (Z.mod_pos_bound n 100 ltac:(lia)).
    destruct (zero_padded_fits 2 (n mod 100) ltac:(lia) ltac:(simpl; lia)) as (A & B & C).
    rewrite B; auto.
  - destruct (zero_padded_fits 4 n ltac:(lia) ltac:(simpl; lia)) as (A & B & C).
    rewrite B; auto.
Qed.

Lemma all_letters_lower_case t :
  all_letters t = true -> forallb is_lower (lower t) = true.
Proof.
  unfold all_letters; induction t as [|c t IH]; simpl; [reflexivity | ].
  intros H; apply andb_true_iff in H as [Hc Ht].
  rewrite (letter_lower_is_lower c Hc), IH; auto.
Qed.

Lemma layout_differs_only_in_year p mf yf yf' :
  all_digits yf = true -> all_digits yf' = true ->
  List.length yf = List.length yf' ->
  differs_only_in_year (layout p mf yf) (layout p mf yf').
Proof.
  intros H H' L. unfold layout, differs_only_in_year.
  destruct (month_first p).
  - exists (mf ++ separator p), yf, yf', [].
    rewrite !app_nil_r, <- !app_assoc. auto.
  - exists [], yf, yf', (separator p ++ mf). auto.
Qed.

(** ** When the new year can be written *)

Lemma printable_fits n : 0 <= n <= 9999 -> printable n.
Proof. intros H. apply printable_small. lia. Qed.

Lemma year_writable_reach r k :
  In (rule r) EXP_PATTERNS ->
  (year_length (rule r) = 4 -> printable (year r + k)) ->
  year_writable r k = true.
Proof.
  intros Hin H. destruct (year_length_cases _ Hin) as [E | E].
  - apply year_writable_two, E.
  - apply year_writable_printable, H, E.
Qed.

Lemma year_writable_fits r k :
  In (rule r) EXP_PATTERNS ->
  (year_length (rule r) = 4 -> 0 <= year r + k <= 9999) ->
  year_writable r k = true.
Proof.
  intros Hin H. apply year_writable_reach; [exact Hin | ].
  intros E. apply printable_fits, H, E.
Qed.


Lemma year_unwritable r k :
  year_length (rule r) <> 2 -> ~ printable (year r + k) ->
  year_writable r k = false.
Proof.
  intros N P. destruct (year_writable r k) eqn:E; [ | reflexivity].
  elim P. exact (year_writable_inv r k E N).
Qed.

Lemma classify_writable x r k :
  classify x = Some r ->
  (year_length (rule r) = 4 -> printable (year r + k)) ->
  year_writable r k = true.
Proof.
  intros Hc H. apply year_writable_reach; [ | exact H].
  apply (classify_sound x r Hc).
Qed.

Lemma classify_fits x r k :
  classify x = Some r ->
  (year_length (rule r) = 4 -> 0 <= year r + k <= 9999) ->
  year_writable r k = true.
Proof.
  intros Hc H. apply year_writable_fits; [ | exact H].
  apply (classify_sound x r Hc).
Qed.

(** The year that a rule reads lies in 0..9999. *)
Lemma classify_year_range x r :
  classify x = Some r -> 0 <= year r <= 9999.
Proof.
  intros Hc.
  destruct (classify_sound x r Hc) as (Hin & mf & yf & _ & _ & (Hd & Hl) & Er).
  rewrite Er. cbn [parsed_of year].
  pose proof (digits_value_upper yf Hd) as U.
  assert (10 ^ Z.of_nat (List.length yf) <= 10 ^ 4).
  { apply Z.pow_le_mono_r; [lia | ].
    destruct (year_length_cases _ Hin) as [E | E]; lia. }
  lia.
Qed.

(** An offset from 0 to 9999 is far from the limit. *)
Lemma year_writable_modest x r k :
  classify x = Some r -> 0 <= k < 10 ^ 4 -> year_writable r k = true.
Proof.
  intros Hc Hk. apply year_writable_printable.
  pose proof (classify_year_range x r Hc) as R.
  unfold printable. apply Z.lt_le_trans with (10 ^ 5); [lia | ].
  apply Z.pow_le_mono_r; [lia | ]. unfold int_max_str_digits. lia.
Qed.

Lemma calculate_modest x k :
  0 <= k < 10 ^ 4 ->
  _calculate_new_expiry x k
  = match classify x with
    | Some r => Ok (Some (apply_offset r k))
    | None => Ok None
    end.
Proof.
  intros Hk. rewrite calculate_classify.
  destruct (classify x) as [r|] eqn:Hc; [ | reflexivity].
  rewrite (year_writable_modest x r k Hc Hk). reflexivity.
Qed.

(** Integers at or beyond the power of ten of the limit are not written. *)
Lemma unprintable n : 10 ^ int_max_str_digits <= Z.abs n -> ~ printable n.
Proof. unfold printable. lia. Qed.

Lemma unprintable_above n : 0 <= n -> ~ printable (n + 10 ^ int_max_str_digits).
Proof.
  intros H. apply unprintable.
  pose proof (Z.pow_pos_nonneg 10 int_max_str_digits ltac:(lia)
                ltac:(pose proof int_max_str_digits_pos; lia)) as P.
  revert P. generalize (10 ^ int_max_str_digits). intros L P. lia.
Qed.


End MatchFacts.

(* ================================================================== *)
(** * The properties of the specification *)

Import PyFacts NumFacts ReFacts CmdFacts MatchFacts.

(** C1.  When the input is taken by a rule whose year width is 2, the output
    is the rule's layout of the month field and of the year
    [(matched year + offset) mod 100] written with exactly two digits, for
    every integer offset. *)
Theorem C1_two_digit_year_wraps :
  forall (x : str) (k : Z) (r : parsed),
    classify x = Some r -> year_length (rule r) = 2 ->
    let yy := zero_padded 2 ((year r + k) mod 100) in
    _calculate_new_expiry x k = Ok (Some (layout (rule r) (month_field r) yy))
    /\ all_digits yy = true /\ List.length yy = 2%nat
    /\ digits_value yy = (year r + k) mod 100.
Proof.
  intros x k r Hc Hy yy.
  rewrite (calculate_writable x k r Hc (year_writable_two r k Hy)).
  unfold apply_offset, year_field; rewrite Hy; simpl (2 =? 2).
  split; [reflexivity | ].
  pose proof (Z.mod_pos_bound (year r + k) 100 ltac:(lia)).
  apply zero_padded_fits; simpl; lia.
Qed.

(** ["Dec-99"] with offset +3 gives ["Dec-02"]. *)
Lemma C1_witness :
  _calculate_new_expiry (lit "Dec-99") 3 = Ok (Some (lit "Dec-02")).
Proof.
  exact (proj1 (C1_two_digit_year_wraps (lit "Dec-99") 3
    {| rule := {| regex := re_text "-" 2; year_length := 2; separator := lit "-";
                  month_first := true; month_type := text |};
       month := 12; month_text := Some (lit "Dec"); year := 99 |}
    eq_refl eq_refl)).
Defined.

(** C5 as the specification states it fails: an offset that takes a
    four-digit year to an integer of more than 4300 digits makes line 372
    raise, and a negative new year is written with a sign and three digits. *)
Lemma C5_counterexample :
  _calculate_new_expiry (lit "August-2029") (10 ^ 4300) = Raise ValueError
  /\ _calculate_new_expiry (lit "12/0001") (-2) = Ok (Some (lit "12/-001")).
Proof.
  split; [ | reflexivity].
  apply (calculate_unwritable (lit "August-2029") (10 ^ 4300)
    {| rule := {| regex := re_text "-" 4; year_length := 4; separator := lit "-";
                  month_first := true; month_type := text |};
       month := 8; month_text := Some (lit "August"); year := 2029 |}).
  - reflexivity.
  - apply year_unwritable; [discriminate | ].
    exact (unprintable_above 2029 ltac:(lia)).
Qed.

(** C5, amended.  When the input is taken by a rule whose year width is 4
    and [matched year + offset] has at most 4300 digits, the output is the
    rule's layout of the month field and of [matched year + offset] written
    by [04d]: read back as exactly [matched year + offset] (nothing is
    reduced modulo anything); exactly four digits when the sum lies in
    0..9999; all the digits of the sum, more than four, when it is above;
    a minus sign and the zero-padded digits of its absolute value, three
    when it is -999 or above and more below, when it is negative. *)
Theorem C5_four_digit_year_no_wrap :
  forall (x : str) (k : Z) (r : parsed),
    classify x = Some r -> year_length (rule r) = 4 ->
    printable (year r + k) ->
    let n := year r + k in
    let yyyy := zero_padded 4 n in
    _calculate_new_expiry x k = Ok (Some (layout (rule r) (month_field r) yyyy))
    /\ int (Some yyyy) = Ok n
    /\ (4 <= List.length yyyy)%nat
    /\ (0 <= n <= 9999 ->
        all_digits yyyy = true /\ List.length yyyy = 4%nat
        /\ digits_value yyyy = n)
    /\ (9999 < n ->
        all_digits yyyy = true /\ (4 < List.length yyyy)%nat
        /\ digits_value yyyy = n)
    /\ (n < 0 ->
        exists d, yyyy = "-"%char :: d
          /\ all_digits d = true /\ digits_value d = - n
          /\ (3 <= List.length d)%nat
          /\ (-999 <= n -> List.length d = 3%nat)).
Proof.
  intros x k r Hc Hy Hp n yyyy.
  rewrite (calculate_writable x k r Hc (year_writable_printable r k Hp)).
  unfold apply_offset, year_field; rewrite Hy; simpl (4 =? 2).
  split; [reflexivity | ]. split; [apply int_zero_padded | ].
  split; [apply zero_padded_min_width | ]. split; [ | split].
  - intros Hn. apply zero_padded_fits; simpl; lia.
  - intros Hn.
    destruct (zero_padded_large 4 n ltac:(lia) ltac:(simpl; lia)) as (A & B & C).
    auto.
  - intros Hn.
    destruct (zero_padded_negative 4 n Hn) as (d & E & A & B & C & D).
    exists d. split; [exact E | ]. split; [exact A | ]. split; [exact B | ].
    split; [simpl in C; lia | ].
    intros Hm. rewrite D; [reflexivity | lia | simpl; lia].
Qed.

(** ["August-2029"] with offset +3 gives ["August-2032"]. *)
Lemma C5_witness :
  _calculate_new_expiry (lit "August-2029") 3 = Ok (Some (lit "August-2032")).
Proof.
  exact (proj1 (C5_four_digit_year_no_wrap (lit "August-2029") 3
    {| rule := {| regex := re_text "-" 4; year_length := 4; separator := lit "-";
                  month_first := true; month_type := text |};
       month := 8; month_text := Some (lit "August"); year := 2029 |}
    eq_refl eq_refl (printable_fits (2029 + 3) ltac:(lia)))).
Defined.







(** C6.  When the pattern of a numeric rule matches but the month it
    captured is an integer outside 1..12, the iteration continues: the rule
    counts as not matching and the loop goes on with the rules after it. *)
Theorem C6_month_out_of_range_continues :
  forall (p : pattern) (rest : list pattern) (s : str) (k : Z)
         (gd : groupdict) (month_str : str) (m : Z),
    month_type p = numeric ->
    Re.match_ (regex p) s = Some gd ->
    Re.get gd "month" = Some month_str ->
    int (Some month_str) = Ok m ->
    m < 1 \/ 12 < m ->
    attempt p s k = Ok Continue
    /\ for_patterns (p :: rest) s k = for_patterns rest s k.
Proof.
  intros p rest s k gd ms m Ht Hm Hg Hi Hr.
  assert (A : attempt p s k = Ok Continue).
  { unfold attempt. rewrite Hm, Ht, Hg.
    destruct ms as [|c t]; [reflexivity | ].
    cbv beta iota zeta. unfold str in *. rewrite Hi.
    replace ((m <? 1) || (m >? 12)) with true; [reflexivity | ].
    symmetry; apply orb_true_iff. rewrite Z.gtb_ltb, !Z.ltb_lt. exact Hr. }
  split; [exact A | ]. simpl. rewrite A. reflexivity.
Qed.

(** ["13/25"] has the shape of the MM/YY rule, whose pattern matches it with
    month 13; the rule is passed over and the result is [None]. *)
Lemma C6_witness :
  Re.match_ (re_month_year "/" 2) (lit "13/25")
    = Some [("year"%string, lit "25"); ("month"%string, lit "13")]
  /\ attempt {| regex := re_month_year "/" 2; year_length := 2;
               separator := lit "/"; month_first := true;
               month_type := numeric |} (lit "13/25") 3 = Ok Continue
  /\ _calculate_new_expiry (lit "13/25") 3 = Ok None.
Proof.
  split; [reflexivity | ]. split; [ | reflexivity].
  exact (proj1 (C6_month_out_of_range_continues
    {| regex := re_month_year "/" 2; year_length := 2; separator := lit "/";
       month_first := true; month_type := numeric |}
    [] (lit "13/25") 3
    [("year"%string, lit "25"); ("month"%string, lit "13")] (lit "13") 13
    eq_refl eq_refl eq_refl eq_refl (or_intror eq_refl))).
Defined.



(** C4.  The month of a matched input is kept and written again in the
    rule's own style: the input's month field [mf] and the output's month
    field stand for the same month; a numeric month is written as two zero-
    padded digits; a month name is written with its first letter in upper
    case and the others in lower case, whatever the case of the input.  The
    output is the rule's layout of that month field and a year field: it is
    returned whenever the new year can be written (always under a two-digit
    rule, up to 4300 digits under a four-digit rule), and whatever string is
    returned has that form. *)
Theorem C4_month_rerendered :
  forall (x : str) (k : Z) (r : parsed),
    classify x = Some r ->
    exists mf yf,
      strip x = layout (rule r) mf yf
      /\ ((year_length (rule r) = 4 -> printable (year r + k)) ->
          exists yf', _calculate_new_expiry x k
                      = Ok (Some (layout (rule r) (month_field r) yf')))
      /\ (forall y, _calculate_new_expiry x k = Ok (Some y) ->
          exists yf', y = layout (rule r) (month_field r) yf')
      /\ match month_type (rule r) with
         | numeric =>
             int (Some mf) = Ok (month r)
             /\ month_field r = zero_padded 2 (month r)
             /\ all_digits (month_field r) = true
             /\ List.length (month_field r) = 2%nat
             /\ int (Some (month_field r)) = Ok (month r)
         | text =>
             dict_get MONTH_MAP (lower mf) = Some (month r)
             /\ (exists c t, mf = c :: t
                   /\ month_field r = upper_char c :: lower t
                   /\ is_upper (upper_char c) = true
                   /\ forallb is_lower (lower t) = true)
             /\ dict_get MONTH_MAP (lower (month_field r)) = Some (month r)
         end.
Proof.
  intros x k r Hc.
  destruct (classify_sound x r Hc) as (Hin & mf & yf & Es & Hm & Hy & Er).
  exists mf, yf.
  split; [exact Es | ].
  split.
  { intros Hp. exists (year_field (rule r) (year r + k)).
    exact (calculate_writable x k r Hc (classify_writable x r k Hc Hp)). }
  split.
  { intros y H. destruct (calculate_returns x k y H) as (r' & Hc' & _ & ->).
    assert (r' = r) by congruence. subst r'.
    exists (year_field (rule r) (year r + k)). reflexivity. }
  assert (Et : month_text r
               = match month_type (rule r) with text => Some mf | numeric => None end)
    by (rewrite Er at 1; reflexivity).
  unfold month_field; rewrite Et. unfold month_ok in Hm.
  destruct (month_type (rule r)).
  - destruct Hm as (Hne & Hl & Hd).
    split; [exact Hd | ]. split; [ | rewrite lower_capitalize; exact Hd].
    destruct mf as [|c t]; [contradiction | ]. exists c, t.
    unfold all_letters in Hl; simpl in Hl. apply andb_true_iff in Hl as [Hc' Ht].
    repeat split; auto using letter_upper_is_upper, all_letters_lower_case.
  - destruct Hm as (Hd & Lm & _ & Hv & Hr).
    destruct (zero_padded_fits 2 (month r) ltac:(lia) ltac:(simpl; lia)) as (A & B & C).
    repeat split; auto.
    + rewrite int_digits_str by (auto; lia). rewrite Hv; reflexivity.
    + simpl. apply int_zero_padded.
Qed.

(** ["AUGUST/29"] gives a string that begins with ["August/"], and
    ["Aug-29"] with offset +3 gives ["Aug-32"]. *)
Lemma C4_witness :
  (exists rest, _calculate_new_expiry (lit "AUGUST/29") 3
                = Ok (Some (lit "August/" ++ rest)))
  /\ _calculate_new_expiry (lit "Aug-29") 3 = Ok (Some (lit "Aug-32")).
Proof.
  split; [ | reflexivity].
  destruct (C4_month_rerendered (lit "AUGUST/29") 3
    {| rule := {| regex := re_text "/" 2; year_length := 2; separator := lit "/";
                  month_first := true; month_type := text |};
       month := 8; month_text := Some (lit "AUGUST"); year := 29 |} eq_refl)
    as (mf & yf & _ & Ho & _).
  apply Ho. intros H; discriminate H.
Defined.

(** C7.  For an empty input, an input of white space only, an input that no
    pattern matches once stripped, an input that no rule takes, and an input
    of the shape name-separator-digits whose name is not a key of
    [MONTH_MAP] once put in lower case, the function returns [None] and
    raises nothing. *)
Theorem C7_unparseable_gives_None :
  forall (x : str) (k : Z),
    x = []
    \/ forallb is_space x = true
    \/ (forall p, In p EXP_PATTERNS -> Re.match_ (regex p) (strip x) = None)
    \/ classify x = None
    \/ (exists name sep digits,
          strip x = name ++ sep :: digits
          /\ name <> [] /\ all_letters name = true
          /\ (sep = "-"%char \/ sep = "/"%char)
          /\ all_digits digits = true
          /\ dict_get MONTH_MAP (lower name) = None) ->
    _calculate_new_expiry x k = Ok None.
Proof.
  intros x k
    [-> | [Hs | [Hn | [Hc | (name & sep & ds & Es & Hne & Hl & Hsep & Hd & Hnone)]]]].
  - reflexivity.
  - rewrite calculate_loop, (strip_spaces x Hs). reflexivity.
  - rewrite calculate_loop. apply for_patterns_none. intros p Hp.
    unfold attempt. rewrite (Hn p Hp). reflexivity.
  - rewrite calculate_classify, Hc. reflexivity.
  - rewrite calculate_classify.
    replace (classify x) with (@None parsed); [reflexivity | ].
    symmetry. unfold classify. rewrite Es.
    apply first_accepting_none. intros p Hin.
    unfold EXP_PATTERNS in Hin; simpl in Hin.
    repeat (destruct Hin as [<- | Hin]); try contradiction.
    5-12: reject.
    all: unfold accepts; cbn [regex month_type];
      rewrite match_re_text by reflexivity;
      rewrite sep_form_on_sep
        by (try assumption; destruct Hsep as [-> | ->]; reflexivity);
      match goal with |- context [if ?c then _ else _] => destruct c end;
      [ | reflexivity];
      rewrite get_month_text;
      (destruct name as [|c t]; [contradiction | ]);
      cbv beta iota; rewrite Hnone; reflexivity.
Qed.

(** ["Foo-29"] has the shape of rule 1 but [foo] is no month. *)
Lemma C7_witness : _calculate_new_expiry (lit "Foo-29") 3 = Ok None.
Proof.
  apply C7_unparseable_gives_None. right. right. right. right.
  exists (lit "Foo"), "-"%char, (lit "29").
  repeat split; try reflexivity; [discriminate | left; reflexivity].
Defined.

(** C8 as the specification states it fails: a four-digit year that the
    offset takes past 9999 is written with five digits, which no pattern
    takes. *)
Lemma C8_counterexample :
  _calculate_new_expiry (lit "12/9999") 1 = Ok (Some (lit "12/10000"))
  /\ _calculate_new_expiry (lit "12/10000") 0 = Ok None.
Proof. split; reflexivity. Qed.

(** C8, amended.  If the transform of [x] with offset [k] gives [y] and,
    when the matched rule has a four-digit year, the new year lies in
    0..9999, then the transform of [y] with offset 0 gives [y] itself. *)
Theorem C8_idempotent_when_year_fits :
  forall (x : str) (k : Z) (y : str),
    _calculate_new_expiry x k = Ok (Some y) ->
    (forall r, classify x = Some r -> year_length (rule r) = 4 ->
               0 <= year r + k <= 9999) ->
    _calculate_new_expiry y 0 = Ok (Some y).
Proof.
  intros x k y H Hfit.
  destruct (calculate_returns x k y H) as (r & Hc & _ & ->). clear H.
  destruct (classify_sound x r Hc) as (Hin & mf & yf & Es & Hm & Hy & Er).
  specialize (Hfit r Hc).
  pose proof (month_field_ok _ mf yf _ Hm) as Hm'. rewrite <- Er in Hm'.
  destruct (year_field_ok _ (year r + k) Hin Hfit) as (Hy' & Hv').
  unfold apply_offset at 1 2.
  rewrite (calculate_writable _ 0 _ (classify_layout _ _ _ _ Hin Hm' Hy')).
  2:{ apply year_writable_fits; [exact Hin | ]. intros _.
      cbn [parsed_of year]. destruct Hy' as (Hd' & Hl').
      pose proof (digits_value_upper _ Hd') as U.
      assert (10 ^ Z.of_nat (List.length (year_field (rule r) (year r + k)))
              <= 10 ^ 4).
      { apply Z.pow_le_mono_r; [lia | ].
        destruct (year_length_cases _ Hin) as [E | E]; lia. }
      lia. }
  do 2 f_equal. unfold apply_offset. cbn [rule year parsed_of]. f_equal.
  - unfold month_field at 1. cbn [parsed_of month_text month].
    unfold month_field. rewrite Er at 2 3. cbn [parsed_of month_text month].
    destruct (month_type (rule r)); [apply capitalize_idem | reflexivity].
  - rewrite Hv'. unfold year_field.
    destruct (year_length (rule r) =? 2).
    + rewrite Z.add_0_r, Z.mod_mod by lia. reflexivity.
    + rewrite Z.add_0_r. reflexivity.
Qed.

(** ["sEpT-05"] with offset +3 gives ["Sept-08"], which offset 0 leaves as
    it is. *)
Lemma C8_witness :
  _calculate_new_expiry (lit "sEpT-05") 3 = Ok (Some (lit "Sept-08"))
  /\ _calculate_new_expiry (lit "Sept-08") 0 = Ok (Some (lit "Sept-08")).
Proof.
  split; [reflexivity | ].
  apply (C8_idempotent_when_year_fits (lit "sEpT-05") 3 (lit "Sept-08") eq_refl).
  intros r Hr Hy. inversion Hr; subst r. discriminate Hy.
Defined.

(** C2 as the specification states it fails.  The month is written again in
    the rule's canonical style, so an input whose month has one digit comes
    back with a two-digit month; and a four-digit year that the offset takes
    past 9999 comes back with five digits.  In both cases the output differs
    from the input outside a year field of unchanged width. *)
Lemma C2_counterexample :
  (classify (lit "8/29") <> None
   /\ _calculate_new_expiry (lit "8/29") 3 = Ok (Some (lit "08/32"))
   /\ ~ differs_only_in_year (lit "8/29") (lit "08/32"))
  /\ (classify (lit "12/9999") <> None
      /\ _calculate_new_expiry (lit "12/9999") 1 = Ok (Some (lit "12/10000"))
      /\ ~ differs_only_in_year (lit "12/9999") (lit "12/10000")).
Proof.
  split; (split; [discriminate | ]; split; [reflexivity | ]);
    intros (pre & yin & yout & post & Ex & Ey & _ & _ & L);
    apply (f_equal (@List.length ascii)) in Ex, Ey;
    rewrite !length_app in Ex, Ey; simpl in Ex, Ey; lia.
Qed.

(** C2, amended.  For every input that a rule takes, and every offset that
    keeps a four-digit year within 0..9999, the output is laid out by the
    same rule as the stripped input: the rule's separator and field order, a
    year field of the rule's width and a month field of the rule's kind for
    the same month, so that the output is classified under the same rule.
    The month field is the canonical one (two zero-padded digits, or first
    letter upper case and the rest lower case); when the input's month field
    is already the canonical one, the output differs from the stripped input
    in the year field only. *)
Theorem C2_output_keeps_rule_layout :
  forall (x : str) (k : Z) (r : parsed),
    classify x = Some r ->
    (year_length (rule r) = 4 -> 0 <= year r + k <= 9999) ->
    exists mf yf,
      strip x = layout (rule r) mf yf
      /\ month_ok (rule r) mf (month r) /\ year_ok (rule r) yf
      /\ let mf' := month_field r in
         let yf' := year_field (rule r) (year r + k) in
         _calculate_new_expiry x k = Ok (Some (layout (rule r) mf' yf'))
         /\ month_ok (rule r) mf' (month r) /\ year_ok (rule r) yf'
         /\ classify (layout (rule r) mf' yf')
            = Some (parsed_of (rule r) mf' yf' (month r))
         /\ (mf' = mf ->
             differs_only_in_year (strip x) (layout (rule r) mf' yf')).
Proof.
  intros x k r Hc Hfit.
  destruct (classify_sound x r Hc) as (Hin & mf & yf & Es & Hm & Hy & Er).
  pose proof (month_field_ok _ mf yf _ Hm) as Hm'. rewrite <- Er in Hm'.
  destruct (year_field_ok _ (year r + k) Hin Hfit) as (Hy' & _).
  exists mf, yf. repeat split; try apply Hy; auto.
  - exact (calculate_writable x k r Hc (classify_fits x r k Hc Hfit)).
  - apply Hy'.
  - apply Hy'.
  - apply classify_layout; auto.
  - intros ->. rewrite Es.
    destruct Hy as [A B], Hy' as [A' B'].
    apply layout_differs_only_in_year; auto. lia.
Qed.

(** ["08/29"] with offset +3 gives ["08/32"], which differs from the input
    in the year field only. *)
Lemma C2_witness :
  _calculate_new_expiry (lit "08/29") 3 = Ok (Some (lit "08/32"))
  /\ differs_only_in_year (lit "08/29") (lit "08/32").
Proof.
  destruct (C2_output_keeps_rule_layout (lit "08/29") 3
    {| rule := {| regex := re_month_year "/" 2; year_length := 2;
                  separator := lit "/"; month_first := true;
                  month_type := numeric |};
       month := 8; month_text := None; year := 29 |} eq_refl)
    as (mf & yf & Es & Hm & Hy & Ho & _ & _ & _ & Hd).
  - intros H; discriminate H.
  - split; [exact Ho | ].
    apply Hd. destruct Hm as (Hd' & Lm & _ & Hv & _), Hy as (Hy & Ly).
    (* the month field of the input is "08" *)
    simpl in Es, Ly.
    destruct mf as [|a [|b [|c mf]]]; simpl in Lm; try lia;
      destruct yf as [|d [|e [|f yf]]]; simpl in Ly; try lia;
      simpl in Es; inversion Es; reflexivity.
Defined.

(* ================================================================== *)
(** * Further facts about the transform *)

Module TransformFacts.
Import Notions.

(** ** Stripping *)

Lemma lstrip_of_app_all sp (ws x : str) :
  forallb sp ws = true -> lstrip_of sp (ws ++ x) = lstrip_of sp x.
Proof.
  induction ws as [|c ws IH]; simpl; [reflexivity | ].
  intros H; apply andb_true_iff in H as [-> H]; auto.
Qed.

Lemma lstrip_of_app sp (x ws : str) :
  lstrip_of sp (x ++ ws)
  = if forallb sp x then lstrip_of sp ws else lstrip_of sp x ++ ws.
Proof.
  induction x as [|c x IH]; simpl; [reflexivity | ].
  destruct (sp c); simpl; [exact IH | reflexivity].
Qed.

Lemma rstrip_of_app_all sp (x ws : str) :
  forallb sp ws = true -> rstrip_of sp (x ++ ws) = rstrip_of sp x.
Proof.
  intros H; unfold rstrip_of. rewrite rev_app_distr, lstrip_of_app_all; auto.
  rewrite forallb_rev; exact H.
Qed.

(** White space around a string does not change what is left of it. *)
Lemma strip_padded (ws1 x ws2 : str) :
  forallb is_space ws1 = true -> forallb is_space ws2 = true ->
  strip (ws1 ++ x ++ ws2) = strip x.
Proof.
  intros H1 H2. unfold strip, strip_of.
  rewrite lstrip_of_app_all by exact H1.
  rewrite lstrip_of_app. destruct (forallb is_space x) eqn:E.
  - rewrite (lstrip_of_all _ ws2 H2), (lstrip_of_all _ x E). reflexivity.
  - apply rstrip_of_app_all; exact H2.
Qed.

Lemma strip_idem x : strip (strip x) = strip x.
Proof.
  destruct (strip x) as [|c t] eqn:E; [reflexivity | ].
  pose proof (strip_first _ _ _ E) as Hc.
  unfold strip, strip_of, rstrip_of. cbn [lstrip_of]. rewrite Hc.
  destruct (rev (c :: t)) as [|d w] eqn:R.
  - apply (f_equal (@rev ascii)) in R. rewrite rev_involutive in R. discriminate R.
  - assert (Hd : is_space d = false).
    { apply (strip_last x (rev w) d). rewrite E.
      apply (f_equal (@rev ascii)) in R. rewrite rev_involutive in R. exact R. }
    cbn [lstrip_of]. rewrite Hd, <- R. apply rev_involutive.
Qed.

Lemma classify_strip x : classify (strip x) = classify x.
Proof. unfold classify. rewrite strip_idem. reflexivity. Qed.

Lemma calculate_strip x k :
  _calculate_new_expiry (strip x) k = _calculate_new_expiry x k.
Proof. rewrite !calculate_classify, classify_strip. reflexivity. Qed.

(** ** The output *)

Lemma no_space_digit_char d : 0 <= d <= 9 -> is_space (digit_char d) = false.
Proof. intros H; apply digit_not_space, digit_char_digit; exact H. Qed.

Lemma no_space_zero_padded w n : no_space (zero_padded w n) = true.
Proof.
  unfold zero_padded. destruct (n <? 0) eqn:E.
  - apply Z.ltb_lt in E.
    destruct (str_of_nonneg_spec (- n) ltac:(lia)) as (A & _ & _).
    destruct (zfill_spec (w - 1) _ A) as (A' & _ & _).
    unfold no_space; simpl. apply all_digits_no_space in A'. exact A'.
  - apply Z.ltb_ge in E.
    destruct (str_of_nonneg_spec n E) as (A & _ & _).
    destruct (zfill_spec w _ A) as (A' & _ & _).
    apply all_digits_no_space; exact A'.
Qed.

Lemma month_ok_nonempty p mf m : month_ok p mf m -> mf <> [].
Proof.
  unfold month_ok; destruct (month_type p).
  - intros (H & _); exact H.
  - intros (_ & L & _) ->; simpl in L; lia.
Qed.

(** What the function returns is never empty and holds no white space. *)
Lemma output_no_space x k y :
  _calculate_new_expiry x k = Ok (Some y) -> y <> [] /\ no_space y = true.
Proof.
  intros H. destruct (calculate_returns x k y H) as (r & Hc & _ & ->). clear H.
  destruct (classify_sound x r Hc) as (Hin & mf & yf & Es & Hm & Hy & Er).
  pose proof (month_field_ok _ mf yf _ Hm) as Hm'. rewrite <- Er in Hm'.
  pose proof (month_ok_nonempty _ _ _ Hm') as Hne.
  pose proof (month_ok_no_space _ _ _ Hm') as A.
  pose proof (separator_no_space _ Hin) as C.
  assert (B : no_space (year_field (rule r) (year r + k)) = true)
    by (unfold year_field; destruct (_ =? _); apply no_space_zero_padded).
  unfold apply_offset, layout. destruct (month_first (rule r)); split.
  - destruct (month_field r); [contradiction | discriminate].
  - rewrite !no_space_app, A, B, C; reflexivity.
  - intros E. apply app_eq_nil in E as [_ E]. apply app_eq_nil in E as [_ E].
    contradiction.
  - rewrite !no_space_app, A, B, C; reflexivity.
Qed.

(** ** Reading the output again *)

Lemma month_field_again r mf yf yf' :
  r = parsed_of (rule r) mf yf (month r) ->
  month_field (parsed_of (rule r) (month_field r) yf' (month r)) = month_field r.
Proof.
  intros Er. unfold month_field at 1. cbn [parsed_of month_text month].
  unfold month_field. rewrite Er at 2 3. cbn [parsed_of month_text month].
  destruct (month_type (rule r)); [apply capitalize_idem | reflexivity].
Qed.

(** The output is classified under the rule that produced it, with the same
    month and the new year, as long as a four-digit year still fits. *)
Lemma classify_output x k r :
  classify x = Some r ->
  (year_length (rule r) = 4 -> 0 <= year r + k <= 9999) ->
  classify (apply_offset r k)
  = Some (parsed_of (rule r) (month_field r)
            (year_field (rule r) (year r + k)) (month r))
  /\ digits_value (year_field (rule r) (year r + k))
     = (if year_length (rule r) =? 2 then (year r + k) mod 100 else year r + k).
Proof.
  intros Hc Hfit.
  destruct (classify_sound x r Hc) as (Hin & mf & yf & Es & Hm & Hy & Er).
  pose proof (month_field_ok _ mf yf _ Hm) as Hm'. rewrite <- Er in Hm'.
  destruct (year_field_ok _ (year r + k) Hin Hfit) as (Hy' & Hv').
  split; [ | exact Hv'].
  unfold apply_offset. apply classify_layout; auto.
Qed.

Lemma transform_of_output x k1 k2 r :
  classify x = Some r ->
  (year_length (rule r) = 4 -> 0 <= year r + k1 <= 9999) ->
  _calculate_new_expiry (apply_offset r k1) k2
  = _calculate_new_expiry x (k1 + k2).
Proof.
  intros Hc Hfit.
  destruct (classify_output x k1 r Hc Hfit) as (Ho & Hv).
  destruct (classify_sound x r Hc) as (_ & mf & yf & _ & _ & _ & Er).
  rewrite !calculate_classify, Ho, Hc.
  replace (year_writable _ k2) with (year_writable r (k1 + k2)).
  - destruct (year_writable r (k1 + k2)); [ | reflexivity]. do 2 f_equal.
    unfold apply_offset. cbn [rule year parsed_of]. f_equal.
    + apply (month_field_again r mf yf _ Er).
    + rewrite Hv. unfold year_field.
      destruct (year_length (rule r) =? 2).
      * rewrite Z.add_mod_idemp_l, Z.add_assoc by lia. reflexivity.
      * rewrite Z.add_assoc. reflexivity.
  - unfold year_writable. cbn [rule year parsed_of]. rewrite Hv.
    destruct (year_length (rule r) =? 2); [reflexivity | ].
    rewrite Z.add_assoc. reflexivity.
Qed.

(** ** When the output is the input *)

Lemma app_inj_length (a a' b b' : str) :
  List.length a = List.length a' -> a ++ b = a' ++ b' -> a = a' /\ b = b'.
Proof.
  revert a'; induction a as [|c a IH]; intros [|c' a'] L E; simpl in *;
    try discriminate; auto.
  inversion E; subst. destruct (IH a' ltac:(lia) H1) as [-> ->]; auto.
Qed.

Lemma length_capitalize t : List.length (capitalize t) = List.length t.
Proof.
  destruct t as [|c t]; [reflexivity | ].
  rewrite capitalize_cons; simpl. unfold lower. rewrite length_map. reflexivity.
Qed.

(** Equal layouts whose fields are not shorter on one side have equal
    fields. *)
Lemma layout_inj p mf yf mf' yf' :
  (List.length mf <= List.length mf')%nat ->
  (List.length yf <= List.length yf')%nat ->
  layout p mf yf = layout p mf' yf' -> mf = mf' /\ yf = yf'.
Proof.
  intros Lm Ly E.
  assert (L : (List.length mf + List.length yf
               = List.length mf' + List.length yf')%nat).
  { apply (f_equal (@List.length ascii)) in E. unfold layout in E.
    destruct (month_first p); rewrite !length_app in E; lia. }
  unfold layout in E. destruct (month_first p).
  - apply app_inj_length in E as [-> E]; [ | lia].
    apply app_inv_head in E. auto.
  - apply app_inj_length in E as [-> E]; [ | lia].
    apply app_inv_head in E. auto.
Qed.

(** The facts about an accepted input that the next lemmas need. *)
Lemma fields_of_classified x k r :
  classify x = Some r ->
  exists mf yf,
    strip x = layout (rule r) mf yf
    /\ In (rule r) EXP_PATTERNS
    /\ year_ok (rule r) yf /\ year r = digits_value yf
    /\ (List.length mf <= List.length (month_field r))%nat
    /\ (List.length yf
        <= List.length (year_field (rule r) (year r + k)))%nat
    /\ int (Some (year_field (rule r) (year r + k)))
       = Ok (if year_length (rule r) =? 2
             then (year r + k) mod 100 else year r + k).
Proof.
  intros Hc.
  destruct (classify_sound x r Hc) as (Hin & mf & yf & Es & Hm & Hy & Er).
  exists mf, yf. split; [exact Es | ]. split; [exact Hin | ].
  split; [exact Hy | ]. split; [rewrite Er at 1; reflexivity | ].
  assert (Et : month_text r
               = match month_type (rule r) with text => Some mf | numeric => None end)
    by (rewrite Er at 1; reflexivity).
  destruct Hy as [Hd Ly]. split; [ | split].
  - unfold month_field; rewrite Et. unfold month_ok in Hm.
    destruct (month_type (rule r)).
    + rewrite length_capitalize; lia.
    + destruct Hm as (_ & L & _ & _ & Hr).
      destruct (zero_padded_fits 2 (month r) ltac:(lia) ltac:(simpl; lia))
        as (_ & B & _). rewrite B; lia.
  - unfold year_field.
    destruct (year_length_cases _ Hin) as [E | E]; rewrite E in *; simpl.
    + pose proof (zero_padded_min_width 2 ((year r + k) mod 100)); lia.
    + pose proof (zero_padded_min_width 4 (year r + k)); lia.
  - unfold year_field. destruct (year_length (rule r) =? 2);
      simpl; apply int_zero_padded.
Qed.

(** The output is the stripped input only if the offset does not move the
    year: it is 0, or a multiple of 100 under a two-digit rule. *)
Lemma unchanged_offset x k r :
  classify x = Some r ->
  apply_offset r k = strip x ->
  if year_length (rule r) =? 2 then k mod 100 = 0 else k = 0.
Proof.
  intros Hc E.
  destruct (fields_of_classified x k r Hc)
    as (mf & yf & Es & Hin & [Hd Ly] & Ey & Lm & Lyf & Hi).
  rewrite Es in E. unfold apply_offset in E.
  apply eq_sym, layout_inj in E as [_ Eyf]; auto.
  rewrite <- Eyf in Hi.
  rewrite int_digits_str in Hi; auto.
  2:{ destruct (year_length_cases _ Hin) as [E2 | E2]; rewrite E2 in Ly; lia. }
  inversion Hi as [Hv]. rewrite <- Ey in Hv.
  destruct (year_length (rule r) =? 2).
  - pose proof (Z.div_mod (year r + k) 100 ltac:(lia)).
    pose proof (Z.mod_pos_bound (year r + k) 100 ltac:(lia)).
    rewrite <- Hv in H.
    replace k with (100 * ((year r + k) / 100)) by lia.
    rewrite Z.mul_comm. apply Z.mod_mul. lia.
  - lia.
Qed.

(** ** Letter case *)

Lemma space_lower_char c : is_space (lower_char c) = is_space c.
Proof. each_char c. Qed.

Lemma lower_char_nonletter c :
  in_set true Alpha (lower_char c) = false -> lower_char c = c.
Proof. each_char c. Qed.

Lemma lstrip_lower x : lstrip_of is_space (lower x) = lower (lstrip_of is_space x).
Proof.
  induction x as [|c x IH]; simpl; [reflexivity | ].
  rewrite space_lower_char. destruct (is_space c); [exact IH | reflexivity].
Qed.

Lemma strip_lower x : strip (lower x) = lower (strip x).
Proof.
  unfold strip, strip_of, rstrip_of, lower.
  fold (lower x). rewrite lstrip_lower. unfold lower.
  rewrite <- map_rev. fold (lower (rev (lstrip_of is_space x))).
  rewrite lstrip_lower. unfold lower. rewrite map_rev. reflexivity.
Qed.

Lemma lower_no_letters x t : no_letters t = true -> lower x = t -> x = t.
Proof.
  revert t; induction x as [|c x IH]; intros [|d t] H E;
    try discriminate; auto.
  unfold no_letters in H; cbn [forallb] in H.
  apply andb_true_iff in H as [Hd Ht]. apply negb_true_iff in Hd.
  inversion E as [[Ec Et]].
  rewrite <- (lower_char_nonletter c) at 1 by (rewrite Ec; exact Hd).
  rewrite Ec. f_equal. fold (lower x) in Et. rewrite Et. apply IH; auto.
Qed.

Lemma lower_char_fixed c : in_set true Alpha c = false -> lower_char c = c.
Proof. each_char c. Qed.

Lemma lower_fixed t : no_letters t = true -> lower t = t.
Proof.
  unfold no_letters; induction t as [|c t IH]; [reflexivity | ].
  cbn [forallb]. intros H. apply andb_true_iff in H as [Hc Ht].
  apply negb_true_iff in Hc. simpl. rewrite (lower_char_fixed c Hc).
  f_equal. apply IH; exact Ht.
Qed.

Lemma all_digits_no_letters t : all_digits t = true -> no_letters t = true.
Proof.
  unfold all_digits, no_letters; rewrite !forallb_forall; intros H c Hc.
  rewrite (digit_not_letter true c (H c Hc)); reflexivity.
Qed.

Lemma separator_no_letters p :
  In p EXP_PATTERNS -> no_letters (separator p) = true.
Proof.
  intros Hin; unfold EXP_PATTERNS in Hin; simpl in Hin.
  repeat (destruct Hin as [<- | Hin]); try contradiction; reflexivity.
Qed.

Lemma capitalize_lower a b : lower a = lower b -> capitalize a = capitalize b.
Proof.
  destruct a as [|c a], b as [|d b]; simpl; intros E; try discriminate;
    [reflexivity | ].
  inversion E as [[Ec Et]]. rewrite !capitalize_cons. f_equal.
  - rewrite <- (upper_lower_char c), Ec. apply upper_lower_char.
  - exact Et.
Qed.

(** A string that is a rule's layout up to letter case is that rule's
    layout of a month field that differs in letter case only. *)
Lemma layout_lower p mf yf m s' :
  In p EXP_PATTERNS -> month_ok p mf m -> year_ok p yf ->
  lower s' = lower (layout p mf yf) ->
  exists mf', s' = layout p mf' yf /\ month_ok p mf' m /\ lower mf' = lower mf.
Proof.
  intros Hin Hm [Hd Ly] E.
  pose proof (separator_no_letters p Hin) as Hs.
  pose proof (all_digits_no_letters yf Hd) as Hy.
  assert (K : forall a b c : str,
            lower s' = lower a ++ lower b ++ lower c ->
            exists a' b' c', s' = a' ++ b' ++ c'
              /\ lower a' = lower a /\ lower b' = lower b /\ lower c' = lower c).
  { intros a b c H. unfold lower in H at 1.
    apply map_eq_app in H as (a' & r & -> & Ha & H).
    apply map_eq_app in H as (b' & c' & -> & Hb & Hc).
    exists a', b', c'. auto. }
  assert (M : forall mf', lower mf' = lower mf -> month_ok p mf' m).
  { intros mf' El. unfold month_ok in *. destruct (month_type p).
    - destruct Hm as (Hne & Hl & Hk). repeat split.
      + intros ->. destruct mf; [contradiction | discriminate El].
      + rewrite <- all_letters_lower, El, all_letters_lower. exact Hl.
      + rewrite El. exact Hk.
    - destruct Hm as (Hmd & Hrest).
      assert (mf' = mf); [ | subst; auto].
      apply lower_no_letters; [apply all_digits_no_letters; exact Hmd | ].
      rewrite El. apply lower_fixed, all_digits_no_letters; exact Hmd. }
  unfold layout in *. destruct (month_first p).
  - unfold lower in E at 2. rewrite !map_app in E.
    destruct (K mf (separator p) yf E) as (a' & b' & c' & -> & Ea & Eb & Ec).
    assert (b' = separator p)
      by (apply lower_no_letters; auto; rewrite Eb; apply lower_fixed; auto).
    assert (c' = yf)
      by (apply lower_no_letters; auto; rewrite Ec; apply lower_fixed; auto).
    subst. exists a'. auto.
  - unfold lower in E at 2. rewrite !map_app in E.
    destruct (K yf (separator p) mf E) as (a' & b' & c' & -> & Ea & Eb & Ec).
    assert (b' = separator p)
      by (apply lower_no_letters; auto; rewrite Eb; apply lower_fixed; auto).
    assert (a' = yf)
      by (apply lower_no_letters; auto; rewrite Ea; apply lower_fixed; auto).
    subst. exists c'. auto.
Qed.

Lemma classify_lower x x' k r :
  lower x = lower x' -> classify x = Some r ->
  exists r', classify x' = Some r'
    /\ year_writable r' k = year_writable r k
    /\ apply_offset r' k = apply_offset r k.
Proof.
  intros E Hc.
  destruct (classify_sound x r Hc) as (Hin & mf & yf & Es & Hm & Hy & Er).
  assert (E' : lower (strip x') = lower (layout (rule r) mf yf)).
  { rewrite <- Es, <- !strip_lower, E. reflexivity. }
  destruct (layout_lower _ _ _ _ _ Hin Hm Hy E') as (mf' & Es' & Hm' & El).
  exists (parsed_of (rule r) mf' yf (month r)). split; [ | split].
  - unfold classify. rewrite Es'. apply first_accepting_layout; auto.
  - assert (Ey : year r = digits_value yf) by (rewrite Er; reflexivity).
    unfold year_writable. cbn [parsed_of rule year]. rewrite Ey. reflexivity.
  - rewrite Er at 3. unfold apply_offset. cbn [parsed_of rule year]. f_equal.
    unfold month_field. cbn [parsed_of month_text month].
    destruct (month_type (rule r)); [apply capitalize_lower; exact El | reflexivity].
Qed.

End TransformFacts.

(* ================================================================== *)
(** * Facts about the batch driver *)

Module DriverFacts.
Import Driver TransformFacts.

(** ** The candidates *)

Lemma insert_by_pk_perm p l : Permutation (insert_by_pk p l) (p :: l).
Proof.
  induction l as [|q l IH]; simpl; [apply Permutation_refl | ].
  destruct (pk p <=? pk q); [apply Permutation_refl | ].
  eapply Permutation_trans; [apply perm_skip, IH | apply perm_swap].
Qed.

Lemma order_by_pk_perm l : Permutation (order_by_pk l) l.
Proof.
  induction l as [|p l IH]; simpl; [apply perm_nil | ].
  eapply Permutation_trans; [apply insert_by_pk_perm | apply perm_skip, IH].
Qed.

Lemma queryset_perm db : Permutation (queryset db) (filter has_expiry db).
Proof. apply order_by_pk_perm. Qed.

Lemma queryset_in db p : In p (queryset db) <-> In p db /\ has_expiry p = true.
Proof.
  rewrite <- filter_In. split; apply Permutation_in;
    [apply queryset_perm | apply Permutation_sym, queryset_perm].
Qed.

Lemma has_expiry_exp p : has_expiry p = true -> exists c t, exp p = Some (c :: t).
Proof.
  unfold has_expiry; destruct (exp p) as [[|c t]|]; try discriminate; eauto.
Qed.

(** ** One iteration *)

Lemma judge_cases k e :
  match judge k e with
  | Unmatched =>
      _calculate_new_expiry (strip e) k = Ok None
      \/ _calculate_new_expiry (strip e) k = Raise ValueError
  | Unchanged => _calculate_new_expiry (strip e) k = Ok (Some (strip e))
  | Changed new_exp =>
      _calculate_new_expiry (strip e) k = Ok (Some new_exp) /\ new_exp <> strip e
  end.
Proof.
  unfold judge. rewrite calculate_classify.
  destruct (classify (strip e)) as [r|]; [ | left; reflexivity].
  destruct (year_writable r k); [ | right; reflexivity].
  destruct (str_eqb (apply_offset r k) (strip e)) eqn:E.
  - apply str_eqb_eq in E. rewrite E. reflexivity.
  - split; [reflexivity | ]. intros H. rewrite H, str_eqb_refl in E. discriminate.
Qed.

(** The rows on which the transform does not raise. *)
Lemma row_printable k l p e :
  years_printable k l -> In p l -> exp p = Some e ->
  exists res, _calculate_new_expiry (strip e) k = Ok res.
Proof.
  intros H Hin He. rewrite calculate_classify.
  destruct (classify (strip e)) as [r|] eqn:Hc; [ | eauto].
  rewrite (classify_writable _ r k Hc); [eauto | ].
  rewrite classify_strip in Hc. exact (H p e r Hin He Hc).
Qed.

(** An iteration breaks on a NULL [exp] and on a year that cannot be
    written, and on nothing else. *)
Lemma visit_fine o st p :
  exp p <> None ->
  (forall e, exp p = Some e ->
     exists res, _calculate_new_expiry (strip e) (years o) = Ok res) ->
  exists st', visit o st p = Fine st'.
Proof.
  unfold visit. destruct (exp p) as [e|]; [intros _ Hr | contradiction].
  destruct (Hr e eq_refl) as [[y|] Hy]; rewrite Hy; [ | eauto].
  destruct (str_eqb _ _); [eauto | ].
  destruct (negb (dry_run o)); [ | eauto].
  destruct (_ >=? _); eauto.
Qed.

Ltac visit_cases H :=
  unfold visit in H;
  unfold is_changed, is_unmatched, is_unchanged, change_of, unmatched_of,
    write_of, judge;
  match type of H with
  | context [exp ?p] => destruct (exp p) as [?e|]; [ | discriminate H]
  end;
  cbv zeta in H;
  match type of H with
  | context [_calculate_new_expiry ?x ?k] =>
      destruct (_calculate_new_expiry x k) as [[?y|]|?z]; [ | | discriminate H]
  end;
  [ match type of H with
    | context [str_eqb ?a ?b] => destruct (str_eqb a b)
    end | ].

Lemma visit_counts o st p st' :
  visit o st p = Fine st' ->
  processed_count st' = processed_count st + 1
  /\ updated_count st' = updated_count st + len (filter (is_changed (years o)) [p])
  /\ skipped_count st' = skipped_count st + len (filter (is_unmatched (years o)) [p])
  /\ unchanged_count st'
     = unchanged_count st + len (filter (is_unchanged (years o)) [p]).
Proof.
  intros H. unfold filter. visit_cases H.
  - inversion H; subst st'; cbn; repeat split; lia.
  - destruct (negb (dry_run o)); [destruct (_ >=? _) | ];
      inversion H; subst st'; cbn; repeat split; lia.
  - inversion H; subst st'; cbn; repeat split; lia.
Qed.

Lemma visit_samples o st p st' :
  visit o st p = Fine st' ->
  sample_updates st'
  = (if dry_run o && (len (sample_updates st) <? show_samples o)
     then sample_updates st ++ change_of (years o) p
     else sample_updates st)
  /\ unmatched_samples st'
     = (if (show_unmatched o >? 0)
           && (len (unmatched_samples st) <? show_unmatched o)
        then unmatched_samples st ++ unmatched_of (years o) p
        else unmatched_samples st).
Proof.
  intros H. visit_cases H;
    [ | destruct (dry_run o); cbn [negb andb] in H |- *;
        [ | destruct (_ >=? _)] | ];
    inversion H; subst st'; cbn [sample_updates unmatched_samples];
    rewrite ?app_nil_r;
    (split;
     repeat match goal with
            | |- context [if ?c then _ else _] => destruct c
            end; reflexivity).
Qed.

Lemma bulk_update_app a b db :
  bulk_update (a ++ b) db = bulk_update b (bulk_update a db).
Proof. apply fold_left_app. Qed.

(** A dry run leaves the store and the pending list alone. *)
Lemma visit_dry o st p st' :
  dry_run o = true -> visit o st p = Fine st' ->
  store st' = store st /\ pending_updates st' = pending_updates st.
Proof.
  intros D H. visit_cases H; rewrite ?D in H; cbn in H;
    inversion H; subst st'; cbn; auto.
Qed.

(** Otherwise what is written and what is pending together grow by the
    row's object. *)
Lemma visit_wet o st p st' :
  dry_run o = false -> visit o st p = Fine st' ->
  bulk_update (pending_updates st') (store st')
  = bulk_update (write_of (years o) p)
      (bulk_update (pending_updates st) (store st)).
Proof.
  intros D H. visit_cases H; rewrite ?D in H; cbn [negb] in H.
  - inversion H; subst st'; reflexivity.
  - destruct (_ >=? _); inversion H; subst st'; cbn [pending_updates store];
      rewrite bulk_update_app; reflexivity.
  - inversion H; subst st'; reflexivity.
Qed.

(** ** The whole loop *)

Lemma visit_all_fine o l : forall st,
  (forall p, In p l -> exp p <> None) -> years_printable (years o) l ->
  exists st', visit_all o st l = Fine st'.
Proof.
  induction l as [|p l IH]; intros st H Hp; simpl; [eauto | ].
  destruct (visit_fine o st p (H p (or_introl eq_refl))) as [st1 ->].
  { intros e He. exact (row_printable _ _ p e Hp (or_introl eq_refl) He). }
  apply IH; [intros q Hq; apply H; right; exact Hq | ].
  intros row e r Hin. apply Hp. right; exact Hin.
Qed.

Lemma len_app {A : Type} (a b : list A) : len (a ++ b) = len a + len b.
Proof. unfold len. rewrite length_app. lia. Qed.

Lemma filter_cons_len {A : Type} (f : A -> bool) a l :
  len (filter f (a :: l)) = len (filter f [a]) + len (filter f l).
Proof. change (a :: l) with ([a] ++ l). rewrite filter_app. apply len_app. Qed.

Lemma visit_all_counts o l : forall st st',
  visit_all o st l = Fine st' ->
  processed_count st' = processed_count st + len l
  /\ updated_count st' = updated_count st + len (filter (is_changed (years o)) l)
  /\ skipped_count st' = skipped_count st + len (filter (is_unmatched (years o)) l)
  /\ unchanged_count st'
     = unchanged_count st + len (filter (is_unchanged (years o)) l).
Proof.
  induction l as [|p l IH]; intros st st' H; simpl in H.
  - inversion H; subst. cbn. repeat split; lia.
  - destruct (visit o st p) as [st1|] eqn:V; [ | discriminate].
    destruct (visit_counts _ _ _ _ V) as (A1 & A2 & A3 & A4).
    destruct (IH _ _ H) as (B1 & B2 & B3 & B4).
    rewrite !(filter_cons_len _ p l).
    change (len (p :: l)) with (len ([p] ++ l)). rewrite len_app.
    change (len [p]) with 1. repeat split; lia.
Qed.

(** Appending to a list that keeps at most [n] entries. *)
Lemma firstn_grow {A : Type} (n : Z) (X c : list A) :
  (List.length c <= 1)%nat ->
  (if len (firstn (Z.to_nat n) X) <? n then firstn (Z.to_nat n) X ++ c
   else firstn (Z.to_nat n) X)
  = firstn (Z.to_nat n) (X ++ c).
Proof.
  intros Lc. unfold len. rewrite length_firstn, firstn_app.
  destruct (Z.ltb_spec (Z.of_nat (Nat.min (Z.to_nat n) (List.length X))) n) as [H | H].
  - assert (L : (List.length X < Z.to_nat n)%nat) by lia.
    rewrite (firstn_all2 X) by lia. f_equal. symmetry. apply firstn_all2. lia.
  - assert (L : (Z.to_nat n <= List.length X)%nat) by lia.
    replace (Z.to_nat n - List.length X)%nat with O by lia.
    simpl. rewrite app_nil_r. reflexivity.
Qed.

Lemma change_of_short k p : (List.length (change_of k p) <= 1)%nat.
Proof.
  unfold change_of. destruct (exp p); [destruct (judge k _) | ]; simpl; lia.
Qed.

Lemma unmatched_of_short k p : (List.length (unmatched_of k p) <= 1)%nat.
Proof.
  unfold unmatched_of. destruct (exp p); [destruct (judge k _) | ]; simpl; lia.
Qed.

(** The sample lists are the first entries of what the rows give. *)
Lemma visit_all_samples o l : forall st st' pre,
  sample_updates st
    = (if dry_run o
       then firstn (Z.to_nat (show_samples o)) (flat_map (change_of (years o)) pre)
       else []) ->
  unmatched_samples st
    = firstn (Z.to_nat (show_unmatched o)) (flat_map (unmatched_of (years o)) pre) ->
  visit_all o st l = Fine st' ->
  sample_updates st'
    = (if dry_run o
       then firstn (Z.to_nat (show_samples o))
              (flat_map (change_of (years o)) (pre ++ l))
       else [])
  /\ unmatched_samples st'
     = firstn (Z.to_nat (show_unmatched o))
         (flat_map (unmatched_of (years o)) (pre ++ l)).
Proof.
  induction l as [|p l IH]; intros st st' pre Hs Hu H; simpl in H.
  - inversion H; subst. rewrite app_nil_r. auto.
  - destruct (visit o st p) as [st1|] eqn:V; [ | discriminate].
    destruct (visit_samples _ _ _ _ V) as (A & B).
    replace (pre ++ p :: l) with ((pre ++ [p]) ++ l)
      by (rewrite <- app_assoc; reflexivity).
    apply (IH st1 st' (pre ++ [p])); auto.
    + rewrite A, Hs. rewrite flat_map_app. simpl flat_map. rewrite app_nil_r.
      destruct (dry_run o); [ | reflexivity]. cbn [andb].
      apply firstn_grow, change_of_short.
    + rewrite B, Hu. rewrite flat_map_app. simpl flat_map. rewrite app_nil_r.
      destruct (Z.gtb_spec (show_unmatched o) 0) as [G | G]; cbn [andb].
      * apply firstn_grow, unmatched_of_short.
      * replace (Z.to_nat (show_unmatched o)) with O by lia. reflexivity.
Qed.

Lemma visit_all_dry o l : forall st st',
  dry_run o = true -> visit_all o st l = Fine st' ->
  store st' = store st /\ pending_updates st' = pending_updates st.
Proof.
  induction l as [|p l IH]; intros st st' D H; simpl in H.
  - inversion H; subst; auto.
  - destruct (visit o st p) as [st1|] eqn:V; [ | discriminate].
    destruct (visit_dry _ _ _ _ D V) as [A B].
    destruct (IH _ _ D H) as [A' B']. split; congruence.
Qed.

Lemma visit_all_wet o l : forall st st',
  dry_run o = false -> visit_all o st l = Fine st' ->
  bulk_update (pending_updates st') (store st')
  = bulk_update (flat_map (write_of (years o)) l)
      (bulk_update (pending_updates st) (store st)).
Proof.
  induction l as [|p l IH]; intros st st' D H; simpl in H.
  - inversion H; subst; reflexivity.
  - destruct (visit o st p) as [st1|] eqn:V; [ | discriminate].
    rewrite (IH _ _ D H), (visit_wet _ _ _ _ D V).
    simpl flat_map. rewrite bulk_update_app. reflexivity.
Qed.

Lemma flush_store o st :
  store (flush o st)
  = (if dry_run o then store st
     else bulk_update (pending_updates st) (store st))
  /\ updated_count (flush o st) = updated_count st
  /\ skipped_count (flush o st) = skipped_count st
  /\ unchanged_count (flush o st) = unchanged_count st
  /\ processed_count (flush o st) = processed_count st
  /\ sample_updates (flush o st) = sample_updates st
  /\ unmatched_samples (flush o st) = unmatched_samples st
  /\ pending_updates (flush o st) = pending_updates st.
Proof.
  unfold flush. destruct (dry_run o), (pending_updates st) eqn:E; cbn;
    rewrite ?E; repeat split; reflexivity.
Qed.

(** ** Writes, row by row *)

Lemma bulk_update_map objs : forall db,
  bulk_update objs db = map (apply_writes objs) db.
Proof.
  induction objs as [|obj objs IH]; intros db; simpl.
  - symmetry. apply map_id.
  - unfold bulk_update in IH. rewrite IH. unfold write_exp.
    rewrite map_map. reflexivity.
Qed.

Lemma apply_writes_app a b row :
  apply_writes (a ++ b) row = apply_writes b (apply_writes a row).
Proof. apply fold_left_app. Qed.

Lemma apply_writes_pk objs : forall row, pk (apply_writes objs row) = pk row.
Proof.
  induction objs as [|obj objs IH]; intros row; simpl; [reflexivity | ].
  rewrite IH. destruct (pk row =? pk obj); reflexivity.
Qed.

Lemma apply_writes_none objs : forall row,
  (forall obj, In obj objs -> pk obj <> pk row) -> apply_writes objs row = row.
Proof.
  induction objs as [|obj objs IH]; intros row H; simpl; [reflexivity | ].
  destruct (Z.eqb_spec (pk row) (pk obj)) as [E | E].
  - exfalso. apply (H obj (or_introl eq_refl)). auto.
  - apply IH. intros o Ho; apply H; right; exact Ho.
Qed.

Lemma write_of_pk k p obj : In obj (write_of k p) -> pk obj = pk p.
Proof.
  unfold write_of. destruct (exp p); [destruct (judge k _) | ]; simpl;
    intros []; try contradiction; subst; reflexivity.
Qed.

Lemma writes_pk k l obj :
  In obj (flat_map (write_of k) l) -> In (pk obj) (map pk l).
Proof.
  rewrite in_flat_map. intros (p & Hp & Ho).
  rewrite (write_of_pk _ _ _ Ho). apply in_map; exact Hp.
Qed.

Lemma write_of_row k p :
  has_expiry p = true -> apply_writes (write_of k p) p = updated_row k p.
Proof.
  intros H. destruct (has_expiry_exp p H) as (c & t & E).
  unfold write_of, updated_row. rewrite E.
  destruct (judge k (c :: t)); simpl; [reflexivity | reflexivity | ].
  rewrite Z.eqb_refl. reflexivity.
Qed.

Lemma updated_row_pk k p : pk (updated_row k p) = pk p.
Proof.
  unfold updated_row. destruct (exp p) as [[|c t]|]; try reflexivity.
  destruct (judge k _); reflexivity.
Qed.

Lemma writes_row k l : forall row,
  NoDup (map pk l) -> (forall p, In p l -> has_expiry p = true) ->
  In row l ->
  apply_writes (flat_map (write_of k) l) row = updated_row k row.
Proof.
  induction l as [|p l IH]; intros row N H Hin; [contradiction | ].
  simpl in N. inversion N as [|? ? Hnot N']; subst.
  simpl flat_map. rewrite apply_writes_app.
  destruct Hin as [-> | Hin].
  - rewrite write_of_row by (apply H; left; reflexivity).
    apply apply_writes_none. intros obj Ho E.
    apply writes_pk in Ho. rewrite E, updated_row_pk in Ho. contradiction.
  - rewrite (apply_writes_none (write_of k p)).
    + apply IH; auto. intros q Hq; apply H; right; exact Hq.
    + intros obj Ho E. apply write_of_pk in Ho.
      apply Hnot. rewrite <- Ho, E. apply in_map; exact Hin.
Qed.

Lemma pk_inj (db : table) a b :
  NoDup (map pk db) -> In a db -> In b db -> pk a = pk b -> a = b.
Proof.
  induction db as [|r db IH]; intros N Ha Hb E; [contradiction | ].
  simpl in N. inversion N as [|? ? Hnot N']; subst.
  destruct Ha as [-> | Ha], Hb as [-> | Hb]; auto.
  - exfalso. apply Hnot. rewrite E. apply in_map; exact Hb.
  - exfalso. apply Hnot. rewrite <- E. apply in_map; exact Ha.
Qed.

Lemma updated_row_other k row : has_expiry row = false -> updated_row k row = row.
Proof.
  unfold has_expiry, updated_row. destruct (exp row) as [[|c t]|]; auto.
  discriminate.
Qed.

(** With distinct primary keys, writing the objects of the candidates is
    updating every row in place. *)
Lemma writes_table k db :
  NoDup (map pk db) ->
  bulk_update (flat_map (write_of k) (queryset db)) db = map (updated_row k) db.
Proof.
  intros N. rewrite bulk_update_map. apply map_ext_in. intros row Hrow.
  assert (Nq : NoDup (map pk (queryset db))).
  { apply (Permutation_NoDup (l := map pk (filter has_expiry db))).
    - apply Permutation_map, Permutation_sym, queryset_perm.
    - clear Hrow. induction db as [|r db IH]; simpl; [constructor | ].
      simpl in N. inversion N as [|? ? Hnot N']; subst.
      destruct (has_expiry r); simpl; auto.
      constructor; auto. intros Hr. apply Hnot.
      apply in_map_iff in Hr as (q & Eq & Hq). apply filter_In in Hq as [Hq _].
      rewrite <- Eq. apply in_map; exact Hq. }
  destruct (has_expiry row) eqn:E.
  - apply writes_row; auto.
    + intros p Hp. apply queryset_in in Hp. apply Hp.
    + apply queryset_in. auto.
  - rewrite updated_row_other by exact E.
    apply apply_writes_none. intros obj Ho Epk.
    apply writes_pk in Ho. apply in_map_iff in Ho as (q & Eq & Hq).
    apply queryset_in in Hq as [Hq Hc].
    assert (q = row) by (apply (pk_inj db); auto; congruence).
    subst q. congruence.
Qed.

(** ** [handle] *)

Lemma candidates_have_exp db p : In p (queryset db) -> exp p <> None.
Proof.
  intros H. apply queryset_in in H as [_ H].
  destruct (has_expiry_exp p H) as (c & t & ->). discriminate.
Qed.

Lemma check_years_valid k : 0 < k -> check_years k = Accepted.
Proof.
  intros H. unfold check_years.
  replace (k <=? 0) with false by (symmetry; apply Z.leb_gt; exact H).
  reflexivity.
Qed.

Lemma years_printable_queryset k db :
  years_printable k db -> years_printable k (queryset db).
Proof.
  intros H row e r Hin. apply H. apply queryset_in in Hin as [Hin _]. exact Hin.
Qed.

(** An offset below 10000 is within reach whatever the table holds. *)
Lemma years_printable_small k db : 0 <= k < 10 ^ 4 -> years_printable k db.
Proof.
  intros Hk row e r _ _ Hc _.
  pose proof (classify_year_range e r Hc) as R.
  unfold printable. apply Z.lt_le_trans with (10 ^ 5); [lia | ].
  apply Z.pow_le_mono_r; [lia | ]. unfold int_max_str_digits. lia.
Qed.

(** With valid options, an offset within reach and without [--debug] the
    loop runs to its end. *)
Lemma handle_runs o db :
  valid o -> years_printable (years o) db -> debug o = false ->
  exists st,
    visit_all o (initial db) (queryset db) = Fine st
    /\ handle o db
       = (if len (queryset db) =? 0 then (NoProducts, db)
          else (Summary (flush o st),
                if dry_run o then db else store (flush o st))).
Proof.
  intros (Hy & Hb & Hs) Hp Hd.
  destruct (visit_all_fine o (queryset db) (initial db) (candidates_have_exp db)
              (years_printable_queryset _ _ Hp))
    as [st Hst].
  exists st. split; [exact Hst | ].
  unfold handle. rewrite (check_years_valid _ Hy).
  replace (batch_size o <=? 0) with false by (symmetry; apply Z.leb_gt; exact Hb).
  replace (show_samples o <? 0) with false by (symmetry; apply Z.ltb_ge; exact Hs).
  cbv zeta. destruct (len (queryset db) =? 0); [reflexivity | ].
  rewrite Hd, Hst. reflexivity.
Qed.

(** [handle] gets as far as the summary only with valid options. *)
Lemma handle_summary o db st db' :
  handle o db = (Summary st, db') -> valid o /\ debug o = false.
Proof.
  unfold handle, check_years, valid.
  destruct (Z.leb_spec (years o) 0); [discriminate | ].
  destruct (Z.leb_spec (batch_size o) 0); [discriminate | ].
  destruct (Z.ltb_spec (show_samples o) 0); [discriminate | ].
  cbv zeta. destruct (len (queryset db) =? 0); [discriminate | ].
  destruct (debug o).
  - destruct (collect_formats _ _); [destruct (try_formats _ _) | ]; discriminate.
  - intros _. repeat split; lia.
Qed.

Lemma handle_summary_state o db st db' :
  handle o db = (Summary st, db') ->
  exists st0,
    visit_all o (initial db) (queryset db) = Fine st0
    /\ st = flush o st0
    /\ db' = (if dry_run o then db else store st).
Proof.
  unfold handle, check_years.
  destruct (Z.leb_spec (years o) 0); [discriminate | ].
  destruct (Z.leb_spec (batch_size o) 0); [discriminate | ].
  destruct (Z.ltb_spec (show_samples o) 0); [discriminate | ].
  cbv zeta. destruct (len (queryset db) =? 0); [discriminate | ].
  destruct (debug o).
  - destruct (collect_formats _ _); [destruct (try_formats _ _) | ]; discriminate.
  - destruct (visit_all o (initial db) (queryset db)) as [st0|]; [ | discriminate].
    intros E. inversion E; subst. eauto.
Qed.

Lemma verdict_partition k l :
  (forall p, In p l -> exp p <> None) ->
  len (filter (is_changed k) l) + len (filter (is_unmatched k) l)
  + len (filter (is_unchanged k) l) = len l.
Proof.
  induction l as [|p l IH]; intros H; [reflexivity | ].
  rewrite !(filter_cons_len _ p l).
  change (len (p :: l)) with (len ([p] ++ l)). rewrite len_app.
  specialize (IH (fun q Hq => H q (or_intror Hq))).
  assert (E : len (filter (is_changed k) [p]) + len (filter (is_unmatched k) [p])
              + len (filter (is_unchanged k) [p]) = len [p]).
  { specialize (H p (or_introl eq_refl)).
    unfold filter, is_changed, is_unmatched, is_unchanged.
    destruct (exp p) as [e|]; [ | contradiction].
    destruct (judge k e); reflexivity. }
  lia.
Qed.

(** A positive offset below 100 always moves the year. *)
Lemma never_unchanged k x :
  0 < k < 100 -> _calculate_new_expiry x k <> Ok (Some (strip x)).
Proof.
  intros Hk H. destruct (calculate_returns x k _ H) as (r & Hc & _ & E).
  pose proof (unchanged_offset x k r Hc (eq_sym E)) as U.
  destruct (year_length (rule r) =? 2); [ | lia].
  rewrite Z.mod_small in U; lia.
Qed.

Lemma is_unchanged_never k p : 0 < k < 100 -> is_unchanged k p = false.
Proof.
  intros Hk. unfold is_unchanged. destruct (exp p) as [e|]; [ | reflexivity].
  pose proof (judge_cases k e) as J. destruct (judge k e); try reflexivity.
  exfalso. apply (never_unchanged k (strip e) Hk). rewrite strip_idem. exact J.
Qed.

Lemma judge_changed k e z :
  _calculate_new_expiry (strip e) k = Ok (Some z) -> z <> strip e ->
  judge k e = Changed z.
Proof.
  intros H Hz. unfold judge. rewrite H.
  destruct (str_eqb z (strip e)) eqn:E; [ | reflexivity].
  apply str_eqb_eq in E. contradiction.
Qed.

Lemma judge_unmatched k e :
  classify (strip e) = None -> judge k e = Unmatched.
Proof. intros H. unfold judge. rewrite calculate_classify, H. reflexivity. Qed.

Lemma digits_value_nonneg s : all_digits s = true -> 0 <= digits_value s.
Proof.
  unfold digits_value.
  assert (G : forall a, 0 <= a -> all_digits s = true ->
              0 <= fold_left (fun acc c => 10 * acc + digit_value c) s a).
  { induction s as [|c s IH]; intros a Ha H; cbn [fold_left]; [exact Ha | ].
    unfold all_digits in H; cbn [forallb] in H.
    apply andb_true_iff in H as [Hc Hs].
    pose proof (digit_value_range c Hc). apply IH; [lia | exact Hs]. }
  apply G; lia.
Qed.

(** Two committing runs one after the other change a row as one run with
    the sum of the offsets does. *)
Lemma updated_row_compose k1 k2 row :
  0 < k1 -> 0 < k2 -> k1 + k2 < 100 ->
  (forall e r, exp row = Some e -> classify e = Some r ->
               year_length (rule r) = 4 -> year r + k1 <= 9999) ->
  updated_row k2 (updated_row k1 row) = updated_row (k1 + k2) row.
Proof.
  intros H1 H2 H12 Hfit.
  unfold updated_row at 2 3.
  destruct (exp row) as [[|c t]|] eqn:E;
    try (unfold updated_row; rewrite E; reflexivity).
  remember (c :: t) as e eqn:Ee.
  pose proof (judge_cases k1 e) as J. destruct (judge k1 e) as [ | |y] eqn:J1.
  - rewrite !calculate_modest in J by lia.
    destruct (classify (strip e)) as [r|] eqn:Hc; [destruct J; discriminate | ].
    rewrite (judge_unmatched (k1 + k2) e Hc).
    unfold updated_row. rewrite E, Ee, <- Ee. rewrite (judge_unmatched k2 e Hc).
    reflexivity.
  - pose proof (is_unchanged_never k1 row ltac:(lia)) as U.
    unfold is_unchanged in U. rewrite E, J1 in U. discriminate.
  - destruct J as [Jy Jne].
    destruct (output_no_space _ _ _ Jy) as [Yne Ysp].
    pose proof Jy as Jy'. rewrite calculate_modest in Jy' by lia.
    destruct (classify (strip e)) as [r|] eqn:Hc; [ | discriminate].
    inversion Jy' as [Ey].
    assert (F : year_length (rule r) = 4 -> 0 <= year r + k1 <= 9999).
    { intros Y4. split.
      - destruct (fields_of_classified (strip e) k1 r Hc)
          as (mf & yf & _ & _ & [Hd _] & Ev & _).
        pose proof (digits_value_nonneg yf Hd). lia.
      - apply (Hfit e r); auto. rewrite <- classify_strip. exact Hc. }
    pose proof (transform_of_output (strip e) k1 k2 r Hc F) as T2.
    rewrite (calculate_modest (strip e) (k1 + k2)), Hc in T2 by lia.
    rewrite Ey in T2.
    assert (Jz : judge k2 y = Changed (apply_offset r (k1 + k2))).
    { apply judge_changed; rewrite (strip_no_space y Ysp); [exact T2 | ].
      intros Ez. apply (never_unchanged k2 y ltac:(lia)).
      rewrite (strip_no_space y Ysp), T2, Ez. reflexivity. }
    assert (J12 : judge (k1 + k2) e = Changed (apply_offset r (k1 + k2))).
    { apply judge_changed; [rewrite calculate_modest, Hc by lia; reflexivity | ].
      intros Ez. apply (never_unchanged (k1 + k2) (strip e) ltac:(lia)).
      rewrite strip_idem, calculate_modest, Hc, Ez by lia. reflexivity. }
    rewrite J12. unfold updated_row. cbn [exp pk]. rewrite ?Ey.
    destruct y as [|c' t']; [contradiction | ]. rewrite Jz. reflexivity.
Qed.

(** ** The debug branch *)

Lemma in_firstn {A : Type} (x : A) n l : In x (firstn n l) -> In x l.
Proof.
  intros H. rewrite <- (firstn_skipn n l). apply in_or_app. left; exact H.
Qed.

Lemma collect_formats_fine l : forall acc,
  (forall p, In p l -> exp p <> None) ->
  exists uf, collect_formats l acc = Fine uf.
Proof.
  induction l as [|p l IH]; intros acc H; simpl; [eauto | ].
  assert (H' : forall q, In q l -> exp q <> None)
    by (intros q Hq; apply H; right; exact Hq).
  destruct (exp p) as [[|c t]|] eqn:E.
  - simpl. apply IH; exact H'.
  - destruct (strip (c :: t)); [apply IH; exact H' | ].
    destruct (_ && _); apply IH; exact H'.
  - exfalso. apply (H p (or_introl eq_refl)). exact E.
Qed.

Lemma try_formats_fine keys k :
  (forall key, In key keys -> exists res, _calculate_new_expiry key k = Ok res) ->
  exists tests, try_formats keys k = Fine tests.
Proof.
  induction keys as [|key keys IH]; intros H; simpl; [eauto | ].
  destruct (H key (or_introl eq_refl)) as [res ->].
  destruct IH as [tests ->]; [intros q Hq; apply H; right; exact Hq | ].
  eauto.
Qed.

(** What [collect_formats] keeps: distinct keys, each the stripped value of
    a row it has seen, with that row's primary key. *)
Lemma collect_formats_keeps l : forall acc uf,
  collect_formats l acc = Fine uf ->
  (NoDup (map fst acc) -> NoDup (map fst uf))
  /\ (forall kv, In kv uf ->
        In kv acc
        \/ exists p e, In p l /\ exp p = Some e /\ strip e = fst kv
                       /\ fst kv <> [] /\ pk p = snd kv)
  /\ (List.length uf <= List.length acc + List.length l)%nat.
Proof.
  induction l as [|p l IH]; intros acc uf H; simpl in H.
  - inversion H; subst. repeat split; auto. lia.
  - destruct (exp p) as [e|] eqn:E; [ | discriminate].
    assert (Skip : collect_formats l acc = Fine uf ->
              (NoDup (map fst acc) -> NoDup (map fst uf))
              /\ (forall kv, In kv uf ->
                    In kv acc
                    \/ exists p0 e0, In p0 (p :: l) /\ exp p0 = Some e0
                          /\ strip e0 = fst kv /\ fst kv <> [] /\ pk p0 = snd kv)
              /\ (List.length uf <= List.length acc + List.length (p :: l))%nat).
    { intros H'. destruct (IH _ _ H') as (A & B & C). repeat split; auto.
      - intros kv Hkv. destruct (B kv Hkv) as [? | (q & e0 & Hq & ?)]; auto.
        right. exists q, e0. split; [right; exact Hq | auto].
      - simpl; lia. }
    destruct (strip e) as [|c t] eqn:Es; [exact (Skip H) | ].
    destruct (existsb _ acc) eqn:X; cbn [negb andb] in H; [exact (Skip H) | ].
    destruct (len acc <? 20); [ | exact (Skip H)].
    destruct (IH _ _ H) as (A & B & C). repeat split.
    + intros N. apply A. rewrite map_app. simpl.
      apply (Permutation_NoDup (l := (c :: t) :: map fst acc)).
      * apply Permutation_cons_append.
      * constructor; [ | exact N]. intros Hin.
        apply in_map_iff in Hin as (kv & Ek & Hkv).
        assert (existsb (fun kv0 => str_eqb (fst kv0) (c :: t)) acc = true).
        { apply existsb_exists. exists kv. split; [exact Hkv | ].
          rewrite Ek. apply str_eqb_refl. }
        congruence.
    + intros kv Hkv. destruct (B kv Hkv) as [Hin | (q & e0 & Hq & ?)].
      * apply in_app_or in Hin as [Hin | [<- | []]]; auto.
        right. exists p, e. simpl. repeat split; auto. discriminate.
      * right. exists q, e0. split; [right; exact Hq | auto].
    + rewrite length_app in C. simpl in *. lia.
Qed.

(** While at most twenty rows are seen in all, every non-empty stripped
    value gets a key. *)
Lemma collect_formats_covers l : forall acc uf,
  collect_formats l acc = Fine uf ->
  (List.length acc + List.length l <= 20)%nat ->
  (forall kv, In kv acc -> In kv uf)
  /\ (forall p e, In p l -> exp p = Some e -> strip e <> [] ->
        In (strip e) (map fst uf)).
Proof.
  induction l as [|p l IH]; intros acc uf H L; simpl in H.
  - inversion H; subst. split; [auto | intros p e []].
  - destruct (exp p) as [e|] eqn:E; [ | discriminate].
    simpl in L.
    destruct (strip e) as [|c t] eqn:Es.
    + destruct (IH _ _ H ltac:(lia)) as (A & B). split; [exact A | ].
      intros q e0 [<- | Hq] Eq Hne; [ | eauto].
      rewrite E in Eq. inversion Eq; subst e0. contradiction.
    + destruct (existsb _ acc) eqn:X; cbn [negb andb] in H.
      * destruct (IH _ _ H ltac:(lia)) as (A & B). split; [exact A | ].
        intros q e0 [<- | Hq] Eq Hne; [ | eauto].
        rewrite E in Eq. inversion Eq; subst e0. rewrite Es.
        apply existsb_exists in X as (kv & Hkv & Ek).
        apply str_eqb_eq in Ek. rewrite <- Ek.
        apply in_map, A. exact Hkv.
      * replace (len acc <? 20) with true in H
          by (symmetry; apply Z.ltb_lt; unfold len; lia).
        destruct (IH _ _ H ltac:(rewrite length_app; simpl; lia)) as (A & B).
        split; [intros kv Hkv; apply A, in_or_app; left; exact Hkv | ].
        intros q e0 [<- | Hq] Eq Hne; [ | eauto].
        rewrite E in Eq. inversion Eq; subst e0. rewrite Es.
        change (c :: t) with (fst (c :: t, pk p)).
        apply in_map, A, in_or_app. right; left; reflexivity.
Qed.

Lemma try_formats_spec keys k : forall tests,
  try_formats keys k = Fine tests ->
  map fst tests = keys
  /\ forall key res, In (key, res) tests -> _calculate_new_expiry key k = Ok res.
Proof.
  induction keys as [|key keys IH]; intros tests H; simpl in H.
  - inversion H; subst. split; [reflexivity | intros ? ? []].
  - destruct (_calculate_new_expiry key k) as [res|] eqn:E; [ | discriminate].
    destruct (try_formats keys k) as [l|]; [ | discriminate].
    inversion H; subst. destruct (IH l eq_refl) as (A & B). split.
    + simpl. rewrite A. reflexivity.
    + intros key' res' [Hk | Hk]; [inversion Hk; subst; exact E | eauto].
Qed.

(** With valid options, an offset within reach and [--debug] the report is
    produced and nothing else is done. *)
Lemma handle_debug o db :
  valid o -> years_printable (years o) db -> debug o = true ->
  exists uf tests,
    collect_formats (firstn 20 (queryset db)) [] = Fine uf
    /\ try_formats (firstn 10 (map fst uf)) (years o) = Fine tests
    /\ handle o db
       = (if len (queryset db) =? 0 then (NoProducts, db)
          else (Debugged uf tests, db)).
Proof.
  intros (Hy & Hb & Hs) Hr Hd.
  destruct (collect_formats_fine (firstn 20 (queryset db)) [])
    as [uf Hu].
  { intros p Hp. apply (candidates_have_exp db). eapply in_firstn; exact Hp. }
  destruct (try_formats_fine (firstn 10 (map fst uf)) (years o)) as [tests Ht].
  { intros key Hk. apply in_firstn in Hk. apply in_map_iff in Hk as (kv & <- & Hkv).
    destruct (collect_formats_keeps _ _ _ Hu) as (_ & Hin & _).
    destruct (Hin kv Hkv) as [[] | (p & e & Hp & He & <- & _)].
    apply (row_printable _ (queryset db) p e);
      [apply years_printable_queryset, Hr | eapply in_firstn; exact Hp | exact He]. }
  exists uf, tests. split; [exact Hu | ]. split; [exact Ht | ].
  unfold handle. rewrite (check_years_valid _ Hy).
  replace (batch_size o <=? 0) with false by (symmetry; apply Z.leb_gt; exact Hb).
  replace (show_samples o <? 0) with false by (symmetry; apply Z.ltb_ge; exact Hs).
  cbv zeta. destruct (len (queryset db) =? 0); [reflexivity | ].
  rewrite Hd, Hu, Ht. reflexivity.
Qed.


Lemma len_zero {A : Type} (l : list A) : (len l =? 0) = true <-> l = [].
Proof.
  unfold len. destruct l as [|a l]; split; intros H; try reflexivity;
    discriminate.
Qed.

Lemma len_nonzero {A : Type} (l : list A) : l <> [] -> (len l =? 0) = false.
Proof.
  intros H. destruct (len l =? 0) eqn:E; [ | reflexivity].
  apply len_zero in E. contradiction.
Qed.

(** The state in which a run with valid options ends. *)
Lemma handle_ends o db :
  valid o -> years_printable (years o) db -> debug o = false ->
  queryset db <> [] ->
  exists st0,
    visit_all o (initial db) (queryset db) = Fine st0
    /\ handle o db
       = (Summary (flush o st0), if dry_run o then db else store (flush o st0)).
Proof.
  intros Hv Hp Hd Hq. destruct (handle_runs o db Hv Hp Hd) as (st0 & Hst & Hh).
  exists st0. split; [exact Hst | ]. rewrite Hh, (len_nonzero _ Hq). reflexivity.
Qed.

(** A committing run updates every row in place. *)
Lemma handle_commits o db :
  valid o -> years_printable (years o) db -> commits o -> NoDup (map pk db) ->
  snd (handle o db) = map (updated_row (years o)) db.
Proof.
  intros Hv Hp [Hdry Hdbg] N.
  destruct (handle_runs o db Hv Hp Hdbg) as (st0 & Hst & Hh). rewrite Hh.
  destruct (len (queryset db) =? 0) eqn:Z0.
  - apply len_zero in Z0. simpl.
    rewrite <- writes_table, Z0 by exact N. reflexivity.
  - rewrite Hdry. cbn [snd].
    destruct (flush_store o st0) as (Fs & _). rewrite Fs, Hdry.
    rewrite (visit_all_wet o _ _ _ Hdry Hst). cbn [initial pending_updates store].
    apply writes_table; exact N.
Qed.

End DriverFacts.

(* ================================================================== *)
(** * The random date *)

Module RandomFacts.
Import RandomInvoices.

Lemma random_date_in_range drawn start_date end_date :
  (forall stop, 0 < stop -> 0 <= drawn stop < stop) ->
  date_min <= start_date -> end_date <= date_max ->
  start_date <= end_date ->
  exists d, random_date drawn start_date end_date = Value d
            /\ start_date <= d <= end_date.
Proof.
  intros Hd Hmin Hmax Hle. unfold random_date, randrange, add_days.
  replace (end_date - start_date + 1 <=? 0) with false
    by (symmetry; apply Z.leb_gt; lia).
  pose proof (Hd (end_date - start_date + 1) ltac:(lia)) as R.
  cbv zeta.
  replace ((date_min <=? start_date + drawn (end_date - start_date + 1))
           && (start_date + drawn (end_date - start_date + 1) <=? date_max))
    with true.
  - eexists; split; [reflexivity | lia].
  - symmetry. apply andb_true_iff. rewrite !Z.leb_le. unfold date_min, date_max in *.
    lia.
Qed.

Lemma random_date_empty drawn start_date end_date :
  end_date < start_date ->
  random_date drawn start_date end_date = Raises ValueError.
Proof.
  intros H. unfold random_date, randrange.
  replace (end_date - start_date + 1 <=? 0) with true
    by (symmetry; apply Z.leb_le; lia).
  reflexivity.
Qed.

End RandomFacts.

(* ================================================================== *)
(** * A whole run, field by field *)

Module RunFacts.
Import Driver Notions TransformFacts DriverFacts.

(** A rule that accepts the stripped input is the one [classify] finds. *)
Lemma accepts_classify p x r :
  In p EXP_PATTERNS -> accepts p (strip x) = Some r -> classify x = Some r.
Proof.
  intros Hp Ha.
  destruct (accepts_sound p _ r Hp Ha) as (mf & yf & e & Es & He & Hm & Hy & Er).
  apply at_end_inv in He as [-> | ->].
  - rewrite app_nil_r in Es. unfold classify. rewrite Es.
    rewrite (first_accepting_layout p mf yf (month r) Hp Hm Hy).
    f_equal. symmetry. exact Er.
  - apply strip_last in Es; discriminate.
Qed.

(** No two rules accept the same stripped input. *)
Lemma accepts_exclusive p q x r r' :
  In p EXP_PATTERNS -> In q EXP_PATTERNS ->
  accepts p (strip x) = Some r -> accepts q (strip x) = Some r' ->
  p = q /\ r = r'.
Proof.
  intros Hp Hq Ha Hb.
  pose proof (accepts_classify p x r Hp Ha) as A.
  pose proof (accepts_classify q x r' Hq Hb) as B.
  assert (E : r = r') by congruence. split; [ | exact E].
  destruct (accepts_sound p _ r Hp Ha) as (? & ? & ? & _ & _ & _ & _ & Er).
  destruct (accepts_sound q _ r' Hq Hb) as (? & ? & ? & _ & _ & _ & _ & Er').
  assert (P : rule r = p) by (rewrite Er; reflexivity).
  assert (Q : rule r' = q) by (rewrite Er'; reflexivity).
  congruence.
Qed.

Lemma year_field_same p v k :
  (if year_length p =? 2 then k mod 100 = 0 else k = 0) ->
  year_field p (v + k) = year_field p (v + 0).
Proof.
  unfold year_field. destruct (year_length p =? 2); intros H.
  - f_equal. rewrite Z.add_0_r, Z.add_mod, H, Z.add_0_r, Z.mod_mod by lia.
    reflexivity.
  - subst. reflexivity.
Qed.

(** Every field of the state that the summary is printed from. *)
Lemma summary_fields o db st0 :
  visit_all o (initial db) (queryset db) = Fine st0 ->
  processed_count (flush o st0) = len (queryset db)
  /\ updated_count (flush o st0)
     = len (filter (is_changed (years o)) (queryset db))
  /\ skipped_count (flush o st0)
     = len (filter (is_unmatched (years o)) (queryset db))
  /\ unchanged_count (flush o st0)
     = len (filter (is_unchanged (years o)) (queryset db))
  /\ sample_updates (flush o st0)
     = (if dry_run o
        then firstn (Z.to_nat (show_samples o))
               (flat_map (change_of (years o)) (queryset db))
        else [])
  /\ unmatched_samples (flush o st0)
     = firstn (Z.to_nat (show_unmatched o))
         (flat_map (unmatched_of (years o)) (queryset db)).
Proof.
  intros H.
  destruct (flush_store o st0) as (_ & Fu & Fk & Fc & Fp & Fs & Fm & _).
  rewrite Fu, Fk, Fc, Fp, Fs, Fm.
  destruct (visit_all_counts o _ _ _ H) as (P & U & K & C).
  cbn [initial processed_count updated_count skipped_count unchanged_count]
    in P, U, K, C.
  destruct (visit_all_samples o (queryset db) (initial db) st0 []) as (S1 & S2).
  - cbn [initial sample_updates flat_map]. rewrite firstn_nil.
    destruct (dry_run o); reflexivity.
  - cbn [initial unmatched_samples flat_map]. rewrite firstn_nil. reflexivity.
  - exact H.
  - cbn [app] in S1, S2. repeat split; try assumption; lia.
Qed.

(** The database a run with valid options leaves, when it is not a debug
    run and the primary keys are distinct. *)
Lemma handle_table o db :
  valid o -> years_printable (years o) db -> debug o = false ->
  NoDup (map pk db) ->
  snd (handle o db)
  = if dry_run o then db else map (updated_row (years o)) db.
Proof.
  intros Hv Hp Hd N. destruct (dry_run o) eqn:Hdry.
  - destruct (handle_runs o db Hv Hp Hd) as (st0 & _ & Hh). rewrite Hh, Hdry.
    destruct (len (queryset db) =? 0); reflexivity.
  - apply handle_commits; [exact Hv | exact Hp | split; assumption | exact N].
Qed.

Lemma candidates_count db : len (queryset db) = len (filter has_expiry db).
Proof.
  unfold len. f_equal. apply Permutation_length, queryset_perm.
Qed.

(** ** How a run can break *)

Lemma calculate_raises x k z :
  _calculate_new_expiry x k = Raise z -> z = ValueError.
Proof.
  rewrite calculate_classify. destruct (classify x) as [r|]; [ | discriminate].
  destruct (year_writable r k); [discriminate | ]. congruence.
Qed.

Lemma visit_broke o st p z :
  exp p <> None -> visit o st p = Broke z -> z = Transform ValueError.
Proof.
  unfold visit. destruct (exp p) as [e|]; [intros _ | contradiction].
  cbv zeta.
  destruct (_calculate_new_expiry (strip e) (years o)) as [[y|]|x] eqn:T.
  - destruct (str_eqb _ _); [discriminate | ].
    destruct (negb (dry_run o)); [ | discriminate].
    destruct (_ >=? _); discriminate.
  - discriminate.
  - intros H. inversion H. rewrite (calculate_raises _ _ _ T). reflexivity.
Qed.

Lemma visit_all_broke o l : forall st z,
  (forall p, In p l -> exp p <> None) ->
  visit_all o st l = Broke z -> z = Transform ValueError.
Proof.
  induction l as [|p l IH]; intros st z H; simpl; [discriminate | ].
  destruct (visit o st p) as [st1|z1] eqn:V.
  - apply IH. intros q Hq; apply H; right; exact Hq.
  - intros E. inversion E; subst z1.
    exact (visit_broke o st p z (H p (or_introl eq_refl)) V).
Qed.


(** The loop breaks when a row it visits has a year that cannot be
    written. *)
Lemma visit_all_breaks o l : forall st p e r,
  In p l -> exp p = Some e -> classify e = Some r ->
  year_writable r (years o) = false ->
  exists z, visit_all o st l = Broke z.
Proof.
  induction l as [|q l IH]; intros st p e r Hin He Hc Hw; [contradiction | ].
  simpl. destruct (visit o st q) as [st1|z] eqn:V; [ | eauto].
  destruct Hin as [-> | Hin]; [ | eapply IH; eauto].
  exfalso. unfold visit in V. cbv zeta in V. rewrite He in V.
  rewrite (calculate_unwritable (strip e) (years o) r) in V;
    [discriminate | rewrite classify_strip; exact Hc | exact Hw].
Qed.

(** [handle] once the options have been let through. *)
Lemma handle_valid o db :
  valid o ->
  handle o db
  = if len (queryset db) =? 0 then (NoProducts, db)
    else if debug o then
      match collect_formats (firstn 20 (queryset db)) [] with
      | Broke e => (Uncaught e, db)
      | Fine unique_formats =>
          match try_formats (firstn 10 (map fst unique_formats)) (years o) with
          | Broke e => (Uncaught e, db)
          | Fine tests => (Debugged unique_formats tests, db)
          end
      end
    else
      match visit_all o (initial db) (queryset db) with
      | Broke e => (ProcessingError e, db)
      | Fine st =>
          (Summary (flush o st), if dry_run o then db else store (flush o st))
      end.
Proof.
  intros (Hy & Hb & Hs). unfold handle. rewrite (check_years_valid _ Hy).
  replace (batch_size o <=? 0) with false by (symmetry; apply Z.leb_gt; exact Hb).
  replace (show_samples o <? 0) with false by (symmetry; apply Z.ltb_ge; exact Hs).
  reflexivity.
Qed.

(** A row that a rule takes is a candidate. *)
Lemma classified_candidate db row e r :
  In row db -> exp row = Some e -> classify e = Some r -> In row (queryset db).
Proof.
  intros Hin He Hc. apply queryset_in. split; [exact Hin | ].
  unfold has_expiry. rewrite He. destruct e; [discriminate Hc | reflexivity].
Qed.

(** ** The candidates after a committing run *)

Lemma updated_row_has_expiry k row :
  has_expiry (updated_row k row) = has_expiry row.
Proof.
  unfold updated_row. destruct (exp row) as [[|c t]|] eqn:E; try reflexivity.
  pose proof (judge_cases k (c :: t)) as J.
  destruct (judge k (c :: t)) as [| |new_exp]; try reflexivity.
  destruct J as (J & _). destruct (output_no_space _ _ _ J) as (Hne & _).
  unfold has_expiry; cbn [exp]. rewrite E.
  destruct new_exp; [contradiction | reflexivity].
Qed.

Lemma filter_map_same {A : Type} (f : A -> A) (g : A -> bool) (l : list A) :
  (forall a, g (f a) = g a) -> filter g (map f l) = map f (filter g l).
Proof.
  intros H. induction l as [|a l IH]; [reflexivity | ].
  cbn [map filter]. rewrite H, IH. destruct (g a); reflexivity.
Qed.

Lemma insert_by_pk_map (f : product -> product) p l :
  (forall row, pk (f row) = pk row) ->
  insert_by_pk (f p) (map f l) = map f (insert_by_pk p l).
Proof.
  intros H. induction l as [|q l IH]; [reflexivity | ].
  cbn [map insert_by_pk]. rewrite !H, IH.
  destruct (pk p <=? pk q); reflexivity.
Qed.

Lemma order_by_pk_map (f : product -> product) l :
  (forall row, pk (f row) = pk row) ->
  order_by_pk (map f l) = map f (order_by_pk l).
Proof.
  intros H. unfold order_by_pk. induction l as [|p l IH]; [reflexivity | ].
  cbn [map fold_right]. rewrite IH. apply insert_by_pk_map; exact H.
Qed.

Lemma queryset_updated k db :
  queryset (map (updated_row k) db) = map (updated_row k) (queryset db).
Proof.
  unfold queryset.
  rewrite (filter_map_same _ _ _ (updated_row_has_expiry k)).
  apply order_by_pk_map. apply updated_row_pk.
Qed.

(** ** The length of the output *)

Lemma length_layout p mf yf :
  List.length (layout p mf yf)
  = (List.length mf + List.length (separator p) + List.length yf)%nat.
Proof.
  unfold layout. destruct (month_first p); rewrite !length_app; lia.
Qed.

Lemma month_name_length mf m :
  dict_get MONTH_MAP (lower mf) = Some m -> (3 <= List.length mf <= 9)%nat.
Proof.
  unfold dict_get. intros H.
  destruct (find (fun kv => str_eqb (fst kv) (lower mf)) MONTH_MAP)
    as [kv|] eqn:F; [ | discriminate].
  apply find_some in F as (Hin & Heq). apply str_eqb_eq in Heq.
  apply (f_equal (@List.length ascii)) in Heq.
  unfold lower in Heq. rewrite length_map in Heq.
  unfold MONTH_MAP in Hin. simpl in Hin.
  repeat (destruct Hin as [<- | Hin]); try contradiction; simpl in Heq; lia.
Qed.

Lemma separator_length p :
  In p EXP_PATTERNS -> (List.length (separator p) <= 1)%nat.
Proof.
  intros Hin; unfold EXP_PATTERNS in Hin; simpl in Hin.
  repeat (destruct Hin as [<- | Hin]); try contradiction; simpl; lia.
Qed.

(** The month field of the output against the month field of the input. *)
Lemma month_field_length p mf yf m :
  month_ok p mf m ->
  (List.length mf <= List.length (month_field (parsed_of p mf yf m))
   <= List.length mf + 1)%nat
  /\ (List.length (month_field (parsed_of p mf yf m)) <= 9)%nat.
Proof.
  unfold month_ok, month_field, parsed_of; cbn [month_text month].
  destruct (month_type p).
  - intros (_ & _ & Hd). rewrite length_capitalize.
    pose proof (month_name_length mf m Hd). lia.
  - intros (_ & Hl & _ & _ & Hr).
    destruct (zero_padded_fits 2 m ltac:(lia) ltac:(simpl; lia)) as (_ & B & _).
    rewrite B. lia.
Qed.

End RunFacts.

Import Driver Notions TransformFacts DriverFacts RunFacts RandomFacts.

(* ================================================================== *)
(** * Further properties of the transform *)

(** X1.  Offsets add up: when the transform of [x] with offset [k1] gives
    [y] (and a four-digit year stays within 0..9999), the transform of [y]
    with offset [k2] gives what the transform of [x] with offset [k1 + k2]
    gives. *)
Theorem X1_offsets_add_up (x : str) (k1 k2 : Z) (y : str) :
  _calculate_new_expiry x k1 = Ok (Some y) ->
  (forall r, classify x = Some r -> year_length (rule r) = 4 ->
             0 <= year r + k1 <= 9999) ->
  _calculate_new_expiry y k2 = _calculate_new_expiry x (k1 + k2).
Proof.
  intros H Hfit. destruct (calculate_returns x k1 y H) as (r & Hc & _ & ->).
  exact (transform_of_output x k1 k2 r Hc (Hfit r Hc)).
Qed.

Lemma X1_witness :
  _calculate_new_expiry (lit "Nov-01") 4 = _calculate_new_expiry (lit "nov-98") (3 + 4).
Proof.
  apply (X1_offsets_add_up (lit "nov-98") 3 4 (lit "Nov-01")).
  - reflexivity.
  - intros r Hr. vm_compute in Hr. inversion Hr; subst r. simpl. lia.
Defined.

(** X2.  White space around the value is ignored: padding the input on
    both sides with any white-space characters does not change the result. *)
Theorem X2_padding_ignored (ws1 x ws2 : str) (k : Z) :
  forallb is_space ws1 = true -> forallb is_space ws2 = true ->
  _calculate_new_expiry (ws1 ++ x ++ ws2) k = _calculate_new_expiry x k.
Proof.
  intros H1 H2. rewrite !calculate_loop, strip_padded by assumption.
  reflexivity.
Qed.

Lemma X2_witness :
  _calculate_new_expiry (lit "  " ++ lit "08/29" ++ lit " ") 3
  = _calculate_new_expiry (lit "08/29") 3.
Proof.
  apply (X2_padding_ignored (lit "  ") (lit "08/29") (lit " ") 3); reflexivity.
Defined.

(** X3.  The case of the letters of the input does not matter: two inputs
    that are equal once lower-cased give the same result. *)
Theorem X3_case_ignored (x x' : str) (k : Z) :
  lower x = lower x' ->
  _calculate_new_expiry x k = _calculate_new_expiry x' k.
Proof.
  intros H. rewrite !calculate_classify.
  destruct (classify x) as [r|] eqn:E1.
  - destruct (classify_lower x x' k r H E1) as (r' & E2 & Ew & Eo).
    rewrite E2, Ew, Eo. reflexivity.
  - destruct (classify x') as [r'|] eqn:E2; [ | reflexivity].
    destruct (classify_lower x' x k r' (eq_sym H) E2) as (r & E & _).
    congruence.
Qed.

Lemma X3_witness :
  _calculate_new_expiry (lit "AUGUST/2029") 3
  = _calculate_new_expiry (lit "auGust/2029") 3.
Proof.
  apply (X3_case_ignored (lit "AUGUST/2029") (lit "auGust/2029") 3).
  reflexivity.
Defined.

(** X4.  For an input that a rule takes, the result equals the stripped
    input exactly when the stripped input is already written the way the
    transform writes it (the result for offset 0) and the offset leaves the
    year field alone: a multiple of 100 under a two-digit rule, 0 under a
    four-digit rule. *)
Theorem X4_unchanged_exactly (x : str) (k : Z) (r : parsed) :
  classify x = Some r ->
  (_calculate_new_expiry x k = Ok (Some (strip x))
   <-> _calculate_new_expiry x 0 = Ok (Some (strip x))
       /\ (if year_length (rule r) =? 2 then k mod 100 = 0 else k = 0)).
Proof.
  intros Hc.
  assert (W0 : year_writable r 0 = true)
    by (apply (year_writable_modest x r 0 Hc); lia).
  split.
  - intros H. destruct (calculate_returns x k _ H) as (r' & Hc' & _ & E).
    assert (r' = r) by congruence. subst r'.
    pose proof (unchanged_offset x k r Hc (eq_sym E)) as Hk.
    split; [ | exact Hk]. rewrite (calculate_writable x 0 r Hc W0), E.
    unfold apply_offset. rewrite (year_field_same _ _ _ Hk). reflexivity.
  - intros [H Hk]. destruct (calculate_returns x 0 _ H) as (r' & Hc' & _ & E).
    assert (r' = r) by congruence. subst r'.
    assert (W : year_writable r k = true).
    { unfold year_writable in *. destruct (year_length (rule r) =? 2);
        [reflexivity | ]. subst k. exact W0. }
    rewrite (calculate_writable x k r Hc W), E.
    unfold apply_offset. rewrite (year_field_same _ _ _ Hk). reflexivity.
Qed.

Lemma X4_witness :
  _calculate_new_expiry (lit " 08/29") 200 = Ok (Some (lit "08/29"))
  <-> _calculate_new_expiry (lit " 08/29") 0 = Ok (Some (lit "08/29"))
      /\ 200 mod 100 = 0.
Proof.
  exact (X4_unchanged_exactly (lit " 08/29") 200
    {| rule := {| regex := re_month_year "/" 2; year_length := 2;
                  separator := lit "/"; month_first := true;
                  month_type := numeric |};
       month := 8; month_text := None; year := 29 |}
    eq_refl).
Defined.

(** X5.  The order of the rules in [EXP_PATTERNS] does not affect the
    result: no two rules accept the same stripped input, so the loop over
    any rearrangement of the twelve rules returns what the function
    returns. *)
Theorem X5_rule_order_immaterial (ps : list pattern) (x : str) (k : Z) :
  Permutation ps EXP_PATTERNS ->
  for_patterns ps (strip x) k = _calculate_new_expiry x k.
Proof.
  intros P. rewrite for_patterns_first, calculate_classify.
  destruct (first_accepting ps (strip x)) as [r|] eqn:E.
  - apply first_accepting_sound in E as (p & Hp & Ha).
    rewrite (accepts_classify p x r (Permutation_in _ P Hp) Ha). reflexivity.
  - assert (N : classify x = None).
    { unfold classify. apply first_accepting_none. intros p Hp.
      apply (proj1 (first_accepting_none ps (strip x)) E).
      exact (Permutation_in _ (Permutation_sym P) Hp). }
    rewrite N. reflexivity.
Qed.

Lemma X5_witness :
  for_patterns (rev EXP_PATTERNS) (strip (lit " 0829 ")) 3
  = _calculate_new_expiry (lit " 0829 ") 3.
Proof.
  apply (X5_rule_order_immaterial (rev EXP_PATTERNS) (lit " 0829 ") 3).
  apply Permutation_sym, Permutation_rev.
Defined.

(** X6.  The inputs for which the function returns a string are exactly
    those whose stripped form is laid out by one of the twelve rules, with a
    month field and a year field that the rule takes and, under a four-digit
    rule, a new year of at most 4300 digits; the offset plays no other
    part. *)
Theorem X6_accepted_inputs (x : str) (k : Z) :
  (exists y, _calculate_new_expiry x k = Ok (Some y))
  <-> exists p mf yf m,
        In p EXP_PATTERNS /\ strip x = layout p mf yf
        /\ month_ok p mf m /\ year_ok p yf
        /\ (year_length p = 4 -> printable (digits_value yf + k)).
Proof.
  split.
  - intros [y H]. destruct (calculate_returns x k y H) as (r & Hc & W & _).
    destruct (classify_sound x r Hc) as (Hp & mf & yf & Es & Hm & Hy & Er).
    exists (rule r), mf, yf, (month r).
    split; [exact Hp | ]. split; [exact Es | ]. split; [exact Hm | ].
    split; [exact Hy | ]. intros Y4.
    assert (Ey : year r = digits_value yf) by (rewrite Er; reflexivity).
    rewrite <- Ey. apply (year_writable_inv r k W). lia.
  - intros (p & mf & yf & m & Hp & Es & Hm & Hy & Hr).
    assert (Hc : classify x = Some (parsed_of p mf yf m)).
    { rewrite <- classify_strip, Es. apply classify_layout; assumption. }
    exists (apply_offset (parsed_of p mf yf m) k).
    apply (calculate_writable x k _ Hc).
    apply year_writable_reach; [exact Hp | exact Hr].
Qed.

(** X7.  A returned string is never empty and holds no white space, so
    stripping leaves it as it is and a row that receives it still has an
    expiry value. *)
Theorem X7_output_is_clean (x : str) (k : Z) (y : str) :
  _calculate_new_expiry x k = Ok (Some y) ->
  y <> [] /\ no_space y = true /\ strip y = y
  /\ forall i, has_expiry {| pk := i; exp := Some y |} = true.
Proof.
  intros H. destruct (output_no_space x k y H) as (Hne & Hs).
  split; [exact Hne | ]. split; [exact Hs | ].
  split; [apply strip_no_space; exact Hs | ].
  intros i. unfold has_expiry; cbn [exp]. destruct y; [contradiction | reflexivity].
Qed.

Lemma X7_witness :
  lit "Aug-32" <> [] /\ no_space (lit "Aug-32") = true
  /\ strip (lit "Aug-32") = lit "Aug-32"
  /\ forall i, has_expiry {| pk := i; exp := Some (lit "Aug-32") |} = true.
Proof.
  apply (X7_output_is_clean (lit " aug-29 ") 3 (lit "Aug-32")). reflexivity.
Defined.

(* ================================================================== *)
(** * Properties of a run of the command *)



(** X9.  The counters of the summary, when no row with a four-digit year
    is taken to a year of more than 4300 digits: every row with a non-empty
    expiry is processed once, and is counted under exactly one of updated,
    skipped and unchanged, each counter being the number of candidate rows
    whose value the transform changes, does not parse, or returns as it
    is. *)
Theorem X9_summary_counts (o : options) (db : table) :
  valid o -> years_printable (years o) db -> debug o = false ->
  queryset db <> [] ->
  exists st db',
    handle o db = (Summary st, db')
    /\ processed_count st = len (filter has_expiry db)
    /\ updated_count st = len (filter (is_changed (years o)) (queryset db))
    /\ skipped_count st = len (filter (is_unmatched (years o)) (queryset db))
    /\ unchanged_count st = len (filter (is_unchanged (years o)) (queryset db))
    /\ updated_count st + skipped_count st + unchanged_count st
       = processed_count st.
Proof.
  intros Hv Hp Hd Hq.
  destruct (handle_ends o db Hv Hp Hd Hq) as (st0 & Hst & Hh).
  destruct (summary_fields o db st0 Hst) as (P & U & K & C & _).
  eexists; eexists. split; [exact Hh | ].
  rewrite P, U, K, C, <- candidates_count. repeat split.
  pose proof (verdict_partition (years o) (queryset db)
                (candidates_have_exp db)). lia.
Qed.

Lemma X9_witness :
  exists st db',
    handle default_options sample_table = (Summary st, db')
    /\ processed_count st = len (filter has_expiry sample_table)
    /\ updated_count st
       = len (filter (is_changed (years default_options)) (queryset sample_table))
    /\ skipped_count st
       = len (filter (is_unmatched (years default_options)) (queryset sample_table))
    /\ unchanged_count st
       = len (filter (is_unchanged (years default_options)) (queryset sample_table))
    /\ updated_count st + skipped_count st + unchanged_count st
       = processed_count st.
Proof.
  apply (X9_summary_counts default_options sample_table).
  - unfold valid; simpl; lia.
  - apply years_printable_small. simpl. lia.
  - reflexivity.
  - vm_compute; discriminate.
Defined.

(** X10.  A dry run that does not break writes nothing: the database is
    left as it was, the run ends with no object pending and with the
    transaction's view of the table equal to the table, and the sample lines
    are the first [--show-samples] changes in primary-key order. *)
Theorem X10_dry_run_writes_nothing (o : options) (db : table) :
  valid o -> years_printable (years o) db -> debug o = false ->
  dry_run o = true -> queryset db <> [] ->
  exists st,
    handle o db = (Summary st, db)
    /\ store st = db /\ pending_updates st = []
    /\ sample_updates st
       = firstn (Z.to_nat (show_samples o))
           (flat_map (change_of (years o)) (queryset db)).
Proof.
  intros Hv Hp Hd Hdry Hq.
  destruct (handle_ends o db Hv Hp Hd Hq) as (st0 & Hst & Hh).
  rewrite Hdry in Hh. exists (flush o st0). split; [exact Hh | ].
  destruct (flush_store o st0) as (Fs & _ & _ & _ & _ & _ & _ & Fp).
  destruct (visit_all_dry o _ _ _ Hdry Hst) as (S1 & S2).
  destruct (summary_fields o db st0 Hst) as (_ & _ & _ & _ & Su & _).
  rewrite Fs, Fp, Su, Hdry, S1, S2. repeat split.
Qed.

Lemma X10_witness :
  exists st,
    handle {| years := 3; batch_size := 1; dry_run := true; show_samples := 1;
              debug := false; show_unmatched := 0 |} sample_table
    = (Summary st, sample_table)
    /\ store st = sample_table /\ pending_updates st = []
    /\ sample_updates st
       = firstn (Z.to_nat 1) (flat_map (change_of 3) (queryset sample_table)).
Proof.
  apply (X10_dry_run_writes_nothing
           {| years := 3; batch_size := 1; dry_run := true; show_samples := 1;
              debug := false; show_unmatched := 0 |} sample_table).
  - unfold valid; simpl; lia.
  - apply years_printable_small. simpl. lia.
  - reflexivity.
  - reflexivity.
  - vm_compute; discriminate.
Defined.

(** X11.  A run that commits and does not break rewrites the table row by
    row: with distinct primary keys and no four-digit year taken to more
    than 4300 digits, every row whose expiry the transform changes holds the
    new string afterwards, every other row (no expiry, empty expiry, not
    parsed, unchanged) is left exactly as it was, and no row is added,
    dropped, moved or given another key - whatever the batch size. *)
Theorem X11_commit_row_by_row (o : options) (db : table) :
  valid o -> years_printable (years o) db -> commits o -> NoDup (map pk db) ->
  snd (handle o db) = map (updated_row (years o)) db
  /\ map pk (snd (handle o db)) = map pk db.
Proof.
  intros Hv Hp Hc N. rewrite (handle_commits o db Hv Hp Hc N).
  split; [reflexivity | ].
  rewrite map_map. apply map_ext. intros row. apply updated_row_pk.
Qed.

Lemma X11_witness :
  snd (handle default_options sample_table)
  = map (updated_row (years default_options)) sample_table
  /\ map pk (snd (handle default_options sample_table)) = map pk sample_table.
Proof.
  apply (X11_commit_row_by_row default_options sample_table).
  - unfold valid; simpl; lia.
  - apply years_printable_small. simpl. lia.
  - split; reflexivity.
  - simpl. repeat (constructor; [simpl; intuition lia | ]). constructor.
Defined.

(** X12.  When the run does not break, the unmatched samples of the summary
    are the first [--show-unmatched] candidate rows, in primary-key order,
    whose stripped value the transform does not parse, each with its key and
    stripped value; with the default 0 there are none; and outside a dry run
    no sample update is collected. *)
Theorem X12_unmatched_samples (o : options) (db : table) :
  valid o -> years_printable (years o) db -> debug o = false ->
  queryset db <> [] ->
  exists st db',
    handle o db = (Summary st, db')
    /\ unmatched_samples st
       = firstn (Z.to_nat (show_unmatched o))
           (flat_map (unmatched_of (years o)) (queryset db))
    /\ (show_unmatched o <= 0 -> unmatched_samples st = [])
    /\ (dry_run o = false -> sample_updates st = []).
Proof.
  intros Hv Hp Hd Hq.
  destruct (handle_ends o db Hv Hp Hd Hq) as (st0 & Hst & Hh).
  destruct (summary_fields o db st0 Hst) as (_ & _ & _ & _ & Su & Um).
  eexists; eexists. split; [exact Hh | ]. split; [exact Um | ]. split.
  - intros Hz. rewrite Um.
    replace (Z.to_nat (show_unmatched o)) with 0%nat by lia. reflexivity.
  - intros Hdry. rewrite Su, Hdry. reflexivity.
Qed.

Lemma X12_witness :
  exists st db',
    handle {| years := 3; batch_size := 2; dry_run := false; show_samples := 5;
              debug := false; show_unmatched := 1 |} sample_table
    = (Summary st, db')
    /\ unmatched_samples st
       = firstn (Z.to_nat 1) (flat_map (unmatched_of 3) (queryset sample_table))
    /\ (1 <= 0 -> unmatched_samples st = [])
    /\ (false = false -> sample_updates st = []).
Proof.
  apply (X12_unmatched_samples
           {| years := 3; batch_size := 2; dry_run := false; show_samples := 5;
              debug := false; show_unmatched := 1 |} sample_table).
  - unfold valid; simpl; lia.
  - apply years_printable_small. simpl. lia.
  - reflexivity.
  - vm_compute; discriminate.
Defined.

(** X13.  With an offset from 1 to 99 no row is ever counted as unchanged:
    every candidate row is either updated or skipped. *)
Theorem X13_unchanged_needs_a_century (o : options) (db : table) :
  valid o -> years o < 100 -> debug o = false -> queryset db <> [] ->
  exists st db',
    handle o db = (Summary st, db')
    /\ unchanged_count st = 0
    /\ updated_count st + skipped_count st = len (filter has_expiry db).
Proof.
  intros Hv Hk Hd Hq.
  assert (Hp : years_printable (years o) db).
  { apply years_printable_small. destruct Hv as (Hy & _). lia. }
  destruct (handle_ends o db Hv Hp Hd Hq) as (st0 & Hst & Hh).
  destruct (summary_fields o db st0 Hst) as (_ & U & K & C & _).
  eexists; eexists. split; [exact Hh | ].
  assert (Z0 : len (filter (is_unchanged (years o)) (queryset db)) = 0).
  { assert (G : forall l, filter (is_unchanged (years o)) l = []).
    { induction l as [|p l IH]; [reflexivity | ].
      cbn [filter]. rewrite is_unchanged_never; [exact IH | ].
      destruct Hv as (Hy & _). lia. }
    rewrite G. reflexivity. }
  rewrite C, U, K, <- candidates_count. split; [exact Z0 | ].
  pose proof (verdict_partition (years o) (queryset db)
                (candidates_have_exp db)). lia.
Qed.

Lemma X13_witness :
  exists st db',
    handle default_options sample_table = (Summary st, db')
    /\ unchanged_count st = 0
    /\ updated_count st + skipped_count st = len (filter has_expiry sample_table).
Proof.
  apply (X13_unchanged_needs_a_century default_options sample_table).
  - unfold valid; simpl; lia.
  - simpl; lia.
  - reflexivity.
  - vm_compute; discriminate.
Defined.

(** X14.  Two committing runs one after the other, with offsets adding up
    to less than 100, leave the table that a single run with the sum of the
    offsets leaves, provided the first run takes no four-digit year past
    9999 and the primary keys are distinct. *)
Theorem X14_runs_add_up (o1 o2 o12 : options) (db : table) :
  valid o1 -> commits o1 -> valid o2 -> commits o2 ->
  valid o12 -> commits o12 ->
  years o12 = years o1 + years o2 -> years o12 < 100 ->
  NoDup (map pk db) -> years_fit (years o1) db ->
  snd (handle o2 (snd (handle o1 db))) = snd (handle o12 db).
Proof.
  intros V1 C1 V2 C2 V12 C12 Hk Hlt N Hfit.
  assert (P : forall o t, valid o -> years o < 100 -> years_printable (years o) t).
  { intros o t (Hy & _) Hl. apply years_printable_small. lia. }
  assert (L1 : years o1 < 100) by (destruct V2 as (Hy & _); lia).
  assert (L2 : years o2 < 100) by (destruct V1 as (Hy & _); lia).
  rewrite (handle_commits o1 db V1 (P _ _ V1 L1) C1 N),
    (handle_commits o12 db V12 (P _ _ V12 Hlt) C12 N).
  rewrite (handle_commits o2 _ V2 (P _ _ V2 L2) C2).
  - rewrite map_map. apply map_ext_in. intros row Hin. rewrite Hk.
    apply updated_row_compose.
    + destruct V1; assumption.
    + destruct V2; assumption.
    + lia.
    + intros e r He Hc H4. exact (Hfit row e r Hin He Hc H4).
  - rewrite map_map.
    rewrite (map_ext _ pk (fun row => updated_row_pk (years o1) row)).
    exact N.
Qed.

Lemma X14_witness :
  snd (handle {| years := 4; batch_size := 1; dry_run := false;
                 show_samples := 5; debug := false; show_unmatched := 0 |}
         (snd (handle default_options sample_table)))
  = snd (handle {| years := 7; batch_size := 1000; dry_run := false;
                   show_samples := 5; debug := false; show_unmatched := 0 |}
           sample_table).
Proof.
  apply (X14_runs_add_up default_options
           {| years := 4; batch_size := 1; dry_run := false;
              show_samples := 5; debug := false; show_unmatched := 0 |}
           {| years := 7; batch_size := 1000; dry_run := false;
              show_samples := 5; debug := false; show_unmatched := 0 |}
           sample_table).
  - unfold valid; simpl; lia.
  - split; reflexivity.
  - unfold valid; simpl; lia.
  - split; reflexivity.
  - unfold valid; simpl; lia.
  - split; reflexivity.
  - reflexivity.
  - simpl; lia.
  - simpl. repeat (constructor; [simpl; intuition lia | ]). constructor.
  - intros row e r Hin He Hc H4. simpl in Hin.
    repeat (destruct Hin as [<- | Hin]); try contradiction;
      cbn [exp] in He; try discriminate;
      inversion He; subst e; vm_compute in Hc; try discriminate;
      inversion Hc; subst r; simpl; lia.
Defined.

(** X15.  A debug run that does not break changes nothing and reports the
    distinct non-empty stripped expiry values of the first twenty candidate
    rows: no value is listed twice, each listed value is the stripped expiry
    of a sampled row shown with that row's key, no non-empty stripped value
    of a sampled row is left out, and the transform is tried on the first
    ten listed values in order. *)
Theorem X15_debug_report (o : options) (db : table) :
  valid o -> years_printable (years o) db -> debug o = true ->
  queryset db <> [] ->
  exists unique_formats tests,
    handle o db = (Debugged unique_formats tests, db)
    /\ NoDup (map fst unique_formats)
    /\ (forall exp_val i, In (exp_val, i) unique_formats ->
          exp_val <> []
          /\ exists row e, In row (firstn 20 (queryset db))
               /\ exp row = Some e /\ strip e = exp_val /\ pk row = i)
    /\ (forall row e, In row (firstn 20 (queryset db)) -> exp row = Some e ->
          strip e <> [] -> In (strip e) (map fst unique_formats))
    /\ map fst tests = firstn 10 (map fst unique_formats)
    /\ (forall exp_val res, In (exp_val, res) tests ->
          _calculate_new_expiry exp_val (years o) = Ok res).
Proof.
  intros Hv Hp Hd Hq.
  destruct (handle_debug o db Hv Hp Hd) as (uf & tests & Hu & Ht & Hh).
  rewrite (len_nonzero _ Hq) in Hh. exists uf, tests.
  destruct (collect_formats_keeps _ _ _ Hu) as (ND & Hin & _).
  destruct (collect_formats_covers _ _ _ Hu) as (_ & Hcov).
  { cbn [List.length plus]. apply firstn_le_length. }
  destruct (try_formats_spec _ _ _ Ht) as (Hk & Hr).
  split; [exact Hh | ]. split; [apply ND; constructor | ]. split.
  - intros exp_val i Hi. destruct (Hin _ Hi) as [[] | (p & e & A & B & C & D & E)].
    cbn [fst snd] in C, D, E. split; [exact D | ]. exists p, e. auto.
  - split; [exact Hcov | ]. split; [exact Hk | exact Hr].
Qed.

Lemma X15_witness :
  exists unique_formats tests,
    handle {| years := 3; batch_size := 1000; dry_run := false;
              show_samples := 5; debug := true; show_unmatched := 0 |}
      sample_table
    = (Debugged unique_formats tests, sample_table)
    /\ NoDup (map fst unique_formats)
    /\ (forall exp_val i, In (exp_val, i) unique_formats ->
          exp_val <> []
          /\ exists row e, In row (firstn 20 (queryset sample_table))
               /\ exp row = Some e /\ strip e = exp_val /\ pk row = i)
    /\ (forall row e, In row (firstn 20 (queryset sample_table)) ->
          exp row = Some e ->
          strip e <> [] -> In (strip e) (map fst unique_formats))
    /\ map fst tests = firstn 10 (map fst unique_formats)
    /\ (forall exp_val res, In (exp_val, res) tests ->
          _calculate_new_expiry exp_val 3 = Ok res).
Proof.
  apply (X15_debug_report
           {| years := 3; batch_size := 1000; dry_run := false;
              show_samples := 5; debug := true; show_unmatched := 0 |}
           sample_table).
  - unfold valid; simpl; lia.
  - apply years_printable_small. simpl. lia.
  - reflexivity.
  - vm_compute; discriminate.
Defined.

(** X16.  The batch size never shows in the outcome of a run that does
    not break: two runs on the same table with valid options that differ
    only in [--batch-size] leave the same table and end with the same
    counters and the same samples. *)
Theorem X16_batch_size_immaterial (o o' : options) (db : table) :
  valid o -> valid o' -> years_printable (years o) db ->
  debug o = false -> debug o' = false ->
  years o' = years o -> dry_run o' = dry_run o ->
  show_samples o' = show_samples o -> show_unmatched o' = show_unmatched o ->
  NoDup (map pk db) -> queryset db <> [] ->
  exists st st',
    fst (handle o db) = Summary st /\ fst (handle o' db) = Summary st'
    /\ snd (handle o' db) = snd (handle o db)
    /\ processed_count st' = processed_count st
    /\ updated_count st' = updated_count st
    /\ skipped_count st' = skipped_count st
    /\ unchanged_count st' = unchanged_count st
    /\ sample_updates st' = sample_updates st
    /\ unmatched_samples st' = unmatched_samples st.
Proof.
  intros Hv Hv' Hp Hd Hd' Ey Er Es Eu N Hq.
  assert (Hp' : years_printable (years o') db) by (rewrite Ey; exact Hp).
  destruct (handle_ends o db Hv Hp Hd Hq) as (st0 & Hst & Hh).
  destruct (handle_ends o' db Hv' Hp' Hd' Hq) as (st0' & Hst' & Hh').
  destruct (summary_fields o db st0 Hst) as (P & U & K & C & Su & Um).
  destruct (summary_fields o' db st0' Hst') as (P' & U' & K' & C' & Su' & Um').
  exists (flush o st0), (flush o' st0').
  split; [rewrite Hh; reflexivity | ]. split; [rewrite Hh'; reflexivity | ].
  split.
  - rewrite (handle_table o db Hv Hp Hd N), (handle_table o' db Hv' Hp' Hd' N),
      Er, Ey.
    reflexivity.
  - rewrite P, U, K, C, Su, Um, P', U', K', C', Su', Um', Ey, Er, Es, Eu.
    repeat split.
Qed.

Lemma X16_witness :
  exists st st',
    fst (handle default_options sample_table) = Summary st
    /\ fst (handle {| years := 3; batch_size := 1; dry_run := false;
                      show_samples := 5; debug := false; show_unmatched := 0 |}
              sample_table) = Summary st'
    /\ snd (handle {| years := 3; batch_size := 1; dry_run := false;
                      show_samples := 5; debug := false; show_unmatched := 0 |}
              sample_table)
       = snd (handle default_options sample_table)
    /\ processed_count st' = processed_count st
    /\ updated_count st' = updated_count st
    /\ skipped_count st' = skipped_count st
    /\ unchanged_count st' = unchanged_count st
    /\ sample_updates st' = sample_updates st
    /\ unmatched_samples st' = unmatched_samples st.
Proof.
  apply (X16_batch_size_immaterial default_options
           {| years := 3; batch_size := 1; dry_run := false;
              show_samples := 5; debug := false; show_unmatched := 0 |}
           sample_table).
  - unfold valid; simpl; lia.
  - unfold valid; simpl; lia.
  - apply years_printable_small. simpl. lia.
  - reflexivity.
  - reflexivity.
  - reflexivity.
  - reflexivity.
  - reflexivity.
  - reflexivity.
  - simpl. repeat (constructor; [simpl; intuition lia | ]). constructor.
  - vm_compute; discriminate.
Defined.

(** X18.  A committing run that does not break keeps the candidate rows:
    afterwards the rows with a non-empty expiry are the same rows, in the
    same order and under the same keys, each holding its updated value; a
    later run visits exactly the rows this one visited. *)
Theorem X18_candidates_stay (o : options) (db : table) :
  valid o -> years_printable (years o) db -> commits o -> NoDup (map pk db) ->
  queryset (snd (handle o db)) = map (updated_row (years o)) (queryset db)
  /\ map pk (queryset (snd (handle o db))) = map pk (queryset db).
Proof.
  intros Hv Hp Hc N. rewrite (handle_commits o db Hv Hp Hc N), queryset_updated.
  split; [reflexivity | ].
  rewrite map_map. apply map_ext. intros row. apply updated_row_pk.
Qed.

Lemma X18_witness :
  queryset (snd (handle default_options sample_table))
  = map (updated_row (years default_options)) (queryset sample_table)
  /\ map pk (queryset (snd (handle default_options sample_table)))
     = map pk (queryset sample_table).
Proof.
  apply (X18_candidates_stay default_options sample_table).
  - unfold valid; simpl; lia.
  - apply years_printable_small. simpl. lia.
  - split; reflexivity.
  - simpl. repeat (constructor; [simpl; intuition lia | ]). constructor.
Defined.

(** X20.  When some row is taken by a four-digit rule and the offset takes
    its year to an integer of more than 4300 digits, a run with valid
    options and without [--debug] breaks on [ValueError], reported as a
    processing error, and leaves the whole table as it was, the rows before
    the failing one included. *)
Theorem X20_unwritable_year_aborts (o : options) (db : table)
    (row : product) (e : str) (r : parsed) :
  valid o -> debug o = false ->
  In row db -> exp row = Some e -> classify e = Some r ->
  year_length (rule r) = 4 -> ~ printable (year r + years o) ->
  handle o db = (ProcessingError (Transform ValueError), db).
Proof.
  intros Hv Hd Hin He Hc Y4 Hn.
  pose proof (classified_candidate db row e r Hin He Hc) as Hq.
  rewrite (handle_valid o db Hv), Hd, len_nonzero
    by (intros E; rewrite E in Hq; exact Hq).
  destruct (visit_all_breaks o (queryset db) (initial db) row e r Hq He Hc)
    as [z Hz].
  { apply year_unwritable; [lia | exact Hn]. }
  rewrite Hz.
  rewrite (visit_all_broke _ _ _ _ (candidates_have_exp db) Hz). reflexivity.
Qed.

Lemma X20_witness :
  handle {| years := 10 ^ 4300; batch_size := 1000; dry_run := false;
            show_samples := 5; debug := false; show_unmatched := 0 |}
    [ {| pk := 1; exp := Some (lit "Aug-29") |};
      {| pk := 2; exp := Some (lit "12/2029") |} ]
  = (ProcessingError (Transform ValueError),
     [ {| pk := 1; exp := Some (lit "Aug-29") |};
       {| pk := 2; exp := Some (lit "12/2029") |} ]).
Proof.
  apply (X20_unwritable_year_aborts
           {| years := 10 ^ 4300; batch_size := 1000; dry_run := false;
              show_samples := 5; debug := false; show_unmatched := 0 |}
           [ {| pk := 1; exp := Some (lit "Aug-29") |};
             {| pk := 2; exp := Some (lit "12/2029") |} ]
           {| pk := 2; exp := Some (lit "12/2029") |}
           (lit "12/2029")
           {| rule := {| regex := re_month_year "/" 4; year_length := 4;
                         separator := lit "/"; month_first := true;
                         month_type := numeric |};
              month := 12; month_text := None; year := 2029 |}).
  - unfold valid. cbn [years batch_size show_samples].
    split; [apply Z.pow_pos_nonneg; lia | lia].
  - reflexivity.
  - right; left; reflexivity.
  - reflexivity.
  - reflexivity.
  - reflexivity.
  - exact (unprintable_above 2029 ltac:(lia)).
Defined.

(** X19.  As long as a four-digit year stays within 0..9999, the returned
    string is never shorter than the stripped input and at most one
    character longer (a one-digit month gains its leading zero), and it is
    never longer than 14 characters. *)
Theorem X19_output_length (x : str) (k : Z) (y : str) :
  _calculate_new_expiry x k = Ok (Some y) ->
  (forall r, classify x = Some r -> year_length (rule r) = 4 ->
             0 <= year r + k <= 9999) ->
  (List.length (strip x) <= List.length y <= List.length (strip x) + 1)%nat
  /\ (List.length y <= 14)%nat.
Proof.
  intros H Hfit. destruct (calculate_returns x k y H) as (r & Hc & _ & ->).
  destruct (classify_sound x r Hc) as (Hp & mf & yf & Es & Hm & Hy & Er).
  destruct (year_field_ok (rule r) (year r + k) Hp (Hfit r Hc))
    as ((_ & Ly) & _).
  destruct Hy as (_ & Ly').
  pose proof (month_field_length (rule r) mf yf (month r) Hm) as (Lm & Lm9).
  rewrite <- Er in Lm, Lm9.
  pose proof (separator_length (rule r) Hp) as Ls.
  pose proof (year_length_cases (rule r) Hp) as Yc.
  unfold apply_offset. rewrite Es, !length_layout. lia.
Qed.

Lemma X19_witness :
  (List.length (strip (lit " 8/29 ")) <= List.length (lit "08/32")
   <= List.length (strip (lit " 8/29 ")) + 1)%nat
  /\ (List.length (lit "08/32") <= 14)%nat.
Proof.
  apply (X19_output_length (lit " 8/29 ") 3 (lit "08/32")).
  - reflexivity.
  - intros r Hr. vm_compute in Hr. inversion Hr; subst r. simpl. lia.
Defined.

(* ================================================================== *)
(** * The random date of [generate_random_invoices] *)

(** X17.  When [random.randrange(n)] draws from 0..n-1, [random_date]
    returns a date from [start_date] to [end_date], both included, whenever
    [start_date] is not after [end_date]; when it is after, the call raises
    [ValueError] (the range to draw from is empty). *)
Theorem X17_random_date_in_range (drawn : Z -> Z)
    (start_date end_date : RandomInvoices.date) :
  (forall stop, 0 < stop -> 0 <= drawn stop < stop) ->
  RandomInvoices.date_min <= start_date ->
  end_date <= RandomInvoices.date_max ->
  (start_date <= end_date ->
     exists d, RandomInvoices.random_date drawn start_date end_date
               = RandomInvoices.Value d
               /\ start_date <= d <= end_date)
  /\ (end_date < start_date ->
        RandomInvoices.random_date drawn start_date end_date
        = RandomInvoices.Raises RandomInvoices.ValueError).
Proof.
  intros Hd Hmin Hmax. split.
  - intros Hle. apply random_date_in_range; assumption.
  - intros Hlt. apply random_date_empty; exact Hlt.
Qed.

Lemma X17_witness :
  (738000 <= 738030 ->
     exists d, RandomInvoices.random_date (fun stop => stop - 1) 738000 738030
               = RandomInvoices.Value d
               /\ 738000 <= d <= 738030)
  /\ (738030 < 738000 ->
        RandomInvoices.random_date (fun stop => stop - 1) 738000 738030
        = RandomInvoices.Raises RandomInvoices.ValueError).
Proof.
  apply (X17_random_date_in_range (fun stop => stop - 1) 738000 738030).
  - intros stop H; lia.
  - unfold RandomInvoices.date_min; lia.
  - unfold RandomInvoices.date_max; lia.
Defined.
